(** * CAGECleaner: dereplication status table and hit recovery

    A shallow embedding of [src/cagecleaner/cagecleaner.py]:
    [parse_dereplication_clusters] (with its helpers [extract_assembly],
    [remap_type_label], [map_scaffolds]), [recover_hits] and
    [get_dereplicated_scaffolds]; then [map_scaffolds_to_assemblies] (with
    [split_off_prefix] and [map_back]), the batches of [download_genomes],
    [write_output] and the clean-up of [main]; followed by their
    properties.

    Conventions of the embedding.
    - A pandas DataFrame indexed by scaffold is an ordered list of rows; a
      Series is an ordered list of (label, value) pairs.  The scaffold IDs of
      the cblaster binary table are taken to be distinct, so that
      [hits.loc[m]] is one row; the index of the status table is unique by
      construction (it is built from a dict).
    - The Score column, the two thresholds and the z-scores are float64
      values: the binary64 floats of the kernel, whose operations round to
      nearest even as those of numpy do.  A missing score is NaN.  The
      binary table is taken as pandas has parsed it.
    - [scipy.stats.zscore] and [Series.mode] are library functions; they are
      given by what they compute with the arguments of the call: the sorted
      modes without NaN for the mode; for the z-score the defaults
      [axis = 0, ddof = 0], the mean and the standard deviation of numpy with
      its pairwise summation, and NaN for a constant input, one whose
      entries all equal the first (scipy 1.7).
    - The vector of homolog counts of a hit lists the query gene columns in
      the order in which [groupby] receives them.
    - Exceptions are an explicit result type; [random.choice] draws from an
      explicit generator state that is threaded through the computation.
    - Texts are strings of one-byte characters.  What a function reads from
      outside (the listing of a directory, the records of a fasta file, the
      order in which a set hands out its elements) is an argument of its
      embedding; the scripts run as subprocesses are left out.
    - [re.search] is given by a backtracking matcher for the two patterns of
      [write_output]; a scaffold ID put in a pattern is read with its dots
      as wildcards and its other characters as themselves, which is what
      the engine does for the IDs that satisfy [plain_id]. *)

From Stdlib Require Import List String Ascii Bool Arith ZArith Lia.
From Stdlib Require Import Permutation Sorted.
From Stdlib Require Import Floats.
Import ListNotations.

(* A decimal literal stands for the nearest float64 value, as in Python. *)
#[local] Set Warnings "-inexact-float".

Local Open Scope string_scope.

(** ** Exceptions and the random generator *)

Inductive exn : Type :=
| IndexError
| KeyError
| ValueError.

Inductive result (A : Type) : Type :=
| Ok (a : A)
| Raise (e : exn).

Arguments Ok {A} a.
Arguments Raise {A} e.

Definition rbind {A B : Type} (r : result A) (k : A -> result B) : result B :=
  match r with
  | Ok a => k a
  | Raise e => Raise e
  end.

Fixpoint rmap {A B : Type} (f : A -> result B) (l : list A) : result (list B) :=
  match l with
  | [] => Ok []
  | x :: l' =>
      rbind (f x) (fun y => rbind (rmap f l') (fun ys => Ok (y :: ys)))
  end.

(** The state of Python's global generator: an infinite supply of draws and
    the number of draws already consumed. *)
Record rng : Type := { draws : nat -> nat; pos : nat }.

Definition M (A : Type) : Type := rng -> result (A * rng).

Definition ret {A : Type} (a : A) : M A := fun g => Ok (a, g).

Definition bind {A B : Type} (m : M A) (k : A -> M B) : M B :=
  fun g =>
    match m g with
    | Ok (a, g') => k a g'
    | Raise e => Raise e
    end.

Definition raise {A : Type} (e : exn) : M A := fun _ => Raise e.

Definition lift {A : Type} (r : result A) : M A :=
  fun g =>
    match r with
    | Ok a => Ok (a, g)
    | Raise e => Raise e
    end.

Declare Scope recover_scope.
Delimit Scope recover_scope with recover.
Notation "x <- m ;; k" := (bind m (fun x => k))
  (at level 61, m at next level, right associativity) : recover_scope.

(** [for x in l: acc = body(acc, x)] *)
Fixpoint for_each {A S : Type} (body : S -> A -> M S) (l : list A) (acc : S) : M S :=
  match l with
  | [] => ret acc
  | x :: l' => bind (body acc x) (for_each body l')
  end.

(** [random.choice(seq)]: [seq[randbelow(len(seq))]], IndexError on an empty
    sequence. *)
Definition choice {A : Type} (seq : list A) : M A :=
  fun g =>
    match seq with
    | [] => Raise IndexError
    | x :: _ =>
        Ok (nth (draws g (pos g) mod List.length seq) seq x,
            {| draws := draws g; pos := S (pos g) |})
    end.

(** ** The status table *)

Inductive status : Type :=
| dereplication_representative
| readded_by_cluster_content
| readded_by_outlier_score
| redundant.

Definition status_label (s : status) : string :=
  match s with
  | dereplication_representative => "dereplication_representative"
  | readded_by_cluster_content => "readded_by_cluster_content"
  | readded_by_outlier_score => "readded_by_outlier_score"
  | redundant => "redundant"
  end.

Definition status_eqb (a b : status) : bool :=
  match a, b with
  | dereplication_representative, dereplication_representative => true
  | readded_by_cluster_content, readded_by_cluster_content => true
  | readded_by_outlier_score, readded_by_outlier_score => true
  | redundant, redundant => true
  | _, _ => false
  end.

(** One row of the table: the index (scaffold) and the two columns. *)
Record row : Type := {
  scaffold : string;
  representative : string;
  dereplication_status : status
}.

Definition table : Type := list row.

(** [df.sort_values(by = ['representative', 'dereplication_status'])]:
    rows compared on the pair of strings; the sort is stable. *)
Definition row_leb (a b : row) : bool :=
  match String.compare (representative a) (representative b) with
  | Lt => true
  | Gt => false
  | Eq => String.leb (status_label (dereplication_status a))
                     (status_label (dereplication_status b))
  end.

Section StableSort.
Context {A : Type} (leb : A -> A -> bool).

Fixpoint insert_sorted (x : A) (l : list A) : list A :=
  match l with
  | [] => [x]
  | y :: l' => if leb x y then x :: l else y :: insert_sorted x l'
  end.

Fixpoint stable_sort (l : list A) : list A :=
  match l with
  | [] => []
  | x :: l' => insert_sorted x (stable_sort l')
  end.
End StableSort.

Definition sort_values (t : table) : table := stable_sort row_leb t.

(** [df.loc[m, 'dereplication_status']] *)
Fixpoint loc_status (t : table) (m : string) : result status :=
  match t with
  | [] => Raise KeyError
  | r :: t' =>
      if String.eqb (scaffold r) m then Ok (dereplication_status r)
      else loc_status t' m
  end.

(** [df.at[m, 'dereplication_status'] = st] *)
Definition set_status (t : table) (m : string) (st : status) : table :=
  map (fun r =>
         if String.eqb (scaffold r) m
         then {| scaffold := scaffold r;
                 representative := representative r;
                 dereplication_status := st |}
         else r) t.

(** ** The cblaster binary table *)

(** One hit of the binary table after dropping Organism, Start and End: the
    numbers of homologs per query gene, and the cblaster score. *)
Record hit : Type := {
  content : list Z;
  Score : float
}.

(** The table [hits], indexed by scaffold. *)
Definition hits_table : Type := list (string * hit).

Fixpoint loc_hit (hits : hits_table) (m : string) : result hit :=
  match hits with
  | [] => Raise KeyError
  | (s, h) :: hits' => if String.eqb s m then Ok h else loc_hit hits' m
  end.

(** [hits.loc[group]] *)
Definition loc_hits (hits : hits_table) (group : list string) : result hits_table :=
  rmap (fun m => rbind (loc_hit hits m) (fun h => Ok (m, h))) group.

(** ** Grouping *)

(** Keys of a [groupby]: the distinct values, in sorted order. *)
Definition representative_keys (t : table) : list string :=
  stable_sort String.leb (nodup string_dec (map representative t)).

(** [genome_groups]: scaffolds of the table per dereplication representative,
    the groups by sorted representative, the members in table order. *)
Definition genome_groups (t : table) : list (string * list string) :=
  map (fun rep =>
         (rep, map scaffold
                 (filter (fun r => String.eqb (representative r) rep) t)))
      (representative_keys t).

Definition content_dec : forall a b : list Z, {a = b} + {a <> b} :=
  list_eq_dec Z.eq_dec.

Definition content_eqb (a b : list Z) : bool :=
  if content_dec a b then true else false.

(** Tuples of counts compare lexicographically. *)
Fixpoint content_leb (a b : list Z) : bool :=
  match a, b with
  | [], _ => true
  | _ :: _, [] => false
  | x :: a', y :: b' =>
      if Z.ltb x y then true
      else if Z.ltb y x then false
      else content_leb a' b'
  end.

Definition content_keys (hs : hits_table) : list (list Z) :=
  stable_sort content_leb (nodup content_dec (map (fun p => content (snd p)) hs)).

(** [hits_this_group.groupby(<query gene columns>).groups.values()]: one
    group per distinct vector of counts, by sorted key, members in row
    order.  Each member is kept with its row of [hits_this_group]. *)
Definition content_groups (hits_this_group : hits_table) : list hits_table :=
  map (fun key =>
         filter (fun p => content_eqb (content (snd p)) key) hits_this_group)
      (content_keys hits_this_group).

(** ** Scores: sums, mode and z-scores *)

(** [float(n)] for the length of an array. *)
Definition float_of_nat (n : nat) : float :=
  PrimFloat.of_uint63 (Uint63.of_Z (Z.of_nat n)).

(** [r[j] += a[i + j]] on the eight running sums of numpy's summation. *)
Fixpoint add_lanes (r block : list float) : list float :=
  match r, block with
  | x :: r', y :: block' => (x + y)%float :: add_lanes r' block'
  | _, _ => r
  end.

(** The unrolled loop over the complete blocks of eight; the running sums
    come back with what is left of the array. *)
Fixpoint unrolled_loop (fuel : nat) (r a : list float)
  : list float * list float :=
  match fuel with
  | O => (r, a)
  | S fuel' =>
      if (8 <=? List.length a)%nat
      then unrolled_loop fuel' (add_lanes r (firstn 8 a)) (skipn 8 a)
      else (r, a)
  end.

Definition sum_lanes (r : list float) : float :=
  match r with
  | [r0; r1; r2; r3; r4; r5; r6; r7] =>
      (((r0 + r1) + (r2 + r3)) + ((r4 + r5) + (r6 + r7)))%float
  | _ => 0%float
  end.

(** The pairwise summation of numpy's [add.reduce] on a float64 array:
    fewer than 8 entries are added from left to right; up to 128 entries
    go through eight running sums, which are added pairwise before the
    entries left over; a longer array is cut in two at a multiple of 8.
    [fuel] bounds the depth of the cuts; the length of the array is
    enough. *)
Fixpoint pairwise_sum (fuel : nat) (a : list float) : float :=
  let n := List.length a in
  if (n <? 8)%nat then fold_left PrimFloat.add a 0%float
  else if (n <=? 128)%nat then
    let (r, rest) := unrolled_loop n (firstn 8 a) (skipn 8 a) in
    fold_left PrimFloat.add rest (sum_lanes r)
  else
    match fuel with
    | O => 0%float
    | S fuel' =>
        let n2 := (n / 2 - (n / 2) mod 8)%nat in
        (pairwise_sum fuel' (firstn n2 a)
         + pairwise_sum fuel' (skipn n2 a))%float
    end.

(** [a.sum()]: the identity of the addition plus the pairwise sum.  (The
    sign numpy gives to a sum that is zero depends on its version; it has
    no effect on [isna] and [abs] of the z-scores.) *)
Definition np_sum (a : list float) : float :=
  (0 + pairwise_sum (List.length a) a)%float.

(** [a.mean()] *)
Definition np_mean (a : list float) : float :=
  (np_sum a / float_of_nat (List.length a))%float.

(** [a.var(ddof = ddof)]: the squared deviations from the mean, summed and
    divided by [n - ddof]. *)
Definition np_var (ddof : nat) (a : list float) : float :=
  let arrmean := np_mean a in
  let x := map (fun v => (v - arrmean)%float) a in
  (np_sum (map (fun d => (d * d)%float) x)
   / float_of_nat (List.length a - ddof))%float.

(** [a.std(ddof = ddof)] *)
Definition np_std (ddof : nat) (a : list float) : float :=
  PrimFloat.sqrt (np_var ddof a).

(** The number of entries equal to [x]; NaN equals nothing. *)
Definition value_count (x : float) (l : list float) : nat :=
  List.length (filter (PrimFloat.eqb x) l).

(** [x] is preferred to [m] as the first entry of [Series.mode()]: more
    frequent, or as frequent and smaller. *)
Definition mode_better (l : list float) (x m : float) : bool :=
  (value_count m l <? value_count x l)%nat
  || ((value_count x l =? value_count m l)%nat && (x <? m)%float).

(** [scores.mode().iloc[0]]: the most frequent value that is not NaN, the
    smallest one among several.  [None] stands for the IndexError on an
    empty result, when the Series is empty or holds NaN only. *)
Definition mode (l : list float) : option float :=
  fold_right (fun x acc =>
                if is_nan x then acc
                else
                  match acc with
                  | None => Some x
                  | Some m => if mode_better l x m then Some x else Some m
                  end) None l.

(** [(a[0] == a).all()] *)
Definition isconst (a : list float) : bool :=
  forallb (PrimFloat.eqb (hd 0%float a)) a.

(** [scipy.stats.zscore(a)] with its defaults [axis = 0, ddof = 0]:
    [(a - a.mean()) / a.std()], and NaN everywhere when all entries of [a]
    are equal. *)
Definition zscore (a : list float) : list float :=
  let mn := np_mean a in
  let std := np_std 0 a in
  map (fun x => if isconst a then nan else ((x - mn) / std)%float) a.

Definition isna (z : float) : bool := is_nan z.

(** [abs(z) >= t]; a comparison with NaN is false. *)
Definition zabs_ge (z t : float) : bool := (t <=? abs z)%float.

(** ** recover_hits *)

Local Open Scope recover_scope.

Section Recover.
Variable hits : hits_table.
Variable genome_clusters_mapping : table.
Variables not_by_content not_by_score : bool.
Variables outlier_z min_score_diff : float.

(** ["dereplication_representative" in [genome_clusters_mapping.loc[m,
    'dereplication_status'] for m in members]] *)
Definition representative_in (members : list string) : result bool :=
  rbind (rmap (loc_status genome_clusters_mapping) members)
        (fun sts => Ok (existsb (status_eqb dereplication_representative) sts)).

(** The mask selecting the outliers of a content group. *)
Definition is_outlier (mode_score z score : float) : bool :=
  zabs_ge z outlier_z && (min_score_diff <=? abs (score - mode_score))%float.

Definition outliers_of (mode_score : float) (labels : list string)
           (zscores scores : list float) : list string :=
  map fst
      (filter (fun e => is_outlier mode_score (fst (snd e)) (snd (snd e)))
              (combine labels (combine zscores scores))).

(** [zscores.drop(index = outliers).index.to_list()] *)
Definition drop_labels (labels outliers : list string) : list string :=
  filter (fun m => negb (existsb (String.eqb m) outliers)) labels.

(** The body of [for outlier in outliers_this_content_group.to_list()]. *)
Definition flag_outlier (updated_mapping : table) (outlier : string) : M table :=
  st <- lift (loc_status genome_clusters_mapping outlier) ;;
  if status_eqb st dereplication_representative
  then ret updated_mapping
  else ret (set_status updated_mapping outlier readded_by_outlier_score).

(** Skip the group when it holds a scaffold of the dereplication
    representative, else flag a random member. *)
Definition flag_content (updated_mapping : table) (members : list string) : M table :=
  has_rep <- lift (representative_in members) ;;
  if has_rep then ret updated_mapping
  else
    content_group_representative <- choice members ;;
    ret (set_status updated_mapping content_group_representative
                    readded_by_cluster_content).

(** The body of [for content_group in hits_this_group_by_content_group]. *)
Definition process_content_group (updated_mapping : table)
           (content_group : hits_table) : M table :=
  let labels := map fst content_group in
  let scores_this_content_group := map (fun p => Score (snd p)) content_group in
  match mode scores_this_content_group with
  | None => raise IndexError
  | Some mode_score_this_content_group =>
      let zscores_this_content_group := zscore scores_this_content_group in
      if not_by_score || forallb isna zscores_this_content_group
      then flag_content updated_mapping labels
      else
        let outliers_this_content_group :=
          outliers_of mode_score_this_content_group labels
                      zscores_this_content_group scores_this_content_group in
        updated_mapping <-
          for_each flag_outlier outliers_this_content_group updated_mapping ;;
        let non_outliers_this_content_group :=
          drop_labels labels outliers_this_content_group in
        flag_content updated_mapping non_outliers_this_content_group
  end.

(** The body of [for representative, group in genome_groups.items()]. *)
Definition process_genome_group (updated_mapping : table)
           (item : string * list string) : M table :=
  hits_this_group <- lift (loc_hits hits (snd item)) ;;
  for_each process_content_group (content_groups hits_this_group)
           updated_mapping.

(** The table before the final sort. *)
Definition recover_updates : M table :=
  let updated_mapping := genome_clusters_mapping in
  if negb not_by_content
  then for_each process_genome_group (genome_groups genome_clusters_mapping)
                updated_mapping
  else ret updated_mapping.

Definition recover_hits : M table :=
  updated_mapping <- recover_updates ;;
  ret (sort_values updated_mapping).
End Recover.

(** ** get_dereplicated_scaffolds *)

Definition get_dereplicated_scaffolds (genome_clusters : table) : list string :=
  map scaffold
      (filter (fun r => negb (status_eqb (dereplication_status r) redundant))
              genome_clusters).

(** ** parse_dereplication_clusters *)

Definition in_range (lo hi : nat) (c : ascii) : bool :=
  (lo <=? nat_of_ascii c)%nat && (nat_of_ascii c <=? hi)%nat.

(** [0-9] *)
Definition is_digit (c : ascii) : bool := in_range 48 57 c.

(** [1-9] *)
Definition is_version_digit (c : ascii) : bool := in_range 49 57 c.

(** The class [A|F] of the pattern: it also admits the bar itself. *)
Definition is_gc_class (c : ascii) : bool :=
  Ascii.eqb c "A" || Ascii.eqb c "|" || Ascii.eqb c "F".

(** Exactly [n] characters of a class, then the rest. *)
Fixpoint take_class (p : ascii -> bool) (n : nat) (s : string)
  : option (string * string) :=
  match n with
  | O => Some (EmptyString, s)
  | S n' =>
      match s with
      | String c s' =>
          if p c then
            match take_class p n' s' with
            | Some (m, rest) => Some (String c m, rest)
            | None => None
            end
          else None
      | EmptyString => None
      end
  end.

(** The longest prefix within a class. *)
Fixpoint span_class (p : ascii -> bool) (s : string) : string :=
  match s with
  | String c s' => if p c then String c (span_class p s') else EmptyString
  | EmptyString => EmptyString
  end.

(** A match of [GC[A|F]_[0-9]{9}\.[1-9]+] at the start of [s]. *)
Definition match_accession (s : string) : option string :=
  match s with
  | String "G" (String "C" (String c (String "_" s1))) =>
      if is_gc_class c then
        match take_class is_digit 9 s1 with
        | Some (digits, String "." s2) =>
            match span_class is_version_digit s2 with
            | EmptyString => None
            | version =>
                Some (String "G" (String "C" (String c (String "_"
                        (digits ++ String "." version)))))
            end
        | _ => None
        end
      else None
  | _ => None
  end.

(** The first entry of [pattern.findall(path)], if any. *)
Fixpoint first_accession (path : string) : option string :=
  match match_accession path with
  | Some a => Some a
  | None =>
      match path with
      | String _ path' => first_accession path'
      | EmptyString => None
      end
  end.

(** [pattern.findall(path)[0]] *)
Definition extract_assembly (path : string) : result string :=
  match first_accession path with
  | Some a => Ok a
  | None => Raise IndexError
  end.

Definition remap_type_label (label : string) : result status :=
  if String.eqb label "representative_to_self" then Ok dereplication_representative
  else if String.eqb label "within_cutoffs_requested" then Ok redundant
  else Raise KeyError.

(** [scaffold_assembly_pairs]: a dict, in insertion order. *)
Definition map_scaffolds (assembly : string)
           (scaffold_assembly_pairs : list (string * string)) : list string :=
  map fst (filter (fun sa => String.eqb (snd sa) assembly) scaffold_assembly_pairs).

(** A record of skDER_Clustering.txt: columns 0, 1 and 4. *)
Record clustering_record : Type := {
  assembly_path : string;
  representative_path : string;
  type_label : string
}.

(** A row of [genome_clusters_df]: index [assembly] and two columns. *)
Record assembly_row : Type := {
  assembly : string;
  assembly_representative : string;
  assembly_status : status
}.

Definition assembly_row_leb (a b : assembly_row) : bool :=
  match String.compare (assembly_representative a) (assembly_representative b) with
  | Lt => true
  | Gt => false
  | Eq => String.leb (status_label (assembly_status a))
                     (status_label (assembly_status b))
  end.

Fixpoint zip3 (a r : list string) (s : list status) : list assembly_row :=
  match a, r, s with
  | x :: a', y :: r', z :: s' =>
      {| assembly := x; assembly_representative := y; assembly_status := z |}
        :: zip3 a' r' s'
  | _, _, _ => []
  end.

(** [pd.read_table(..., converters = ...)]: each converter runs down its
    column, the columns in order; then the rows are sorted. *)
Definition read_clustering (records : list clustering_record)
  : result (list assembly_row) :=
  rbind (rmap extract_assembly (map assembly_path records))
        (fun assemblies =>
  rbind (rmap extract_assembly (map representative_path records))
        (fun representatives =>
  rbind (rmap remap_type_label (map type_label records))
        (fun statuses =>
  Ok (stable_sort assembly_row_leb (zip3 assemblies representatives statuses))))).

Fixpoint has_duplicate (l : list string) : bool :=
  match l with
  | [] => false
  | x :: l' => existsb (String.eqb x) l' || has_duplicate l'
  end.

(** [df.to_dict(orient = 'index')] refuses an index that is not unique. *)
Definition to_dict_index (df : list assembly_row) : result (list assembly_row) :=
  if has_duplicate (map assembly df) then Raise ValueError else Ok df.

(** [genome_clusters[scaffold] = data] on a dict in insertion order. *)
Fixpoint dict_set (d : table) (r : row) : table :=
  match d with
  | [] => [r]
  | x :: d' =>
      if String.eqb (scaffold x) (scaffold r) then r :: d' else x :: dict_set d' r
  end.

Definition expand_assembly (scaffold_assembly_pairs : list (string * string))
           (genome_clusters : table) (a : assembly_row) : table :=
  fold_left (fun d s =>
               dict_set d {| scaffold := s;
                             representative := assembly_representative a;
                             dereplication_status := assembly_status a |})
            (map_scaffolds (assembly a) scaffold_assembly_pairs)
            genome_clusters.

Definition parse_dereplication_clusters (records : list clustering_record)
           (scaffold_assembly_pairs : list (string * string)) : result table :=
  rbind (read_clustering records) (fun genome_clusters_df =>
  rbind (to_dict_index genome_clusters_df) (fun genome_clusters_records =>
  let genome_clusters :=
    fold_left (expand_assembly scaffold_assembly_pairs) genome_clusters_records [] in
  Ok (sort_values genome_clusters))).

(** ** main: steps 6 to 8 *)

Definition main_steps (records : list clustering_record)
           (scaffold_assembly_pairs : list (string * string)) (hits : hits_table)
           (no_revisit_by_content no_revisit_by_score : bool)
           (outlier_z min_score_diff : float) : M (list string) :=
  genome_cluster_composition <-
    lift (parse_dereplication_clusters records scaffold_assembly_pairs) ;;
  updated_status <-
    recover_hits hits genome_cluster_composition no_revisit_by_content
                 no_revisit_by_score outlier_z min_score_diff ;;
  ret (get_dereplicated_scaffolds updated_status).

(** ** split_off_prefix and map_back *)

(** [needle in hay] on strings. *)
Fixpoint occurs_in (needle hay : string) : bool :=
  String.prefix needle hay ||
  match hay with
  | String _ hay' => occurs_in needle hay'
  | EmptyString => false
  end.

(** [s.split(sep)] for a separator of one character. *)
Fixpoint str_split (sep : ascii) (s : string) : list string :=
  match s with
  | EmptyString => [EmptyString]
  | String c s' =>
      if Ascii.eqb c sep then EmptyString :: str_split sep s'
      else
        match str_split sep s' with
        | w :: ws => String c w :: ws
        | [] => [String c EmptyString]
        end
  end.

(** [sep.join(l)] *)
Fixpoint str_join (sep : string) (l : list string) : string :=
  match l with
  | [] => EmptyString
  | x :: l' =>
      match l' with
      | [] => x
      | _ :: _ => x ++ sep ++ str_join sep l'
      end
  end.

Definition split_off_prefix (txt : string) : string :=
  if negb (occurs_in "_" txt) then txt
  else str_join "_" (tl (str_split "_" txt)).

(** [[s for s in scaffolds if no_prefix in s][0]] *)
Definition map_back (no_prefix : string) (scaffolds : list string) : result string :=
  match filter (occurs_in no_prefix) scaffolds with
  | s :: _ => Ok s
  | [] => Raise IndexError
  end.


(** ** map_scaffolds_to_assemblies *)

(** [d[k] = v] on a dict of strings, in insertion order. *)
Fixpoint dict_put (d : list (string * string)) (k v : string)
  : list (string * string) :=
  match d with
  | [] => [(k, v)]
  | (k', v') :: d' =>
      if String.eqb k' k then (k, v) :: d' else (k', v') :: dict_put d' k v
  end.

Section MapScaffolds.
(** What the function reads from outside: the listing of data/genomes, the
    record ids of each fasta file, and the order in which a set hands out
    its elements. *)
Variable listdir : list string.
Variable fasta_ids : string -> list string.
Variable set_order : list string -> list string.

(** [[a for a in os.listdir(GENOMES) if assmbl in a][0]] *)
Definition assembly_file (assmbl : string) : result string :=
  match filter (occurs_in assmbl) listdir with
  | a :: _ => Ok a
  | [] => Raise IndexError
  end.

(** The scaffolds with a cblaster hit found in one fasta file. *)
Definition found_scaffolds (scaffolds : list string) (assmbl_file : string)
  : result (list string) :=
  let scaffolds_set := nodup string_dec (map split_off_prefix scaffolds) in
  let scaffolds_in_this_assembly :=
    map split_off_prefix (fasta_ids assmbl_file) in
  let found_scaffolds_no_prefix :=
    set_order (filter (fun s => existsb (String.eqb s) scaffolds_in_this_assembly)
                      scaffolds_set) in
  rmap (fun s => map_back s scaffolds) found_scaffolds_no_prefix.

(** The body of [for assmbl in assemblies]; both handlers catch IndexError
    only. *)
Definition map_assembly (scaffolds : list string)
           (mappings : list (string * string)) (assmbl : string)
  : result (list (string * string)) :=
  match assembly_file assmbl with
  | Ok assmbl_file =>
      match found_scaffolds scaffolds assmbl_file with
      | Ok found =>
          Ok (fold_left (fun d scaff => dict_put d scaff assmbl) found mappings)
      | Raise IndexError => Ok mappings
      | Raise e => Raise e
      end
  | Raise IndexError => Ok mappings
  | Raise e => Raise e
  end.

Fixpoint map_assemblies (scaffolds assemblies : list string)
         (mappings : list (string * string)) : result (list (string * string)) :=
  match assemblies with
  | [] => Ok mappings
  | assmbl :: rest =>
      rbind (map_assembly scaffolds mappings assmbl)
            (map_assemblies scaffolds rest)
  end.

Definition map_scaffolds_to_assemblies (scaffolds assemblies : list string)
  : result (list (string * string)) :=
  map_assemblies scaffolds assemblies [].
End MapScaffolds.


(** ** download_genomes *)

Definition newline : ascii := "010"%char.

(** [more_itertools.batched(iterable, n)]: tuples of [n] items, the last one
    shorter when the items run out; ValueError when [n < 1], as in the
    releases of the library from 10.0 on and in [itertools.batched].  The
    fuel bounds the number of batches by the number of items. *)
Fixpoint batches {A : Type} (fuel n : nat) (l : list A) : list (list A) :=
  match fuel with
  | O => []
  | S fuel' =>
      match firstn n l with
      | [] => []
      | batch => batch :: batches fuel' n (skipn n l)
      end
  end.

Definition batched {A : Type} (iterable : list A) (n : Z) : result (list (list A)) :=
  if (n <? 1)%Z then Raise ValueError
  else Ok (batches (List.length iterable) (Z.to_nat n) iterable).

(** [acc.split('.')[0]] *)
Definition versionless (acc : string) : string :=
  hd EmptyString (str_split "." acc).

(** The text written to download_batches.txt, one line per batch; the
    download script that reads it is outside. *)
Definition download_genomes (assemblies : list string) (batch_size : Z)
  : result string :=
  let versionless_assemblies := map versionless assemblies in
  rbind (batched versionless_assemblies batch_size) (fun download_batches =>
  Ok (fold_right append EmptyString
        (map (fun batch => str_join " " batch ++ String newline EmptyString)
             download_batches))).

(** ** parse_dereplication_clusters: the cluster sizes *)

(** The table written to genome_cluster_sizes.txt:
    [genome_clusters.groupby(by = "representative")['representative'].count()],
    one line per representative in sorted order. *)
Definition clust_size (genome_clusters : table) : list (string * nat) :=
  map (fun rep =>
         (rep, List.length
                 (filter (fun r => String.eqb (representative r) rep)
                         genome_clusters)))
      (representative_keys genome_clusters).

(** ** write_output *)

(** The two patterns of [write_output], as the regular-expression engine
    reads them: a sequence of one-character classes, each taken once or,
    with a star, as often as possible. *)
Inductive char_class : Type :=
| Lit (c : ascii)
| AnyChar
| Digit.

Inductive atom : Type :=
| One (k : char_class)
| Star (k : char_class).

(** A dot takes any character but a newline, [\d] a digit. *)
Definition accepts (k : char_class) (x : ascii) : bool :=
  match k with
  | Lit c => Ascii.eqb x c
  | AnyChar => negb (Ascii.eqb x newline)
  | Digit => is_digit x
  end.

(** A greedy star: it takes a character more whenever it can, and gives it
    back when what follows fails. *)
Fixpoint star_match {R : Type} (k : char_class) (next : string -> option R)
         (s : string) : option R :=
  match s with
  | String x s' =>
      if accepts k x then
        match star_match k next s' with
        | Some r => Some r
        | None => next s
        end
      else next s
  | EmptyString => next s
  end.

(** The match of a pattern at the start of [s], found by backtracking;
    [next] is what follows the pattern and gets the rest of the text. *)
Fixpoint match_here {R : Type} (p : list atom) (next : string -> option R)
         (s : string) : option R :=
  match p with
  | [] => next s
  | One k :: p' =>
      match s with
      | String x s' => if accepts k x then match_here p' next s' else None
      | EmptyString => None
      end
  | Star k :: p' => star_match k (match_here p' next) s
  end.

(** [re.search]: the match at the first position, from the left, that has
    one. *)
Fixpoint search {R : Type} (match_at : string -> option R) (text : string)
  : option R :=
  match match_at text with
  | Some r => Some r
  | None =>
      match text with
      | String _ text' => search match_at text'
      | EmptyString => None
      end
  end.

(** A scaffold ID put in a pattern: its dots stand for any character, its
    other characters for themselves. *)
Definition id_class (c : ascii) : char_class :=
  if Ascii.eqb c "." then AnyChar else Lit c.

Definition scaffold_pattern (scaffold : string) : list atom :=
  map (fun c => One (id_class c)) (list_ascii_of_string scaffold).

Definition literal (s : string) : list atom :=
  map (fun c => One (Lit c)) (list_ascii_of_string s).

(** The text from the start of [s] up to its end part [rest]. *)
Definition matched (s rest : string) : string :=
  substring 0 (String.length s - String.length rest) s.

(** [re.search] for the first pattern, the scaffold between two starred
    dots, then [.group(0)]; [None] stands for the AttributeError raised when
    nothing matches. *)
Definition cleaned_hit (scaffold file_content : string) : option string :=
  search (fun s =>
            match_here (Star AnyChar :: scaffold_pattern scaffold ++ [Star AnyChar])%list
                       (fun rest => Some (matched s rest)) s)
         file_content.

(** [re.search] for the second pattern, then [.group(2)]: the first group
    is the scaffold, a newline, a run of dashes and a newline, the second is
    the word Cluster, a space and a run of digits. *)
Definition cluster_of (scaffold file_content : string) : option string :=
  search (match_here
            (scaffold_pattern scaffold
             ++ [One (Lit newline); Star (Lit "-"); One (Lit newline)])%list
            (fun group2 =>
               match_here (literal "Cluster " ++ [Star Digit])%list
                          (fun rest => Some (matched group2 rest)) group2))
         file_content.

Fixpoint omap {A B : Type} (f : A -> option B) (l : list A) : option (list B) :=
  match l with
  | [] => Some []
  | x :: l' =>
      match f x with
      | Some y =>
          match omap f l' with
          | Some ys => Some (y :: ys)
          | None => None
          end
      | None => None
      end
  end.

Definition write_lines (lines : list string) : string :=
  fold_right append EmptyString
             (map (fun line => line ++ String newline EmptyString) lines).

(** The text of cleaned_binary.txt. *)
Definition cleaned_binary (dereplicated_scaffolds : list string)
           (file_content : string) : option string :=
  let header :=
    hd EmptyString (str_split newline file_content) ++ String newline EmptyString in
  match omap (fun scaffold => cleaned_hit scaffold file_content)
             dereplicated_scaffolds with
  | Some cleaned_hits => Some (header ++ write_lines cleaned_hits)
  | None => None
  end.

(** The text of clusters.txt. *)
Definition clusters_txt (dereplicated_scaffolds : list string)
           (file_content : string) : option string :=
  match omap (fun scaffold => cluster_of scaffold file_content)
             dereplicated_scaffolds with
  | Some clusters => Some (write_lines clusters)
  | None => None
  end.

(** The files [write_output] leaves: cleaned_binary.txt, then clusters.txt;
    a file is missing when the AttributeError came before it was written. *)
Definition write_output (dereplicated_scaffolds : list string)
           (summary binary : string) : option string * option string :=
  match cleaned_binary dereplicated_scaffolds binary with
  | Some cleaned => (Some cleaned, clusters_txt dereplicated_scaffolds summary)
  | None => (None, None)
  end.

(** ** main: the clean-up at the end *)

Definition GENOMES : string := "data/genomes".
Definition SKDER_OUT : string := "data/skder_out".

(** The directories given to [shutil.rmtree] at the end of [main], in the
    order of the calls. *)
Definition cleanup (keep_intermediate keep_downloads keep_dereplication : bool)
  : list string :=
  if negb keep_intermediate then
    if negb keep_downloads && negb keep_dereplication then ["data"]
    else
      ((if negb keep_downloads then [GENOMES] else [])
       ++ (if negb keep_dereplication then [SKDER_OUT] else []))%list
  else [].

(** * The vocabulary of the properties *)

(** ** Orders *)

(** The order a boolean comparison stands for. *)
Definition le_of {A : Type} (leb : A -> A -> bool) (a b : A) : Prop :=
  leb a b = true.

Definition row_le : row -> row -> Prop := le_of row_leb.

(** The statuses sort as: representative, readded by content, readded by
    score, redundant. *)
Definition status_rank (s : status) : nat :=
  match s with
  | dereplication_representative => 0
  | readded_by_cluster_content => 1
  | readded_by_outlier_score => 2
  | redundant => 3
  end.

(** ** Rows and statuses *)

Definition row_key (r : row) : string * string := (scaffold r, representative r).

Definition kept (r : row) : bool :=
  negb (status_eqb (dereplication_status r) redundant).

Definition base_status (st : status) : Prop :=
  st = dereplication_representative \/ st = redundant.

(** The table handed over by [parse_dereplication_clusters] holds the two
    statuses of skDER only. *)
Definition base_table (t : table) : Prop :=
  Forall (fun r => dereplication_status r = dereplication_representative \/
                   dereplication_status r = redundant) t.

Definition table_ok (d : table) : Prop :=
  NoDup (map scaffold d) /\ base_table d.

Definition readded (st : status) : Prop :=
  st = readded_by_cluster_content \/ st = readded_by_outlier_score.

(** [st'] is [st], or a flag put on a scaffold outside the representative
    assembly. *)
Definition upgrade (st st' : status) : Prop :=
  st' = st \/ (st <> dereplication_representative /\ readded st').

(** [u] has the rows of [t], each with an upgraded status. *)
Definition updates_of (t u : table) : Prop :=
  map row_key u = map row_key t /\
  forall m st, loc_status t m = Ok st ->
               exists st', loc_status u m = Ok st' /\ upgrade st st'.

(** Every scaffold of the status table has its hit in the binary table. *)
Definition covered (hits : hits_table) (t : table) : Prop :=
  forall m, In m (map scaffold t) -> exists h, loc_hit hits m = Ok h.

(** ** Content groups *)

Definition group_labels (cg : hits_table) : list string := map fst cg.

Definition group_scores (cg : hits_table) : list float :=
  map (fun p => Score (snd p)) cg.

(** [cg] is one of the content groups the run goes through. *)
Definition content_group_of (hits : hits_table) (t : table) (cg : hits_table)
  : Prop :=
  exists item hits_this_group,
    In item (genome_groups t) /\
    loc_hits hits (snd item) = Ok hits_this_group /\
    In cg (content_groups hits_this_group).

(** The content groups of a run, in the order they are gone through. *)
Definition run_groups (hits : hits_table) (t : table) : result (list hits_table) :=
  rbind (rmap (fun item => loc_hits hits (snd item)) (genome_groups t))
        (fun hgs => Ok (List.concat (map content_groups hgs))).

Definition all_labels (groups : list hits_table) : list string :=
  List.concat (map group_labels groups).

(** [recover_hits] with content recovery enabled, its content groups gone
    through in the order [groups]. *)
Definition recover_in_order (t : table) (not_by_score : bool)
           (outlier_z min_score_diff : float) (groups : list hits_table) : M table :=
  updated_mapping <-
    for_each (process_content_group t not_by_score outlier_z min_score_diff)
             groups t ;;
  ret (sort_values updated_mapping).

(** The elements of [l] with a given key. *)
Definition keyed {A K : Type} (key_of : A -> K) (eqb : K -> K -> bool)
           (l : list A) (key : K) : list A :=
  filter (fun x => eqb (key_of x) key) l.

(** ** Scores *)

(** Every hit of the binary table has a score: no Score is missing (NaN). *)
Definition numeric (hits : hits_table) : Prop :=
  forall m h, loc_hit hits m = Ok h -> is_nan (Score h) = false.

(** [ms] is the smallest of the most frequent values of [l], NaN apart. *)
Definition smallest_mode (l : list float) (ms : float) : Prop :=
  In ms l /\ is_nan ms = false /\
  forall y, In y l -> is_nan y = false ->
            (value_count y l <= value_count ms l)%nat /\
            (value_count y l = value_count ms l -> (ms <=? y)%float = true).

(** The scores of a group are not all the same. *)
Definition scores_vary (a : list float) : Prop :=
  exists x y, In x a /\ In y a /\ (x =? y)%float = false.

(** The z-score of a member with score [x] in a group with scores [a]. *)
Definition zscore_of (a : list float) (x : float) : float :=
  if isconst a then nan else ((x - np_mean a) / np_std 0 a)%float.

(** The standard deviation with denominator [n]. *)
Definition population_std (a : list float) : float :=
  PrimFloat.sqrt
    (np_sum (map (fun x => ((x - np_mean a) * (x - np_mean a))%float) a)
     / float_of_nat (List.length a))%float.

(** The standard deviation with denominator [n - 1]. *)
Definition sample_std (a : list float) : float :=
  PrimFloat.sqrt
    (np_sum (map (fun x => ((x - np_mean a) * (x - np_mean a))%float) a)
     / float_of_nat (List.length a - 1))%float.

(** The z-score with the sample standard deviation, as the specification
    words it. *)
Definition sample_zscore (a : list float) (x : float) : float :=
  ((x - np_mean a) / sample_std a)%float.

(** ** The two phases of an iteration *)

(** The group takes the score-outlier branch. *)
Definition score_path (not_by_score : bool) (cg : hits_table) : bool :=
  negb (not_by_score || forallb isna (zscore (group_scores cg))).

(** The test [process_content_group] applies to the member [p] of [cg]. *)
Definition member_outlier (outlier_z min_score_diff ms : float) (cg : hits_table)
           (p : string * hit) : bool :=
  is_outlier outlier_z min_score_diff ms
             (zscore_of (group_scores cg) (Score (snd p))) (Score (snd p)).

(** The outliers of a group, as [process_content_group] computes them. *)
Definition group_outliers (outlier_z min_score_diff : float) (cg : hits_table)
  : list string :=
  match mode (group_scores cg) with
  | Some mode_score =>
      outliers_of outlier_z min_score_diff mode_score (group_labels cg)
                  (zscore (group_scores cg)) (group_scores cg)
  | None => []
  end.

(** The members among which the representative of the group is looked
    for, and drawn when there is none. *)
Definition candidates (not_by_score : bool) (outlier_z min_score_diff : float)
           (cg : hits_table) : list string :=
  if score_path not_by_score cg
  then drop_labels (group_labels cg) (group_outliers outlier_z min_score_diff cg)
  else group_labels cg.

(** The loop over the outliers, which draws nothing. *)
Definition mark_outliers (t : table) (l : list string) (u : table) : table :=
  fold_left (fun u o =>
               match loc_status t o with
               | Ok st =>
                   if status_eqb st dereplication_representative then u
                   else set_status u o readded_by_outlier_score
               | Raise _ => u
               end) l u.

(** The table between the two phases of an iteration. *)
Definition marked (t : table) (not_by_score : bool) (outlier_z min_score_diff : float)
           (u : table) (cg : hits_table) : table :=
  if score_path not_by_score cg
  then mark_outliers t (group_outliers outlier_z min_score_diff cg) u
  else u.

(** [m] is an outlier of its content group, outside the representative
    assembly. *)
Definition flagged_outlier (hits : hits_table) (t : table) (not_by_score : bool)
           (outlier_z min_score_diff : float) (m : string) : Prop :=
  exists cg st0,
    content_group_of hits t cg /\
    score_path not_by_score cg = true /\
    In m (group_outliers outlier_z min_score_diff cg) /\
    loc_status t m = Ok st0 /\ st0 <> dereplication_representative.

(** [m] is one of the members among which the representative hit of a
    content group is drawn. *)
Definition drawable (hits : hits_table) (t : table) (not_by_score : bool)
           (outlier_z min_score_diff : float) (m : string) : Prop :=
  exists cg,
    content_group_of hits t cg /\
    In m (candidates not_by_score outlier_z min_score_diff cg) /\
    representative_in t (candidates not_by_score outlier_z min_score_diff cg)
    = Ok false.

(** A second pass over [t1], the table returned for [t0], takes the score
    branch for the content groups it was taken for, and finds the outliers
    that were found.  (The members of a group come in the order of the
    rows of the table; the sums behind the z-scores are rounded, and depend
    on that order.) *)
Definition same_outliers (hits : hits_table) (t0 t1 : table) (not_by_score : bool)
           (outlier_z min_score_diff : float) : Prop :=
  forall cg0 cg1,
    content_group_of hits t0 cg0 -> content_group_of hits t1 cg1 ->
    Permutation cg0 cg1 ->
    score_path not_by_score cg1 = score_path not_by_score cg0 /\
    (score_path not_by_score cg0 = true ->
     forall m, In m (group_outliers outlier_z min_score_diff cg1) <->
               In m (group_outliers outlier_z min_score_diff cg0)).

(** ** The accession pattern *)

Fixpoint string_forallb (p : ascii -> bool) (s : string) : bool :=
  match s with
  | EmptyString => true
  | String c s' => p c && string_forallb p s'
  end.

(** The strings matched by [GC[A|F]_[0-9]{9}\.[1-9]+]. *)
Definition accession_shape (m : string) : Prop :=
  exists c digits version,
    m = String "G" (String "C" (String c (String "_"
          (digits ++ String "." version)))) /\
    is_gc_class c = true /\
    String.length digits = 9%nat /\ string_forallb is_digit digits = true /\
    version <> EmptyString /\ string_forallb is_version_digit version = true.

(** No part of [path] matches the pattern. *)
Definition no_accession (path : string) : Prop :=
  forall pre m post, path = pre ++ m ++ post -> ~ accession_shape m.

(** ** The steps around the recovery *)

Definition substring_of (needle hay : string) : Prop :=
  exists pre post, hay = pre ++ needle ++ post.

(** The scaffold [s] is what map_back returns for the deprefixed ID of a
    record [id] of the fasta file of [a], an ID that a scaffold with a hit
    has too. *)
Definition linked (listdir : list string) (fasta_ids : string -> list string)
           (scaffolds : list string) (s a : string) : Prop :=
  exists file id,
    assembly_file listdir a = Ok file /\ In id (fasta_ids file) /\
    In (split_off_prefix id) (map split_off_prefix scaffolds) /\
    map_back (split_off_prefix id) scaffolds = Ok s.

(** The batches read back from the text of download_batches.txt: its lines,
    without the empty piece after the last newline, cut at the spaces. *)
Definition read_batches (content : string) : list (list string) :=
  map (str_split " ") (removelast (str_split newline content)).

(** Neither a space nor a newline occurs in [s]. *)
Definition one_word (s : string) : Prop :=
  occurs_in " " s = false /\ occurs_in (String newline EmptyString) s = false.

(** [s] does not start with a character of the class [p]. *)
Definition not_starting (p : ascii -> bool) (s : string) : Prop :=
  forall c r, s = String c r -> p c = false.

(** The record [r] of the clustering table puts the assembly [a] in the
    cluster of [rep] with the status [st]. *)
Definition record_of (r : clustering_record) (a rep : string) (st : status)
  : Prop :=
  extract_assembly (assembly_path r) = Ok a /\
  extract_assembly (representative_path r) = Ok rep /\
  remap_type_label (type_label r) = Ok st.

(** One of the two type labels the builder knows. *)
Definition known_label (label : string) : Prop :=
  label = "representative_to_self" \/ label = "within_cutoffs_requested".

(** The text up to the first newline, and the text from it on. *)
Fixpoint first_line (s : string) : string :=
  match s with
  | String x s' =>
      if Ascii.eqb x newline then EmptyString else String x (first_line s')
  | EmptyString => EmptyString
  end.

Fixpoint after_line (s : string) : string :=
  match s with
  | String x s' => if Ascii.eqb x newline then s else after_line s'
  | EmptyString => EmptyString
  end.

(** What is left of [s] after one character of each class of [ks]. *)
Fixpoint take_ones (ks : list char_class) (s : string) : option string :=
  match ks with
  | [] => Some s
  | k :: ks' =>
      match s with
      | String x s' => if accepts k x then take_ones ks' s' else None
      | EmptyString => None
      end
  end.

Definition id_classes (scaffold : string) : list char_class :=
  map id_class (list_ascii_of_string scaffold).

(** The scaffold ID, read as a pattern, matches the text [m]: character by
    character, a dot of the ID against any character but a newline. *)
Definition id_matches (scaffold m : string) : Prop :=
  take_ones (id_classes scaffold) m = Some EmptyString.

(** The line holds a text that the scaffold ID matches. *)
Definition holds_id (scaffold line : string) : Prop :=
  exists pre m post, line = pre ++ m ++ post /\ id_matches scaffold m.

(** The ID matches at the start of [s]; somewhere in [line]. *)
Definition id_at (scaffold s : string) : bool :=
  match take_ones (id_classes scaffold) s with
  | Some _ => true
  | None => false
  end.

Fixpoint id_in (scaffold line : string) : bool :=
  id_at scaffold line ||
  match line with
  | String _ line' => id_in scaffold line'
  | EmptyString => false
  end.

(** The characters with a meaning of their own in a pattern, the dot
    apart, and the newline. *)
Definition is_meta (c : ascii) : bool :=
  existsb (Ascii.eqb c)
          (newline :: list_ascii_of_string "\^$*+?{}[]|()").

(** A scaffold ID whose characters stand for themselves in a pattern, but
    for its dots. *)
Definition plain_id (scaffold : string) : Prop :=
  string_forallb (fun c => negb (is_meta c)) scaffold = true.

(** [s] starts with an entry of the summary for the scaffold: a text that
    the ID matches, a newline, a run of dashes, a newline, and then [c],
    that is the word Cluster, a space and all the digits that follow. *)
Definition cluster_entry (scaffold s c : string) : Prop :=
  exists m dashes digits post,
    s = m ++ String newline (dashes ++ String newline (c ++ post)) /\
    id_matches scaffold m /\
    string_forallb (accepts (Lit "-")) dashes = true /\
    c = "Cluster " ++ digits /\
    string_forallb is_digit digits = true /\
    not_starting is_digit post.

(** [path] is one of the directories removed, or lies under one. *)
Definition removed_by (calls : list string) (path : string) : Prop :=
  exists d, In d calls /\ (path = d \/ String.prefix (d ++ "/") path = true).

(** ** Concrete inputs *)

Definition mk_row (s r : string) (st : status) : row :=
  {| scaffold := s; representative := r; dereplication_status := st |}.

Definition mk_hit (c : list Z) (s : float) : hit :=
  {| content := c; Score := s |}.

(** A generator that always draws 0. *)
Definition zero_rng : rng := {| draws := fun _ => 0%nat; pos := 0 |}.

(** One generator drawing 1 at every call. *)
Definition one_rng : rng := {| draws := fun _ => 1%nat; pos := 0 |}.

(** A generator that draws 0, 1, 2, ... *)
Definition counting_rng : rng := {| draws := fun i => i; pos := 0 |}.

(** Scenario C: the representative R alone in its content group, four other
    hits of the cluster in a second content group with scores 5, 5, 5, 9. *)
Definition scenario_c_table : table :=
  [ mk_row "R" "A1" dereplication_representative;
    mk_row "h1" "A1" redundant; mk_row "h2" "A1" redundant;
    mk_row "h3" "A1" redundant; mk_row "h4" "A1" redundant ].

Definition scenario_c_hits : hits_table :=
  [ ("R", mk_hit [2%Z; 1%Z] 5); ("h1", mk_hit [3%Z; 1%Z] 5);
    ("h2", mk_hit [3%Z; 1%Z] 5); ("h3", mk_hit [3%Z; 1%Z] 5);
    ("h4", mk_hit [3%Z; 1%Z] 9) ].

Definition scenario_c_members : list string := ["h1"; "h2"; "h3"; "h4"].

(** The two content groups of scenario C, in the order of the run. *)
Definition scenario_c_groups : list hits_table :=
  [ [ ("R", mk_hit [2%Z; 1%Z] 5) ];
    [ ("h1", mk_hit [3%Z; 1%Z] 5); ("h2", mk_hit [3%Z; 1%Z] 5);
      ("h3", mk_hit [3%Z; 1%Z] 5); ("h4", mk_hit [3%Z; 1%Z] 9) ] ].

Definition scenario_c_result : table :=
  [ mk_row "R" "A1" dereplication_representative;
    mk_row "h1" "A1" readded_by_cluster_content;
    mk_row "h2" "A1" redundant; mk_row "h3" "A1" redundant;
    mk_row "h4" "A1" redundant ].

Definition scenario_c_result_1 : table :=
  [ mk_row "R" "A1" dereplication_representative;
    mk_row "h2" "A1" readded_by_cluster_content;
    mk_row "h1" "A1" redundant; mk_row "h3" "A1" redundant;
    mk_row "h4" "A1" redundant ].

(** A cluster in one content group: the representative with score 9, five
    redundant hits with score 5. *)
Definition outlier_rep_table : table :=
  [ mk_row "R" "A1" dereplication_representative;
    mk_row "h1" "A1" redundant; mk_row "h2" "A1" redundant;
    mk_row "h3" "A1" redundant; mk_row "h4" "A1" redundant;
    mk_row "h5" "A1" redundant ].

Definition outlier_rep_hits : hits_table :=
  [ ("R", mk_hit [2%Z; 1%Z] 9); ("h1", mk_hit [2%Z; 1%Z] 5);
    ("h2", mk_hit [2%Z; 1%Z] 5); ("h3", mk_hit [2%Z; 1%Z] 5);
    ("h4", mk_hit [2%Z; 1%Z] 5); ("h5", mk_hit [2%Z; 1%Z] 5) ].

(** A cluster in one content group: the representative and four redundant
    hits with score 5, a fifth redundant hit with score 9. *)
Definition outlier_hit_hits : hits_table :=
  [ ("R", mk_hit [2%Z; 1%Z] 5); ("h1", mk_hit [2%Z; 1%Z] 5);
    ("h2", mk_hit [2%Z; 1%Z] 5); ("h3", mk_hit [2%Z; 1%Z] 5);
    ("h4", mk_hit [2%Z; 1%Z] 5); ("h5", mk_hit [2%Z; 1%Z] 9) ].

Definition outlier_hit_result : table :=
  [ mk_row "R" "A1" dereplication_representative;
    mk_row "h5" "A1" readded_by_outlier_score;
    mk_row "h1" "A1" redundant; mk_row "h2" "A1" redundant;
    mk_row "h3" "A1" redundant; mk_row "h4" "A1" redundant ].

(** Scenario C after a first pass that drew h1 and a second that drew h2. *)
Definition scenario_c_result_2 : table :=
  [ mk_row "R" "A1" dereplication_representative;
    mk_row "h1" "A1" readded_by_cluster_content;
    mk_row "h2" "A1" readded_by_cluster_content;
    mk_row "h3" "A1" redundant; mk_row "h4" "A1" redundant ].

(** A cluster whose five redundant hits share a content group, with the
    scores 4.8, 4.8, 4.8, 4.8 and 16.2; the representative is alone in its
    content group. *)
Definition rounding_table : table :=
  [ mk_row "R" "A1" dereplication_representative;
    mk_row "h1" "A1" redundant; mk_row "h2" "A1" redundant;
    mk_row "h3" "A1" redundant; mk_row "h4" "A1" redundant;
    mk_row "h5" "A1" redundant ].

Definition rounding_hits : hits_table :=
  [ ("R", mk_hit [2%Z; 1%Z] 4.8); ("h1", mk_hit [3%Z; 1%Z] 4.8);
    ("h2", mk_hit [3%Z; 1%Z] 4.8); ("h3", mk_hit [3%Z; 1%Z] 4.8);
    ("h4", mk_hit [3%Z; 1%Z] 4.8); ("h5", mk_hit [3%Z; 1%Z] 16.2) ].

(** A cluster in one content group: the representative and three redundant
    hits with score 5, a fourth redundant hit with score 6. *)
Definition threshold_table : table :=
  [ mk_row "R" "A1" dereplication_representative;
    mk_row "h1" "A1" redundant; mk_row "h2" "A1" redundant;
    mk_row "h3" "A1" redundant; mk_row "h4" "A1" redundant ].

Definition threshold_hits : hits_table :=
  [ ("R", mk_hit [2%Z; 1%Z] 5); ("h1", mk_hit [2%Z; 1%Z] 5);
    ("h2", mk_hit [2%Z; 1%Z] 5); ("h3", mk_hit [2%Z; 1%Z] 5);
    ("h4", mk_hit [2%Z; 1%Z] 6) ].

Definition unparseable_record : clustering_record :=
  {| assembly_path := "data/genomes/unknown_assembly.fna.gz";
     representative_path := "data/genomes/GCF_000005845.2_ASM584v2_genomic.fna.gz";
     type_label := "within_cutoffs_requested" |}.

(** Inputs of the steps around the recovery. *)
Definition nl : string := String newline EmptyString.

Definition example_scaffolds : list string := ["NZ_CP012345.1"; "NC_000913.3"].

Definition example_assemblies : list string :=
  ["GCF_000005845.2"; "GCF_000006945.2"].

Definition example_listdir : list string :=
  ["GCF_000005845.2_ASM584v2_genomic.fna.gz"].

Definition example_fasta_ids (file : string) : list string :=
  if String.eqb file "GCF_000005845.2_ASM584v2_genomic.fna.gz"
  then ["NC_000913.3"; "NC_002128.1"]
  else [].

(** A set that hands out its elements in the order they were listed. *)
Definition listed_order (l : list string) : list string := l.

Definition example_records : list clustering_record :=
  [ {| assembly_path := "data/genomes/GCF_000005845.2_ASM584v2_genomic.fna.gz";
       representative_path := "data/genomes/GCF_000005845.2_ASM584v2_genomic.fna.gz";
       type_label := "representative_to_self" |};
    {| assembly_path := "data/genomes/GCF_000006945.2_ASM694v2_genomic.fna.gz";
       representative_path := "data/genomes/GCF_000005845.2_ASM584v2_genomic.fna.gz";
       type_label := "within_cutoffs_requested" |} ].

Definition example_pairs : list (string * string) :=
  [ ("NC_000913.3", "GCF_000005845.2"); ("NC_003197.2", "GCF_000006945.2") ].

Definition example_table : table :=
  [ mk_row "NC_000913.3" "GCF_000005845.2" dereplication_representative;
    mk_row "NC_003197.2" "GCF_000005845.2" redundant ].

Definition example_hits : hits_table :=
  [ ("NC_000913.3", mk_hit [1%Z; 1%Z] 10); ("NC_003197.2", mk_hit [1%Z; 1%Z] 10) ].

Definition example_binary : string :=
  "Organism  Scaffold  Start  End  Score  geneA  geneB" ++ nl
  ++ "Escherichia coli  NC_000913.3  100  2000  10.0  1  1" ++ nl
  ++ "Salmonella enterica  NC_003197.2  300  2300  10.0  1  1" ++ nl.

Definition example_summary : string :=
  "Escherichia coli" ++ nl ++ "================" ++ nl
  ++ "NC_000913.3" ++ nl ++ "-----------" ++ nl
  ++ "Cluster 1" ++ nl ++ "---------" ++ nl.

(** * Properties *)

(** ** The stable sort *)

Section StableSortFacts.
Context {A : Type} (leb : A -> A -> bool).

Hypothesis leb_total : forall a b, leb a b = true \/ leb b a = true.

Lemma insert_sorted_perm (x : A) (l : list A) :
  Permutation (x :: l) (insert_sorted leb x l).
Proof.
  induction l as [|y l IH]; simpl.
  - apply Permutation_refl.
  - destruct (leb x y).
    + apply Permutation_refl.
    + eapply perm_trans; [apply perm_swap|].
      now apply perm_skip.
Qed.

Lemma stable_sort_perm (l : list A) : Permutation l (stable_sort leb l).
Proof.
  induction l as [|x l IH]; simpl.
  - constructor.
  - eapply perm_trans; [|apply insert_sorted_perm].
    now apply perm_skip.
Qed.

Lemma insert_sorted_Sorted (x : A) (l : list A) :
  Sorted (le_of leb) l -> Sorted (le_of leb) (insert_sorted leb x l).
Proof.
  induction 1 as [|y l Hs IH Hhd]; simpl.
  - repeat constructor.
  - destruct (leb x y) eqn:E.
    + constructor; [now constructor|]. now constructor.
    + constructor; [exact IH|].
      destruct l as [|z l]; simpl.
      * constructor. destruct (leb_total x y) as [H|H]; [congruence|exact H].
      * destruct (leb x z).
        -- constructor. destruct (leb_total x y) as [H|H]; [congruence|exact H].
        -- inversion Hhd; subst. now constructor.
Qed.

Lemma stable_sort_Sorted (l : list A) : Sorted (le_of leb) (stable_sort leb l).
Proof.
  induction l as [|x l IH]; simpl.
  - constructor.
  - now apply insert_sorted_Sorted.
Qed.

(** A sorted list is left as it is: rows with equal keys keep their
    order. *)
Lemma stable_sort_id (l : list A) : Sorted (le_of leb) l -> stable_sort leb l = l.
Proof.
  induction 1 as [|x l Hs IH Hhd]; simpl.
  - reflexivity.
  - rewrite IH. destruct Hhd as [|y l' Hxy]; simpl.
    + reflexivity.
    + unfold le_of in Hxy. now rewrite Hxy.
Qed.

Lemma stable_sort_idem (l : list A) :
  stable_sort leb (stable_sort leb l) = stable_sort leb l.
Proof. apply stable_sort_id, stable_sort_Sorted. Qed.

Hypothesis leb_trans :
  forall a b c, leb a b = true -> leb b c = true -> leb a c = true.

Lemma Sorted_filter (p : A -> bool) (l : list A) :
  Sorted (le_of leb) l -> Sorted (le_of leb) (filter p l).
Proof.
  intros Hs. apply Sorted_StronglySorted in Hs.
  - apply StronglySorted_Sorted.
    induction Hs as [|x l Hs IH Hall]; simpl.
    + constructor.
    + destruct (p x).
      * constructor; [exact IH|].
        rewrite Forall_forall in *. intros y Hy.
        apply filter_In in Hy. now apply Hall.
      * exact IH.
  - intros a b c. apply leb_trans.
Qed.
End StableSortFacts.

(** ** The order on rows *)

Lemma ascii_compare_lt_trans (a b c : ascii) :
  Ascii.compare a b = Lt -> Ascii.compare b c = Lt -> Ascii.compare a c = Lt.
Proof.
  unfold Ascii.compare. rewrite !N.compare_lt_iff. apply N.lt_trans.
Qed.

Lemma string_compare_refl (s : string) : String.compare s s = Eq.
Proof.
  induction s as [|c s IH]; simpl.
  - reflexivity.
  - unfold Ascii.compare. now rewrite N.compare_refl.
Qed.

Lemma string_compare_lt_trans (a b c : string) :
  String.compare a b = Lt -> String.compare b c = Lt -> String.compare a c = Lt.
Proof.
  revert b c. induction a as [|x a IH]; intros [|y b] [|z c]; simpl; try congruence.
  destruct (Ascii.compare x y) eqn:Exy; try discriminate.
  - apply Ascii.compare_eq_iff in Exy. subst y.
    destruct (Ascii.compare x z); try congruence. apply IH.
  - intros _. destruct (Ascii.compare y z) eqn:Eyz; try discriminate.
    + apply Ascii.compare_eq_iff in Eyz. subst z. now rewrite Exy.
    + intros _. now rewrite (ascii_compare_lt_trans _ _ _ Exy Eyz).
Qed.

Lemma string_leb_trans (a b c : string) :
  String.leb a b = true -> String.leb b c = true -> String.leb a c = true.
Proof.
  unfold String.leb.
  destruct (String.compare a b) eqn:Eab; try discriminate;
    destruct (String.compare b c) eqn:Ebc; try discriminate; intros _ _.
  - apply String.compare_eq_iff in Eab. subst. now rewrite Ebc.
  - apply String.compare_eq_iff in Eab. subst. now rewrite Ebc.
  - apply String.compare_eq_iff in Ebc. subst. now rewrite Eab.
  - now rewrite (string_compare_lt_trans _ _ _ Eab Ebc).
Qed.

Lemma row_leb_total (a b : row) : row_leb a b = true \/ row_leb b a = true.
Proof.
  unfold row_leb.
  rewrite (String.compare_antisym (representative b) (representative a)).
  destruct (String.compare (representative a) (representative b)); simpl; auto.
  apply String.leb_total.
Qed.

Lemma row_leb_trans (a b c : row) :
  row_leb a b = true -> row_leb b c = true -> row_leb a c = true.
Proof.
  unfold row_leb.
  destruct (String.compare (representative a) (representative b)) eqn:Eab;
    try discriminate;
    destruct (String.compare (representative b) (representative c)) eqn:Ebc;
    try discriminate.
  - apply String.compare_eq_iff in Eab, Ebc. rewrite Eab, Ebc.
    rewrite string_compare_refl. apply string_leb_trans.
  - apply String.compare_eq_iff in Eab. rewrite Eab, Ebc. auto.
  - apply String.compare_eq_iff in Ebc. rewrite <- Ebc, Eab. auto.
  - rewrite (string_compare_lt_trans _ _ _ Eab Ebc). auto.
Qed.

Lemma status_label_leb (a b : status) :
  String.leb (status_label a) (status_label b) = (status_rank a <=? status_rank b)%nat.
Proof. destruct a, b; reflexivity. Qed.

Lemma sort_values_perm (t : table) : Permutation t (sort_values t).
Proof. apply stable_sort_perm. Qed.

Lemma sort_values_Sorted (t : table) : Sorted row_le (sort_values t).
Proof. apply stable_sort_Sorted, row_leb_total. Qed.

Lemma sort_values_id (t : table) : Sorted row_le t -> sort_values t = t.
Proof. apply stable_sort_id. Qed.

(** ** Running the monads *)

Lemma rbind_Ok {A B : Type} (r : result A) (k : A -> result B) (b : B) :
  rbind r k = Ok b -> exists a, r = Ok a /\ k a = Ok b.
Proof. destruct r as [a|e]; simpl; [eauto|discriminate]. Qed.

Lemma rmap_Ok {A B : Type} (f : A -> result B) (l : list A) (ys : list B) :
  rmap f l = Ok ys -> Forall2 (fun x y => f x = Ok y) l ys.
Proof.
  revert ys. induction l as [|x l IH]; simpl; intros ys H.
  - inversion H. constructor.
  - apply rbind_Ok in H as (y & Hy & H).
    apply rbind_Ok in H as (ys' & Hys & H).
    inversion H; subst. constructor; auto.
Qed.

Lemma rmap_total {A B : Type} (f : A -> result B) (l : list A) :
  (forall x, In x l -> exists y, f x = Ok y) -> exists ys, rmap f l = Ok ys.
Proof.
  induction l as [|x l IH]; simpl; intros H.
  - eauto.
  - destruct (H x (or_introl eq_refl)) as (y & Hy). rewrite Hy. simpl.
    destruct IH as (ys & Hys); [intros; apply H; now right|].
    rewrite Hys. simpl. eauto.
Qed.

Lemma bind_Ok {A B : Type} (m : M A) (k : A -> M B) (g g' : rng) (b : B) :
  bind m k g = Ok (b, g') ->
  exists a g1, m g = Ok (a, g1) /\ k a g1 = Ok (b, g').
Proof.
  unfold bind. destruct (m g) as [[a g1]|e]; [eauto|discriminate].
Qed.

Lemma lift_Ok {A : Type} (r : result A) (g g' : rng) (a : A) :
  lift r g = Ok (a, g') -> r = Ok a /\ g' = g.
Proof.
  unfold lift. destruct r; intros H; inversion H; auto.
Qed.

Lemma ret_Ok {A : Type} (a b : A) (g g' : rng) :
  ret a g = Ok (b, g') -> b = a /\ g' = g.
Proof. unfold ret. intros H; inversion H; auto. Qed.

Lemma choice_Ok {A : Type} (seq : list A) (g g' : rng) (x : A) :
  choice seq g = Ok (x, g') -> In x seq.
Proof.
  unfold choice. destruct seq as [|y seq]; [discriminate|].
  intros H.
  assert (Hx : x = nth (draws g (pos g) mod List.length (y :: seq)) (y :: seq) y)
    by congruence.
  rewrite Hx. apply nth_In.
  apply Nat.mod_upper_bound. discriminate.
Qed.

Lemma choice_total {A : Type} (seq : list A) (g : rng) :
  seq <> [] -> exists x g', choice seq g = Ok (x, g').
Proof.
  unfold choice. destruct seq; [congruence|eauto].
Qed.

(** An invariant of every iteration is an invariant of the loop. *)
Lemma for_each_invariant {A S : Type} (body : S -> A -> M S) (I : S -> Prop)
      (l : list A) :
  (forall x acc g acc' g', In x l -> I acc ->
                           body acc x g = Ok (acc', g') -> I acc') ->
  forall acc g acc' g',
    I acc -> for_each body l acc g = Ok (acc', g') -> I acc'.
Proof.
  induction l as [|x l IH]; simpl; intros Hstep acc g acc' g' HI Hrun.
  - apply ret_Ok in Hrun as (-> & _). exact HI.
  - apply bind_Ok in Hrun as (a & g1 & Hbody & Hrest).
    eapply IH; [| |exact Hrest].
    + intros; eapply Hstep; eauto.
    + eapply Hstep; eauto.
Qed.

(** What an iteration establishes for its own element holds after the loop
    for every element, when the later iterations keep it. *)
Lemma for_each_post {A S : Type} (body : S -> A -> M S) (I : S -> Prop)
      (E : A -> S -> Prop) (l : list A) :
  (forall x acc g acc' g', In x l -> I acc ->
                           body acc x g = Ok (acc', g') -> I acc' /\ E x acc') ->
  (forall x y acc g acc' g', In x l -> In y l -> I acc -> E x acc ->
                             body acc y g = Ok (acc', g') -> E x acc') ->
  forall acc g acc' g',
    I acc -> for_each body l acc g = Ok (acc', g') ->
    I acc' /\ forall x, In x l -> E x acc'.
Proof.
  induction l as [|x l IH]; simpl; intros Hest Hkeep acc g acc' g' HI Hrun.
  - apply ret_Ok in Hrun as (-> & _). split; [exact HI|]. intros x [].
  - apply bind_Ok in Hrun as (a & g1 & Hbody & Hrest).
    destruct (Hest x acc g a g1 (or_introl eq_refl) HI Hbody) as (HIa & HEa).
    assert (Hall : forall l', incl l' (x :: l) -> forall acc0 g0 acc1 g2,
               I acc0 -> E x acc0 -> for_each body l' acc0 g0 = Ok (acc1, g2) ->
               E x acc1).
    { clear - Hest Hkeep. induction l' as [|y l' IHl]; simpl;
        intros Hincl acc0 g0 acc1 g2 HI0 HE0 H.
      - apply ret_Ok in H as (-> & _). exact HE0.
      - apply bind_Ok in H as (a & g1 & Hbody & Hrest).
        assert (Hy : In y (x :: l)) by (apply Hincl; now left).
        eapply IHl; [| | |exact Hrest].
        + intros z Hz. apply Hincl. now right.
        + eapply (Hest y); eauto.
        + eapply (Hkeep x y); eauto; now left. }
    destruct (IH (fun y acc0 g2 acc1 g3 Hy => Hest y acc0 g2 acc1 g3 (or_intror Hy))
                 (fun y z acc0 g2 acc1 g3 Hy Hz =>
                    Hkeep y z acc0 g2 acc1 g3 (or_intror Hy) (or_intror Hz))
                 a g1 acc' g' HIa Hrest) as (HI' & HE').
    split; [exact HI'|]. intros y [<-|Hy]; [|now apply HE'].
    eapply (Hall l); [intros z Hz; now right|exact HIa|exact HEa|exact Hrest].
Qed.

(** ** Look-ups and updates of the status table *)

Lemma set_status_keys (t : table) (m : string) (st : status) :
  map row_key (set_status t m st) = map row_key t.
Proof.
  unfold set_status. rewrite map_map. apply map_ext.
  intros r. destruct (String.eqb (scaffold r) m); reflexivity.
Qed.

Lemma keys_scaffolds (t u : table) :
  map row_key u = map row_key t -> map scaffold u = map scaffold t.
Proof.
  intros H. apply (f_equal (map fst)) in H. now rewrite !map_map in H.
Qed.

Lemma loc_status_In (t : table) (m : string) (st : status) :
  loc_status t m = Ok st ->
  exists r, In r t /\ scaffold r = m /\ dereplication_status r = st.
Proof.
  induction t as [|r t IH]; simpl; [discriminate|].
  destruct (String.eqb (scaffold r) m) eqn:E.
  - intros H. inversion H. apply String.eqb_eq in E. eauto.
  - intros H. destruct (IH H) as (r' & Hin & Hr'). eauto.
Qed.

Lemma loc_status_defined (t : table) (m : string) :
  In m (map scaffold t) -> exists st, loc_status t m = Ok st.
Proof.
  induction t as [|r t IH]; simpl; [tauto|].
  destruct (String.eqb (scaffold r) m) eqn:E; [eauto|].
  intros [H|H]; [|auto]. apply String.eqb_neq in E. congruence.
Qed.

Lemma loc_status_scaffold (t : table) (m : string) (st : status) :
  loc_status t m = Ok st -> In m (map scaffold t).
Proof.
  intros H. apply loc_status_In in H as (r & Hin & <- & _). now apply in_map.
Qed.

Lemma In_loc_status (t : table) (r : row) :
  NoDup (map scaffold t) -> In r t ->
  loc_status t (scaffold r) = Ok (dereplication_status r).
Proof.
  induction t as [|x t IH]; simpl; [tauto|].
  intros Hnd [->|Hin].
  - now rewrite String.eqb_refl.
  - inversion Hnd as [|? ? Hx Hnd']; subst.
    destruct (String.eqb (scaffold x) (scaffold r)) eqn:E; [|auto].
    apply String.eqb_eq in E. exfalso. apply Hx. rewrite E. now apply in_map.
Qed.

Lemma loc_status_perm (t t' : table) (m : string) :
  NoDup (map scaffold t) -> Permutation t t' ->
  loc_status t' m = loc_status t m.
Proof.
  intros Hnd Hp.
  assert (Hnd' : NoDup (map scaffold t')).
  { eapply Permutation_NoDup; [|exact Hnd]. now apply Permutation_map. }
  destruct (loc_status t m) as [st|e] eqn:E.
  - apply loc_status_In in E as (r & Hin & <- & <-).
    apply In_loc_status; [exact Hnd'|]. eapply Permutation_in; eauto.
  - destruct (loc_status t' m) as [st'|e'] eqn:E'.
    + apply loc_status_In in E' as (r & Hin & <- & <-).
      rewrite In_loc_status in E; [discriminate|exact Hnd|].
      eapply Permutation_in; [apply Permutation_sym|]; eauto.
    + clear - E E'. f_equal.
      assert (H : forall u, loc_status u m = Raise e -> e = KeyError).
      { clear. induction u as [|r u IH]; simpl; [congruence|].
        destruct (String.eqb (scaffold r) m); [discriminate|auto]. }
      assert (H' : forall u, loc_status u m = Raise e' -> e' = KeyError).
      { clear. induction u as [|r u IH]; simpl; [congruence|].
        destruct (String.eqb (scaffold r) m); [discriminate|auto]. }
      rewrite (H _ E), (H' _ E'). reflexivity.
Qed.

Lemma loc_status_set_same (t : table) (m : string) (st st0 : status) :
  loc_status t m = Ok st0 -> loc_status (set_status t m st) m = Ok st.
Proof.
  induction t as [|r t IH]; simpl; [discriminate|].
  destruct (String.eqb (scaffold r) m) eqn:E; simpl; rewrite E; auto.
Qed.

Lemma loc_status_set_other (t : table) (m m' : string) (st : status) :
  m' <> m -> loc_status (set_status t m st) m' = loc_status t m'.
Proof.
  intros Hne. induction t as [|r t IH]; simpl; [reflexivity|].
  destruct (String.eqb (scaffold r) m) eqn:E; simpl.
  - apply String.eqb_eq in E.
    destruct (String.eqb (scaffold r) m') eqn:E'; [|exact IH].
    apply String.eqb_eq in E'. congruence.
  - now rewrite IH.
Qed.

(** ** The retained scaffolds *)

Lemma status_eqb_eq (a b : status) : status_eqb a b = true <-> a = b.
Proof. destruct a, b; simpl; split; congruence. Qed.

Lemma kept_iff (r : row) : kept r = true <-> dereplication_status r <> redundant.
Proof.
  unfold kept. rewrite negb_true_iff, <- not_true_iff_false, status_eqb_eq.
  tauto.
Qed.

(** ** One content group *)

Section GroupPlan.
Variable t : table.
Variable not_by_score : bool.
Variables outlier_z min_score_diff : float.

Lemma flag_outliers_run (l : list string) (u u' : table) (g g' : rng) :
  for_each (flag_outlier t) l u g = Ok (u', g') ->
  g' = g /\ u' = mark_outliers t l u /\
  Forall (fun o => exists st, loc_status t o = Ok st) l.
Proof.
  revert u g. induction l as [|o l IH]; intros u g H; cbn [for_each] in H.
  - apply ret_Ok in H as (-> & ->). auto.
  - apply bind_Ok in H as (u1 & g1 & Hbody & Hrest).
    unfold flag_outlier in Hbody.
    apply bind_Ok in Hbody as (st & g2 & Hst & Hbody).
    apply lift_Ok in Hst as (Hst & ->).
    destruct (IH _ _ Hrest) as (-> & -> & Hall).
    assert (Hcons : mark_outliers t (o :: l) u
                    = mark_outliers t l
                        (if status_eqb st dereplication_representative then u
                         else set_status u o readded_by_outlier_score)).
    { unfold mark_outliers. simpl. now rewrite Hst. }
    rewrite Hcons.
    destruct (status_eqb st dereplication_representative);
      apply ret_Ok in Hbody as (-> & ->);
      (split; [reflexivity|split; [reflexivity|constructor; eauto]]).
Qed.

Lemma flag_outliers_total (l : list string) (u : table) (g : rng) :
  Forall (fun o => exists st, loc_status t o = Ok st) l ->
  for_each (flag_outlier t) l u g = Ok (mark_outliers t l u, g).
Proof.
  revert u. induction l as [|o l IH]; intros u H; cbn [for_each].
  - reflexivity.
  - inversion H as [|? ? (st & Hst) Hl]; subst.
    assert (Hcons : mark_outliers t (o :: l) u
                    = mark_outliers t l
                        (if status_eqb st dereplication_representative then u
                         else set_status u o readded_by_outlier_score)).
    { unfold mark_outliers. simpl. now rewrite Hst. }
    rewrite Hcons.
    unfold bind, flag_outlier at 1, bind, lift. rewrite Hst.
    destruct (status_eqb st dereplication_representative); simpl;
      now apply IH.
Qed.

Lemma representative_in_spec (members : list string) (b : bool) :
  representative_in t members = Ok b ->
  Forall (fun m => exists st, loc_status t m = Ok st) members /\
  (b = true <->
   exists m, In m members /\ loc_status t m = Ok dereplication_representative).
Proof.
  unfold representative_in. intros H.
  apply rbind_Ok in H as (sts & Hsts & H). inversion H; subst; clear H.
  apply rmap_Ok in Hsts.
  induction Hsts as [|m st members sts Hm Hrest IH]; simpl.
  - split; [constructor|]. split; [discriminate|]. intros (m & [] & _).
  - destruct IH as (Hall & Hiff). split; [constructor; eauto|].
    rewrite orb_true_iff, Hiff. split.
    + intros [H|(m' & Hin & Hm')].
      * exists m. split; [now left|]. rewrite Hm. f_equal.
        symmetry. now apply status_eqb_eq.
      * exists m'. split; [now right|exact Hm'].
    + intros (m' & [<-|Hin] & Hm').
      * left. rewrite Hm in Hm'. inversion Hm'. reflexivity.
      * right. eauto.
Qed.

Lemma representative_in_total (members : list string) :
  Forall (fun m => exists st, loc_status t m = Ok st) members ->
  exists b, representative_in t members = Ok b.
Proof.
  intros H. unfold representative_in.
  destruct (rmap_total (loc_status t) members) as (sts & Hsts).
  - rewrite Forall_forall in H. exact H.
  - rewrite Hsts. simpl. eauto.
Qed.

Lemma flag_content_run (u u' : table) (members : list string) (g g' : rng) :
  flag_content t u members g = Ok (u', g') ->
  (representative_in t members = Ok true /\ u' = u /\ g' = g) \/
  (representative_in t members = Ok false /\
   exists r, choice members g = Ok (r, g') /\
             u' = set_status u r readded_by_cluster_content).
Proof.
  unfold flag_content. intros H.
  apply bind_Ok in H as (b & g1 & Hb & H).
  apply lift_Ok in Hb as (Hb & ->). destruct b.
  - apply ret_Ok in H as (-> & ->). now left.
  - apply bind_Ok in H as (r & g2 & Hr & H).
    apply ret_Ok in H as (-> & ->). right. eauto.
Qed.

(** The two phases of [process_content_group]. *)
Lemma process_content_group_run (u u' : table) (cg : hits_table) (g g' : rng) :
  process_content_group t not_by_score outlier_z min_score_diff u cg g
  = Ok (u', g') ->
  (score_path not_by_score cg = true ->
   Forall (fun o => exists st, loc_status t o = Ok st)
          (group_outliers outlier_z min_score_diff cg)) /\
  flag_content t
    (if score_path not_by_score cg
     then mark_outliers t (group_outliers outlier_z min_score_diff cg) u
     else u)
    (candidates not_by_score outlier_z min_score_diff cg) g = Ok (u', g').
Proof.
  unfold process_content_group, candidates, group_outliers, score_path.
  fold (group_labels cg) (group_scores cg).
  destruct (mode (group_scores cg)) as [ms|]; [|discriminate].
  destruct (not_by_score || forallb isna (zscore (group_scores cg))); simpl.
  - intros H. split; [discriminate|exact H].
  - intros H. apply bind_Ok in H as (u1 & g1 & Hout & H).
    apply flag_outliers_run in Hout as (-> & -> & Hall).
    split; [intros _; exact Hall|exact H].
Qed.
End GroupPlan.

(** ** The whole run *)

Section RunInduction.
Variable hits : hits_table.
Variable t : table.
Variable not_by_score : bool.
Variables outlier_z min_score_diff : float.

Local Abbreviation step :=
  (process_content_group t not_by_score outlier_z min_score_diff).


(** Induction over the two nested loops of [recover_hits]: [I] is kept by
    every content group, [E cg] is set up by the iteration of [cg] and kept
    by all the others. *)
Lemma recover_updates_post (I : table -> Prop) (E : hits_table -> table -> Prop) :
  (forall cg u g u' g',
      content_group_of hits t cg -> I u -> step u cg g = Ok (u', g') ->
      I u' /\ E cg u') ->
  (forall cg cg' u g u' g',
      content_group_of hits t cg -> content_group_of hits t cg' -> I u -> E cg u ->
      step u cg' g = Ok (u', g') -> E cg u') ->
  forall g u g',
    I t ->
    recover_updates hits t false not_by_score outlier_z min_score_diff g
    = Ok (u, g') ->
    I u /\ forall cg, content_group_of hits t cg -> E cg u.
Proof.
  intros Hest Hkeep g u g' HI Hrun. unfold recover_updates in Hrun. simpl in Hrun.
  pose (E' := fun (item : string * list string) (u : table) =>
                forall hg cg, loc_hits hits (snd item) = Ok hg ->
                              In cg (content_groups hg) -> E cg u).
  assert (Houter : I u /\ forall item, In item (genome_groups t) -> E' item u).
  { eapply (for_each_post
              (process_genome_group hits t not_by_score outlier_z min_score_diff)
              I E' (genome_groups t)); [| |exact HI|exact Hrun].
    - intros item acc g0 acc' g0' Hitem HIacc Hbody.
      unfold process_genome_group in Hbody.
      apply bind_Ok in Hbody as (hg & g1 & Hhg & Hbody).
      apply lift_Ok in Hhg as (Hhg & ->).
      assert (Hinner : I acc' /\ forall cg, In cg (content_groups hg) -> E cg acc').
      { eapply (for_each_post step I E (content_groups hg));
          [| |exact HIacc|exact Hbody].
        - intros cg a g2 a' g2' Hcg HIa Hstep.
          eapply Hest; eauto. exists item, hg. auto.
        - intros cg cg' a g2 a' g2' Hcg Hcg' HIa HEa Hstep.
          eapply (Hkeep cg cg'); eauto; exists item, hg; auto. }
      destruct Hinner as (HI' & HE').
      split; [exact HI'|]. intros hg' cg Hhg' Hcg.
      rewrite Hhg in Hhg'. inversion Hhg'; subst. now apply HE'.
    - intros x y acc g0 acc' g0' Hx Hy HIacc HEx Hbody.
      unfold process_genome_group in Hbody.
      apply bind_Ok in Hbody as (hg & g1 & Hhg & Hbody).
      apply lift_Ok in Hhg as (Hhg & ->).
      intros hgx cg Hhgx Hcg.
      assert (HJ : I acc' /\ E cg acc').
      { eapply (for_each_invariant step (fun a => I a /\ E cg a) (content_groups hg));
          [| |exact Hbody].
        - intros cg' a g2 a' g2' Hcg' (HIa & HEa) Hstep. split.
          + eapply Hest; eauto. exists y, hg. auto.
          + eapply (Hkeep cg cg'); eauto; [exists x, hgx|exists y, hg]; auto.
        - split; [exact HIacc|]. eapply HEx; eauto. }
      apply HJ. }
  destruct Houter as (HIu & HEu). split; [exact HIu|].
  intros cg (item & hg & Hitem & Hhg & Hcg). eapply HEu; eauto.
Qed.

Lemma recover_updates_invariant (I : table -> Prop) :
  (forall cg u g u' g',
      content_group_of hits t cg -> I u -> step u cg g = Ok (u', g') -> I u') ->
  forall g u g',
    I t ->
    recover_updates hits t false not_by_score outlier_z min_score_diff g
    = Ok (u, g') ->
    I u.
Proof.
  intros Hstep g u g' HI Hrun.
  apply (recover_updates_post I (fun _ _ => True)) in Hrun; auto.
  - tauto.
  - intros; split; [eapply Hstep; eauto|exact Logic.I].
Qed.
End RunInduction.

(** ** Statuses only move upwards *)

Lemma updates_of_refl (t : table) : updates_of t t.
Proof.
  split; [reflexivity|]. intros m st H. exists st. split; [exact H|now left].
Qed.

Lemma set_status_updates (t u : table) (m : string) (st0 st : status) :
  updates_of t u -> loc_status t m = Ok st0 ->
  st0 <> dereplication_representative -> readded st ->
  updates_of t (set_status u m st).
Proof.
  intros (Hk & Hu) Hm Hst0 Hst. split.
  - now rewrite set_status_keys.
  - intros m' st' Hm'. destruct (string_dec m' m) as [->|Hne].
    + destruct (Hu _ _ Hm) as (st1 & Hst1 & _).
      exists st. split; [eapply loc_status_set_same; eauto|].
      right. split; [congruence|exact Hst].
    + rewrite loc_status_set_other by exact Hne. now apply Hu.
Qed.

Lemma mark_outliers_updates (t u : table) (l : list string) :
  updates_of t u -> updates_of t (mark_outliers t l u).
Proof.
  revert u. unfold mark_outliers.
  induction l as [|o l IH]; simpl; intros u Hu; [exact Hu|].
  apply IH. destruct (loc_status t o) as [st|e] eqn:E; [|exact Hu].
  destruct (status_eqb st dereplication_representative) eqn:Est; [exact Hu|].
  eapply set_status_updates; eauto.
  - intros ->. discriminate.
  - now right.
Qed.

Lemma representative_in_false (t : table) (members : list string) (r : string) :
  representative_in t members = Ok false -> In r members ->
  exists st, loc_status t r = Ok st /\ st <> dereplication_representative.
Proof.
  intros H Hin. apply representative_in_spec in H as (Hall & Hiff).
  rewrite Forall_forall in Hall. destruct (Hall r Hin) as (st & Hst).
  exists st. split; [exact Hst|]. intros ->.
  assert (false = true); [|discriminate]. apply Hiff. eauto.
Qed.

Lemma process_content_group_updates (t : table) nbs oz msd (u u' : table)
      (cg : hits_table) (g g' : rng) :
  process_content_group t nbs oz msd u cg g = Ok (u', g') ->
  updates_of t u -> updates_of t u'.
Proof.
  intros Hrun Hu.
  apply process_content_group_run in Hrun as (_ & Hrun).
  assert (Hu1 : updates_of t (if score_path nbs cg
                              then mark_outliers t (group_outliers oz msd cg) u
                              else u)).
  { destruct (score_path nbs cg); [now apply mark_outliers_updates|exact Hu]. }
  apply flag_content_run in Hrun as [(_ & -> & _)|(Hrep & r & Hr & ->)];
    [exact Hu1|].
  apply choice_Ok in Hr.
  destruct (representative_in_false _ _ _ Hrep Hr) as (st & Hst & Hne).
  eapply set_status_updates; eauto. now left.
Qed.

Lemma recover_updates_updates (hits : hits_table) (t : table) nbc nbs oz msd
      (g g' : rng) (u : table) :
  recover_updates hits t nbc nbs oz msd g = Ok (u, g') -> updates_of t u.
Proof.
  destruct nbc.
  - unfold recover_updates. simpl. intros H. apply ret_Ok in H as (-> & _).
    apply updates_of_refl.
  - intros H. eapply recover_updates_invariant; [|apply updates_of_refl|exact H].
    intros cg a g1 a' g1' _ Ha Hstep.
    eapply process_content_group_updates; eauto.
Qed.

Lemma recover_hits_run (hits : hits_table) (t : table) nbc nbs oz msd
      (g g' : rng) (t' : table) :
  recover_hits hits t nbc nbs oz msd g = Ok (t', g') ->
  exists u, recover_updates hits t nbc nbs oz msd g = Ok (u, g') /\
            t' = sort_values u.
Proof.
  unfold recover_hits. intros H.
  apply bind_Ok in H as (u & g1 & Hu & H). apply ret_Ok in H as (-> & ->).
  eauto.
Qed.

(** The statuses of the returned table, read through the sort. *)
Lemma recover_hits_updates (hits : hits_table) (t : table) nbc nbs oz msd
      (g g' : rng) (t' : table) :
  NoDup (map scaffold t) ->
  recover_hits hits t nbc nbs oz msd g = Ok (t', g') ->
  Permutation (map row_key t) (map row_key t') /\
  NoDup (map scaffold t') /\
  forall m st, loc_status t m = Ok st ->
               exists st', loc_status t' m = Ok st' /\ upgrade st st'.
Proof.
  intros Hnd H. apply recover_hits_run in H as (u & Hu & ->).
  apply recover_updates_updates in Hu as (Hk & Hu).
  assert (Hndu : NoDup (map scaffold u)).
  { now rewrite (keys_scaffolds _ _ Hk). }
  split; [|split].
  - rewrite <- Hk. apply Permutation_map, sort_values_perm.
  - eapply Permutation_NoDup; [|exact Hndu].
    apply Permutation_map, sort_values_perm.
  - intros m st Hm. destruct (Hu _ _ Hm) as (st' & Hst' & Hup).
    exists st'. split; [|exact Hup].
    rewrite (loc_status_perm _ _ m Hndu (sort_values_perm u)). exact Hst'.
Qed.

Lemma base_table_status (t : table) (m : string) (st : status) :
  base_table t -> loc_status t m = Ok st ->
  st = dereplication_representative \/ st = redundant.
Proof.
  intros Hb H. apply loc_status_In in H as (r & Hin & _ & <-).
  unfold base_table in Hb. rewrite Forall_forall in Hb. now apply Hb.
Qed.

(** C2. Recovery only adds: the returned table has the rows of the input
    table; a hit that was not redundant is not redundant afterwards, a
    representative keeps its status, and a status that changed is now
    readded_by_cluster_content or readded_by_outlier_score, on a hit that was
    redundant in the table built by parse_dereplication_clusters. *)
Theorem recover_hits_monotonic (hits : hits_table) (t : table)
        (not_by_content not_by_score : bool) (outlier_z min_score_diff : float)
        (g g' : rng) (t' : table) :
  NoDup (map scaffold t) ->
  recover_hits hits t not_by_content not_by_score outlier_z min_score_diff g
  = Ok (t', g') ->
  Permutation (map row_key t) (map row_key t') /\
  incl (get_dereplicated_scaffolds t) (get_dereplicated_scaffolds t') /\
  forall m st,
    loc_status t m = Ok st ->
    exists st',
      loc_status t' m = Ok st' /\
      (st <> redundant -> st' <> redundant) /\
      (st = dereplication_representative -> st' = dereplication_representative) /\
      (st' <> st -> readded st' /\ (base_table t -> st = redundant)).
Proof.
  intros Hnd Hrun.
  destruct (recover_hits_updates _ _ _ _ _ _ _ _ _ Hnd Hrun) as (Hperm & Hnd' & Hup).
  assert (Hall : forall m st,
             loc_status t m = Ok st ->
             exists st',
               loc_status t' m = Ok st' /\
               (st <> redundant -> st' <> redundant) /\
               (st = dereplication_representative ->
                st' = dereplication_representative) /\
               (st' <> st -> readded st' /\ (base_table t -> st = redundant))).
  { intros m st Hm. destruct (Hup _ _ Hm) as (st' & Hst' & [->|(Hne & Hre)]).
    - exists st. repeat split; auto; congruence.
    - exists st'. split; [exact Hst'|]. repeat split.
      + intros _. destruct Hre as [->| ->]; discriminate.
      + congruence.
      + exact Hre.
      + intros Hb. destruct (base_table_status _ _ _ Hb Hm); congruence. }
  split; [exact Hperm|]. split; [|exact Hall].
  intros m Hm. unfold get_dereplicated_scaffolds in *.
  apply in_map_iff in Hm as (r & <- & Hr). apply filter_In in Hr as (Hr & Hkept).
  fold (kept r) in Hkept. apply kept_iff in Hkept.
  destruct (Hall _ _ (In_loc_status t r Hnd Hr)) as (st' & Hst' & Hkeep & _).
  apply loc_status_In in Hst' as (r' & Hr' & Hs & <-).
  apply in_map_iff. exists r'. split; [exact Hs|].
  apply filter_In. split; [exact Hr'|]. fold (kept r'). apply kept_iff. auto.
Qed.

(** ** The groups of a run *)

Lemma in_stable_sort {A : Type} (leb : A -> A -> bool) (x : A) (l : list A) :
  In x (stable_sort leb l) <-> In x l.
Proof.
  split; intros H.
  - eapply Permutation_in; [apply Permutation_sym, stable_sort_perm|exact H].
  - eapply Permutation_in; [apply stable_sort_perm|exact H].
Qed.

Lemma genome_groups_item (t : table) (item : string * list string) :
  In item (genome_groups t) ->
  In (fst item) (map representative t) /\
  snd item
  = map scaffold (filter (fun r => String.eqb (representative r) (fst item)) t).
Proof.
  unfold genome_groups, representative_keys. intros H.
  apply in_map_iff in H as (rep & <- & Hrep). simpl.
  apply in_stable_sort, nodup_In in Hrep. auto.
Qed.

Lemma in_genome_groups (t : table) (rep : string) :
  In rep (map representative t) ->
  In (rep, map scaffold (filter (fun r => String.eqb (representative r) rep) t))
     (genome_groups t).
Proof.
  intros H. unfold genome_groups, representative_keys.
  apply in_map_iff. exists rep. split; [reflexivity|].
  now apply in_stable_sort, nodup_In.
Qed.

Lemma NoDup_map_filter {Row Key : Type} (key : Row -> Key) (keep : Row -> bool)
      (rows : list Row) (Hnd : NoDup (map key rows)) :
  NoDup (map key (filter keep rows)).
Proof.
  induction rows as [|x rows IH]; simpl; [constructor|].
  simpl in Hnd. apply NoDup_cons_iff in Hnd as (Hx & Hrows).
  destruct (keep x); simpl; [|auto].
  apply NoDup_cons; [|auto]. intros Hin. apply Hx.
  apply in_map_iff in Hin as (y & Hy & Hin). apply filter_In in Hin as (Hin & _).
  rewrite <- Hy. now apply in_map.
Qed.

Lemma genome_group_members (t : table) (item : string * list string) (m : string) :
  In item (genome_groups t) -> In m (snd item) ->
  exists r, In r t /\ scaffold r = m /\ representative r = fst item.
Proof.
  intros Hitem Hm. apply genome_groups_item in Hitem as (_ & Heq).
  rewrite Heq in Hm. apply in_map_iff in Hm as (r & <- & Hr).
  apply filter_In in Hr as (Hr & E). apply String.eqb_eq in E. eauto.
Qed.

Lemma genome_group_NoDup (t : table) (item : string * list string) :
  NoDup (map scaffold t) -> In item (genome_groups t) -> NoDup (snd item).
Proof.
  intros Hnd Hitem. apply genome_groups_item in Hitem as (_ & ->).
  now apply NoDup_map_filter.
Qed.

Lemma loc_hits_labels (hits : hits_table) (group : list string) (hg : hits_table) :
  loc_hits hits group = Ok hg -> map fst hg = group.
Proof.
  unfold loc_hits. intros H. apply rmap_Ok in H.
  induction H as [|m0 p0 l0 l1 Hm Hrest IH]; simpl; [reflexivity|].
  apply rbind_Ok in Hm as (h & _ & Hm). inversion Hm. simpl.
  now rewrite IH.
Qed.

Lemma loc_hits_member (hits : hits_table) (group : list string) (hg : hits_table)
      (m : string) (h : hit) :
  loc_hits hits group = Ok hg -> In (m, h) hg -> loc_hit hits m = Ok h.
Proof.
  unfold loc_hits. intros H. apply rmap_Ok in H.
  induction H as [|m0 p0 l0 l1 Hm Hrest IH]; simpl; [tauto|].
  intros [->|Hin]; [|auto].
  apply rbind_Ok in Hm as (h' & Hh' & Hm). inversion Hm; subst. exact Hh'.
Qed.

Lemma content_eqb_eq (a b : list Z) : content_eqb a b = true <-> a = b.
Proof.
  unfold content_eqb. destruct (content_dec a b); split; congruence.
Qed.

Lemma content_groups_item (hg cg : hits_table) :
  In cg (content_groups hg) ->
  exists key, In key (map (fun p => content (snd p)) hg) /\
              cg = filter (fun p => content_eqb (content (snd p)) key) hg.
Proof.
  unfold content_groups, content_keys. intros H.
  apply in_map_iff in H as (key & <- & Hkey).
  apply in_stable_sort, nodup_In in Hkey. eauto.
Qed.

Lemma in_content_groups (hg : hits_table) (key : list Z) :
  In key (map (fun p => content (snd p)) hg) ->
  In (filter (fun p => content_eqb (content (snd p)) key) hg) (content_groups hg).
Proof.
  intros H. unfold content_groups, content_keys.
  apply in_map_iff. exists key. split; [reflexivity|].
  now apply in_stable_sort, nodup_In.
Qed.

Lemma content_group_nonempty (hg cg : hits_table) :
  In cg (content_groups hg) -> cg <> [].
Proof.
  intros H. apply content_groups_item in H as (key & Hkey & ->).
  apply in_map_iff in Hkey as (p & Hp & Hin).
  intros Hnil.
  assert (Hp' : In p (filter (fun p => content_eqb (content (snd p)) key) hg)).
  { apply filter_In. split; [exact Hin|]. now apply content_eqb_eq. }
  rewrite Hnil in Hp'. destruct Hp'.
Qed.

Section GroupFacts.
Variable hits : hits_table.
Variable t : table.
Hypothesis t_unique : NoDup (map scaffold t).

Lemma content_group_labels (cg : hits_table) :
  content_group_of hits t cg ->
  cg <> [] /\ NoDup (group_labels cg) /\
  incl (group_labels cg) (map scaffold t).
Proof.
  intros (item & hg & Hitem & Hhg & Hcg).
  split; [eapply content_group_nonempty; eauto|].
  pose proof (loc_hits_labels _ _ _ Hhg) as Hlab.
  pose proof (genome_group_NoDup _ _ t_unique Hitem) as Hnd.
  apply content_groups_item in Hcg as (key & _ & ->).
  unfold group_labels. split.
  - apply NoDup_map_filter. now rewrite Hlab.
  - intros m Hm. apply in_map_iff in Hm as (p & <- & Hp).
    apply filter_In in Hp as (Hp & _).
    assert (Hin : In (fst p) (snd item)).
    { rewrite <- Hlab. now apply in_map. }
    destruct (genome_group_members _ _ _ Hitem Hin) as (r & Hr & <- & _).
    now apply in_map.
Qed.

Lemma content_group_loc_status (cg : hits_table) (l : list string) :
  content_group_of hits t cg -> incl l (group_labels cg) ->
  Forall (fun m => exists st, loc_status t m = Ok st) l.
Proof.
  intros Hcg Hl. apply content_group_labels in Hcg as (_ & _ & Hincl).
  apply Forall_forall. intros m Hm. apply loc_status_defined. auto.
Qed.

(** A scaffold lies in one content group only. *)
Lemma content_group_unique (cg1 cg2 : hits_table) (m : string) :
  content_group_of hits t cg1 -> content_group_of hits t cg2 ->
  In m (group_labels cg1) -> In m (group_labels cg2) -> cg1 = cg2.
Proof.
  intros (item1 & hg1 & Hitem1 & Hhg1 & Hcg1) (item2 & hg2 & Hitem2 & Hhg2 & Hcg2)
         Hm1 Hm2.
  pose proof (loc_hits_labels _ _ _ Hhg1) as Hlab1.
  pose proof (loc_hits_labels _ _ _ Hhg2) as Hlab2.
  apply content_groups_item in Hcg1 as (key1 & _ & ->).
  apply content_groups_item in Hcg2 as (key2 & _ & ->).
  apply in_map_iff in Hm1 as ([m1 h1] & Hfst1 & Hp1).
  apply in_map_iff in Hm2 as ([m2 h2] & Hfst2 & Hp2).
  simpl in Hfst1, Hfst2. subst m1 m2.
  apply filter_In in Hp1 as (Hp1 & Hk1). apply filter_In in Hp2 as (Hp2 & Hk2).
  simpl in Hk1, Hk2. apply content_eqb_eq in Hk1, Hk2.
  assert (Hin1 : In m (snd item1)).
  { rewrite <- Hlab1. apply in_map_iff. exists (m, h1). auto. }
  assert (Hin2 : In m (snd item2)).
  { rewrite <- Hlab2. apply in_map_iff. exists (m, h2). auto. }
  destruct (genome_group_members _ _ _ Hitem1 Hin1) as (r1 & Hr1 & Hs1 & Hrep1).
  destruct (genome_group_members _ _ _ Hitem2 Hin2) as (r2 & Hr2 & Hs2 & Hrep2).
  assert (Hr : r1 = r2).
  { clear - t_unique Hr1 Hr2 Hs1 Hs2. rewrite <- Hs2 in Hs1. clear Hs2.
    induction t as [|x t' IH]; simpl in *; [tauto|].
    inversion t_unique as [|? ? Hx Hnd]; subst.
    destruct Hr1 as [->|Hr1], Hr2 as [->|Hr2]; auto.
    - exfalso. apply Hx. rewrite Hs1. now apply in_map.
    - exfalso. apply Hx. rewrite <- Hs1. now apply in_map. }
  subst r2.
  assert (Hitem : item1 = item2).
  { destruct (genome_groups_item _ _ Hitem1) as (_ & He1).
    destruct (genome_groups_item _ _ Hitem2) as (_ & He2).
    destruct item1 as [rep1 l1], item2 as [rep2 l2].
    simpl in He1, He2, Hrep1, Hrep2.
    rewrite He1, He2, <- Hrep1, <- Hrep2. reflexivity. }
  subst item2. rewrite Hhg1 in Hhg2. inversion Hhg2; subst hg2.
  assert (Hh : h1 = h2).
  { pose proof (loc_hits_member _ _ _ _ _ Hhg1 Hp1) as H1.
    pose proof (loc_hits_member _ _ _ _ _ Hhg1 Hp2) as H2.
    congruence. }
  rewrite <- Hk1, <- Hk2, Hh. reflexivity.
Qed.
End GroupFacts.

(** ** Comparison of float64 values *)

(** The comparison of the specification is a lexicographic one. *)

Ltac fold_pos_compare :=
  repeat match goal with
         | |- context [Pos.compare_cont Eq ?a ?b] =>
             change (Pos.compare_cont Eq a b) with (Pos.compare a b)
         | H : context [Pos.compare_cont Eq ?a ?b] |- _ =>
             change (Pos.compare_cont Eq a b) with (Pos.compare a b) in H
         end.

Lemma SFcompare_refl (x : spec_float) :
  x <> S754_nan -> SFcompare x x = Some Eq.
Proof.
  destruct x as [s|s| |s m e]; simpl; intros H; try congruence.
  - now destruct s.
  - fold_pos_compare. rewrite Z.compare_refl, Pos.compare_refl. now destruct s.
Qed.

Lemma SFcompare_None (x y : spec_float) :
  SFcompare x y = None <-> x = S754_nan \/ y = S754_nan.
Proof.
  destruct x as [sx|sx| |sx mx ex], y as [sy|sy| |sy my ey]; simpl;
    split; intros H; try discriminate; auto;
    destruct H as [H|H]; discriminate.
Qed.

Lemma SFcompare_antisym (x y : spec_float) :
  SFcompare y x = option_map CompOpp (SFcompare x y).
Proof.
  destruct x as [sx|sx| |sx mx ex], y as [sy|sy| |sy my ey]; simpl;
    try reflexivity; try (now destruct sx); try (now destruct sy);
    try (now destruct sx, sy).
  fold_pos_compare. rewrite (Z.compare_antisym ex ey), (Pos.compare_antisym mx my).
  destruct sx, sy; try reflexivity;
    destruct (ex ?= ey)%Z; simpl; try reflexivity;
    destruct (mx ?= my)%positive; reflexivity.
Qed.

Lemma SFcompare_Eq_trans (x y z : spec_float) :
  SFcompare x y = Some Eq -> SFcompare y z = SFcompare x z.
Proof.
  destruct x as [sx|sx| |sx mx ex], y as [sy|sy| |sy my ey]; simpl;
    try discriminate; try (destruct sx; discriminate);
    try (destruct sy; discriminate); intros H.
  - destruct z; reflexivity.
  - destruct sx, sy; try discriminate; destruct z; reflexivity.
  - fold_pos_compare.
    assert (E : sx = sy /\ ex = ey /\ mx = my).
    { destruct sx, sy; try discriminate;
        destruct (Z.compare_spec ex ey); try discriminate;
        destruct (Pos.compare_spec mx my); try discriminate; auto. }
    destruct E as (-> & -> & ->). reflexivity.
Qed.

Lemma SFcompare_Lt_trans (x y z : spec_float) :
  SFcompare x y = Some Lt -> SFcompare y z = Some Lt -> SFcompare x z = Some Lt.
Proof.
  destruct x as [sx|sx| |sx mx ex], y as [sy|sy| |sy my ey],
           z as [sz|sz| |sz mz ez]; simpl;
    try discriminate; try reflexivity;
    try (destruct sx; try discriminate; try reflexivity; fail);
    try (destruct sy; try discriminate; try reflexivity; fail);
    try (destruct sz; try discriminate; try reflexivity; fail);
    try (destruct sx, sy; try discriminate; try reflexivity; fail);
    try (destruct sy, sz; try discriminate; try reflexivity; fail);
    try (destruct sx, sz; try discriminate; try reflexivity; fail);
    try (destruct sx, sy, sz; try discriminate; try reflexivity; fail).
  fold_pos_compare.
  destruct sx, sy, sz; try discriminate; try reflexivity;
    destruct (Z.compare_spec ex ey), (Z.compare_spec ey ez), (Z.compare_spec ex ez);
    try discriminate; try reflexivity; try lia; subst;
    destruct (Pos.compare_spec mx my), (Pos.compare_spec my mz),
             (Pos.compare_spec mx mz);
    cbn [CompOpp]; try discriminate; try reflexivity; try lia.
Qed.

(** ** Float64 values through their specification *)

Lemma Prim2SF_nan : Prim2SF nan = S754_nan.
Proof. reflexivity. Qed.

Lemma is_nan_spec (x : float) : is_nan x = true <-> Prim2SF x = S754_nan.
Proof.
  unfold is_nan. rewrite eqb_spec. unfold SFeqb.
  destruct (Prim2SF x) as [s|s| |s m e] eqn:E; split; intros H;
    try discriminate; try reflexivity;
    now rewrite SFcompare_refl in H.
Qed.

Lemma is_nan_false (x : float) : is_nan x = false <-> Prim2SF x <> S754_nan.
Proof.
  rewrite <- is_nan_spec. destruct (is_nan x); split; congruence.
Qed.

Lemma is_nan_eq (x : float) : is_nan x = true -> x = nan.
Proof.
  intros H. apply Prim2SF_inj. rewrite Prim2SF_nan. now apply is_nan_spec.
Qed.

Lemma float_eqb_refl (x : float) : is_nan x = false -> (x =? x)%float = true.
Proof. unfold is_nan. now rewrite negb_false_iff. Qed.

Lemma leb_refl (x : float) : is_nan x = false -> (x <=? x)%float = true.
Proof.
  intros H. apply is_nan_false in H. rewrite leb_spec. unfold SFleb.
  now rewrite SFcompare_refl.
Qed.

Lemma ltb_false_leb (x y : float) :
  is_nan x = false -> is_nan y = false ->
  (x <? y)%float = false -> (y <=? x)%float = true.
Proof.
  intros Hx Hy. apply is_nan_false in Hx, Hy.
  rewrite ltb_spec, leb_spec. unfold SFltb, SFleb.
  rewrite (SFcompare_antisym (Prim2SF x) (Prim2SF y)).
  destruct (SFcompare (Prim2SF x) (Prim2SF y)) as [[| |]|] eqn:E;
    simpl; try congruence.
  apply SFcompare_None in E. tauto.
Qed.

Lemma ltb_leb_trans (x y z : float) :
  (x <? y)%float = true -> (y <=? z)%float = true -> (x <=? z)%float = true.
Proof.
  rewrite ltb_spec, !leb_spec. unfold SFltb, SFleb. intros Hxy Hyz.
  destruct (SFcompare (Prim2SF x) (Prim2SF y)) as [[| |]|] eqn:Exy;
    try discriminate.
  destruct (SFcompare (Prim2SF y) (Prim2SF z)) as [[| |]|] eqn:Eyz;
    try discriminate.
  - rewrite (SFcompare_antisym (Prim2SF y) (Prim2SF x)) in Exy.
    destruct (SFcompare (Prim2SF y) (Prim2SF x)) as [[| |]|] eqn:Eyx;
      try discriminate.
    assert (Ezy : SFcompare (Prim2SF z) (Prim2SF y) = Some Eq).
    { rewrite (SFcompare_antisym (Prim2SF y) (Prim2SF z)), Eyz. reflexivity. }
    rewrite (SFcompare_Eq_trans _ _ _ Ezy) in Eyx.
    rewrite (SFcompare_antisym (Prim2SF z) (Prim2SF x)), Eyx. reflexivity.
  - now rewrite (SFcompare_Lt_trans _ _ _ Exy Eyz).
Qed.

(** The difference of two equal values is a zero, or not a number when
    they are infinite. *)
Lemma SFcompare_Eq_sub (x y : spec_float) :
  SFcompare x y = Some Eq ->
  SF64sub x y = S754_zero false \/ SF64sub x y = S754_zero true \/
  SF64sub x y = S754_nan.
Proof.
  destruct x as [sx|sx| |sx mx ex], y as [sy|sy| |sy my ey]; simpl;
    try discriminate; try (destruct sx; discriminate);
    try (destruct sy; discriminate); intros H.
  - destruct sx, sy; auto.
  - destruct sx, sy; try discriminate; auto.
  - fold_pos_compare.
    assert (E : sx = sy /\ ex = ey /\ mx = my).
    { destruct sx, sy; try discriminate;
        destruct (Z.compare_spec ex ey); try discriminate;
        destruct (Pos.compare_spec mx my); try discriminate; auto. }
    destruct E as (-> & -> & ->). left.
    unfold SF64sub, SFsub. now rewrite Z.sub_diag.
Qed.

Lemma eqb_sub_small (x y d : float) :
  (x =? y)%float = true -> (0 <? d)%float = true ->
  (d <=? abs (x - y))%float = false.
Proof.
  rewrite eqb_spec, ltb_spec, leb_spec, abs_spec, sub_spec.
  unfold SFeqb, SFltb, SFleb. intros Heq Hd.
  destruct (SFcompare (Prim2SF x) (Prim2SF y)) as [[| |]|] eqn:E;
    try discriminate.
  change (Prim2SF 0) with (S754_zero false) in Hd.
  destruct (SFcompare_Eq_sub _ _ E) as [-> |[-> | ->]]; simpl;
    destruct (Prim2SF d) as [s|s| |s m e]; simpl in *;
    try discriminate; try reflexivity; destruct s; try discriminate; reflexivity.
Qed.

Lemma eqb_sub_zero (x y : float) :
  (x =? y)%float = true -> is_finite x = true ->
  (abs (x - y) =? 0)%float = true.
Proof.
  unfold is_finite, is_infinity, is_nan.
  rewrite !eqb_spec, !abs_spec, sub_spec. unfold SFeqb.
  change (Prim2SF 0) with (S754_zero false).
  change (Prim2SF infinity) with (S754_infinity false).
  intros Heq Hfin.
  destruct (Prim2SF x) as [sx|sx| |sx mx ex] eqn:Ex,
           (Prim2SF y) as [sy|sy| |sy my ey] eqn:Ey; simpl in *;
    try discriminate; try reflexivity;
    try (destruct sx; discriminate); try (destruct sy; discriminate).
  - now destruct sx, sy.
  - fold_pos_compare. fold_pos_compare.
    assert (E : sx = sy /\ ex = ey /\ mx = my).
    { destruct sx, sy; try discriminate;
        destruct (Z.compare_spec ex ey); try discriminate;
        destruct (Pos.compare_spec mx my); try discriminate; auto. }
    destruct E as (-> & -> & ->).
    unfold SF64sub, SFsub. now rewrite Z.sub_diag.
Qed.

(** ** The mode *)

Lemma mode_better_false (l : list float) (x m : float) :
  is_nan x = false -> is_nan m = false ->
  mode_better l x m = false ->
  (value_count x l <= value_count m l)%nat /\
  (value_count x l = value_count m l -> (m <=? x)%float = true).
Proof.
  unfold mode_better. rewrite orb_false_iff, Nat.ltb_ge. intros Hx Hm (Hle & H).
  split; [exact Hle|]. intros Heq. rewrite Heq, Nat.eqb_refl in H. simpl in H.
  now apply ltb_false_leb.
Qed.

Lemma mode_better_true (l : list float) (x m : float) :
  mode_better l x m = true ->
  (value_count m l < value_count x l)%nat \/
  (value_count x l = value_count m l /\ (x <? m)%float = true).
Proof.
  unfold mode_better. rewrite orb_true_iff, andb_true_iff, Nat.ltb_lt, Nat.eqb_eq.
  tauto.
Qed.

(** The fold of [mode] over a part [l'] of the scores [l]. *)
Lemma mode_fold (l l' : list float) :
  match fold_right (fun x acc =>
                      if is_nan x then acc
                      else
                        match acc with
                        | None => Some x
                        | Some m => if mode_better l x m then Some x else Some m
                        end) None l' with
  | None => forall x, In x l' -> is_nan x = true
  | Some ms =>
      In ms l' /\ is_nan ms = false /\
      forall y, In y l' -> is_nan y = false ->
                (value_count y l <= value_count ms l)%nat /\
                (value_count y l = value_count ms l -> (ms <=? y)%float = true)
  end.
Proof.
  induction l' as [|x l' IH]; cbn [fold_right]; [intros x []|].
  destruct (is_nan x) eqn:Ex.
  - destruct (fold_right _ None l') as [ms|].
    + destruct IH as (Hin & Hms & Hbest). split; [now right|]. split; [exact Hms|].
      intros y [<-|Hy] Hnan; [congruence|now apply Hbest].
    + intros y [<-|Hy]; [exact Ex|now apply IH].
  - destruct (fold_right _ None l') as [m|].
    + destruct IH as (Hin & Hm & Hbest).
      destruct (mode_better l x m) eqn:E.
      * split; [now left|]. split; [exact Ex|].
        intros y [<-|Hy] Hnan.
        -- split; [lia|]. intros _. now apply leb_refl.
        -- destruct (Hbest y Hy Hnan) as (Hc & Ht).
           apply mode_better_true in E as [E|(E1 & E2)].
           ++ split; lia.
           ++ split; [lia|]. intros Heq.
              apply ltb_leb_trans with m; [exact E2|]. apply Ht. lia.
      * split; [now right|]. split; [exact Hm|].
        intros y [<-|Hy] Hnan; [|now apply Hbest].
        now apply mode_better_false.
    + split; [now left|]. split; [exact Ex|].
      intros y [<-|Hy] Hnan.
      * split; [lia|]. intros _. now apply leb_refl.
      * rewrite (IH y Hy) in Hnan. discriminate.
Qed.

Lemma mode_smallest (l : list float) (ms : float) :
  mode l = Some ms -> smallest_mode l ms.
Proof.
  intros H. pose proof (mode_fold l l) as Hf. unfold mode in H.
  rewrite H in Hf. exact Hf.
Qed.

Lemma mode_None (l : list float) :
  mode l = None -> forall x, In x l -> is_nan x = true.
Proof.
  intros H. pose proof (mode_fold l l) as Hf. unfold mode in H.
  rewrite H in Hf. exact Hf.
Qed.

Lemma mode_spec (l : list float) :
  (exists x, In x l /\ is_nan x = false) ->
  exists ms, mode l = Some ms /\ smallest_mode l ms.
Proof.
  intros (x & Hx & Hnan). destruct (mode l) as [ms|] eqn:E.
  - exists ms. split; [reflexivity|]. now apply mode_smallest.
  - rewrite (mode_None l E x Hx) in Hnan. discriminate.
Qed.

(** ** The outliers of a group *)

Section OutlierFacts.
Variable not_by_score : bool.
Variables outlier_z min_score_diff : float.

Lemma zscore_map (a : list float) : zscore a = map (zscore_of a) a.
Proof. reflexivity. Qed.

Lemma combine_group (f : float -> float) (cg : hits_table) :
  combine (group_labels cg)
          (combine (map f (group_scores cg)) (group_scores cg))
  = map (fun p => (fst p, (f (Score (snd p)), Score (snd p)))) cg.
Proof.
  induction cg as [|p cg IH]; simpl; [reflexivity|]. now rewrite IH.
Qed.

Lemma filter_map_comm {A B : Type} (f : A -> B) (p : B -> bool) (l : list A) :
  filter p (map f l) = map f (filter (fun x => p (f x)) l).
Proof.
  induction l as [|x l IH]; simpl; [reflexivity|].
  destruct (p (f x)); simpl; now rewrite IH.
Qed.

Lemma outliers_of_group (ms : float) (cg : hits_table) :
  outliers_of outlier_z min_score_diff ms (group_labels cg)
              (zscore (group_scores cg)) (group_scores cg)
  = map fst (filter (member_outlier outlier_z min_score_diff ms cg) cg).
Proof.
  unfold outliers_of. rewrite zscore_map, combine_group, filter_map_comm, map_map.
  reflexivity.
Qed.

Lemma group_outliers_eq (cg : hits_table) (ms : float) :
  mode (group_scores cg) = Some ms ->
  group_outliers outlier_z min_score_diff cg
  = map fst (filter (member_outlier outlier_z min_score_diff ms cg) cg).
Proof.
  unfold group_outliers. intros ->. apply outliers_of_group.
Qed.

Lemma group_outliers_incl (cg : hits_table) :
  incl (group_outliers outlier_z min_score_diff cg) (group_labels cg).
Proof.
  unfold group_outliers. destruct (mode (group_scores cg)) as [ms|].
  - rewrite outliers_of_group. intros m Hm.
    apply in_map_iff in Hm as (p & <- & Hp). apply filter_In in Hp as (Hp & _).
    unfold group_labels. now apply in_map.
  - intros m [].
Qed.

Lemma NoDup_fst_eq {A B : Type} (l : list (A * B)) (a : A) (b b' : B) :
  NoDup (map fst l) -> In (a, b) l -> In (a, b') l -> b = b'.
Proof.
  induction l as [|[x y] l IH]; simpl; [tauto|].
  intros Hnd H H'. inversion Hnd as [|? ? Hx Hl]; subst.
  destruct H as [H|H], H' as [H'|H'].
  - congruence.
  - inversion H; subst. exfalso. apply Hx.
    apply in_map_iff. exists (a, b'). auto.
  - inversion H'; subst. exfalso. apply Hx.
    apply in_map_iff. exists (a, b). auto.
  - eauto.
Qed.

(** With distinct labels, a member is among the outliers exactly when it
    passes the test itself. *)
Lemma in_group_outliers (cg : hits_table) (ms : float) (m : string) (h : hit) :
  NoDup (group_labels cg) -> mode (group_scores cg) = Some ms ->
  In (m, h) cg ->
  (In m (group_outliers outlier_z min_score_diff cg) <->
   member_outlier outlier_z min_score_diff ms cg (m, h) = true).
Proof.
  intros Hnd Hms Hin. rewrite (group_outliers_eq _ _ Hms). split.
  - intros Hm. apply in_map_iff in Hm as ([m' h'] & Hfst & Hp).
    simpl in Hfst. subst m'. apply filter_In in Hp as (Hp & Htest).
    now rewrite (NoDup_fst_eq _ _ _ _ Hnd Hin Hp).
  - intros Htest. apply in_map_iff. exists (m, h). split; [reflexivity|].
    apply filter_In. auto.
Qed.

Lemma in_drop_labels (labels outliers : list string) (m : string) :
  In m (drop_labels labels outliers) <-> In m labels /\ ~ In m outliers.
Proof.
  unfold drop_labels. rewrite filter_In, negb_true_iff, <- not_true_iff_false.
  rewrite existsb_exists. split; intros (Hin & Hn); (split; [exact Hin|]).
  - intros Ho. apply Hn. exists m. split; [exact Ho|apply String.eqb_refl].
  - intros (o & Ho & E). apply String.eqb_eq in E. subst o. auto.
Qed.

Lemma candidates_incl (cg : hits_table) :
  incl (candidates not_by_score outlier_z min_score_diff cg) (group_labels cg).
Proof.
  unfold candidates.
  destruct (score_path not_by_score cg); [|apply incl_refl].
  intros m Hm. now apply in_drop_labels in Hm.
Qed.

(** A member with the modal score is no outlier when [min_score_diff] is
    positive. *)
Lemma modal_member_not_outlier (cg : hits_table) (ms : float) (p : string * hit) :
  (0 <? min_score_diff)%float = true -> (Score (snd p) =? ms)%float = true ->
  member_outlier outlier_z min_score_diff ms cg p = false.
Proof.
  intros Hpos Heq. unfold member_outlier, is_outlier.
  apply andb_false_iff. right. now apply eqb_sub_small.
Qed.

Lemma in_group_scores (cg : hits_table) (x : float) :
  In x (group_scores cg) -> exists p, In p cg /\ Score (snd p) = x.
Proof.
  unfold group_scores. intros H. apply in_map_iff in H as (p & Hp & Hin). eauto.
Qed.

(** The members left after dropping the outliers are not all gone. *)
Lemma non_outliers_nonempty (cg : hits_table) :
  (0 <? min_score_diff)%float = true -> cg <> [] -> NoDup (group_labels cg) ->
  drop_labels (group_labels cg) (group_outliers outlier_z min_score_diff cg)
  <> [].
Proof.
  intros Hpos Hne Hnd.
  destruct (mode (group_scores cg)) as [ms|] eqn:Hms.
  - destruct (mode_smallest _ _ Hms) as (Hin & Hnan & _).
    apply in_group_scores in Hin as ([m h] & Hp & Hscore).
    assert (Hm : In m (drop_labels (group_labels cg)
                                   (group_outliers outlier_z min_score_diff cg))).
    { apply in_drop_labels. split.
      - unfold group_labels. apply in_map_iff. exists (m, h). auto.
      - rewrite (in_group_outliers _ _ _ _ Hnd Hms Hp).
        rewrite modal_member_not_outlier; [discriminate|exact Hpos|].
        simpl in *. rewrite Hscore. now apply float_eqb_refl. }
    intros Hnil. rewrite Hnil in Hm. destruct Hm.
  - unfold group_outliers. rewrite Hms. unfold drop_labels. simpl.
    destruct cg as [|p cg]; [congruence|]. simpl. discriminate.
Qed.
End OutlierFacts.

(** ** The run returns *)

Lemma for_each_total {A S : Type} (body : S -> A -> M S) (l : list A) :
  (forall x, In x l -> forall acc g, exists acc' g', body acc x g = Ok (acc', g')) ->
  forall acc g, exists acc' g', for_each body l acc g = Ok (acc', g').
Proof.
  induction l as [|x l IH]; intros H acc g; cbn [for_each].
  - unfold ret. eauto.
  - destruct (H x (or_introl eq_refl) acc g) as (a & g1 & Hbody).
    unfold bind. rewrite Hbody. apply IH. intros; apply H; now right.
Qed.

Lemma flag_content_total (t u : table) (members : list string) (g : rng) :
  Forall (fun m => exists st, loc_status t m = Ok st) members ->
  members <> [] ->
  exists u' g', flag_content t u members g = Ok (u', g').
Proof.
  intros Hall Hne. unfold flag_content, bind, lift.
  destruct (representative_in_total _ _ Hall) as (b & ->).
  destruct b; [unfold ret; eauto|].
  destruct (choice_total members g Hne) as (r & g' & ->). unfold ret. eauto.
Qed.

Section Totality.
Variable hits : hits_table.
Variable t : table.
Variable not_by_score : bool.
Variables outlier_z min_score_diff : float.
Hypothesis t_unique : NoDup (map scaffold t).
Hypothesis hits_numeric : numeric hits.

(** The scores of a content group are numbers, so the group has a mode. *)
Lemma content_group_scores (cg : hits_table) (p : string * hit) :
  content_group_of hits t cg -> In p cg -> is_nan (Score (snd p)) = false.
Proof.
  intros (item & hg & _ & Hhg & Hcg) Hp.
  destruct (content_groups_item _ _ Hcg) as (key & _ & ->).
  apply filter_In in Hp as (Hp & _). destruct p as [m h].
  apply (hits_numeric m h). eapply loc_hits_member; eauto.
Qed.

Lemma content_group_mode (cg : hits_table) :
  content_group_of hits t cg ->
  exists ms, mode (group_scores cg) = Some ms /\
             smallest_mode (group_scores cg) ms.
Proof.
  intros Hcg.
  destruct (content_group_labels _ _ t_unique _ Hcg) as (Hne & _ & _).
  apply mode_spec. destruct cg as [|p cg]; [congruence|].
  exists (Score (snd p)). split; [now left|].
  apply (content_group_scores (p :: cg)); [exact Hcg|now left].
Qed.

Lemma score_path_not_by_score (cg : hits_table) :
  not_by_score = true -> score_path not_by_score cg = false.
Proof. intros ->. reflexivity. Qed.

Lemma candidates_nonempty (cg : hits_table) :
  content_group_of hits t cg ->
  not_by_score = true \/ (0 <? min_score_diff)%float = true ->
  candidates not_by_score outlier_z min_score_diff cg <> [].
Proof.
  intros Hcg Hor.
  destruct (content_group_labels _ _ t_unique _ Hcg) as (Hne & Hnd & _).
  unfold candidates. destruct (score_path not_by_score cg) eqn:E.
  - destruct Hor as [Hnbs|Hpos].
    + rewrite score_path_not_by_score in E by exact Hnbs. discriminate.
    + now apply non_outliers_nonempty.
  - destruct cg; [congruence|discriminate].
Qed.

Lemma process_content_group_eq (u : table) (cg : hits_table) (g : rng) :
  content_group_of hits t cg ->
  process_content_group t not_by_score outlier_z min_score_diff u cg g
  = flag_content t
      (if score_path not_by_score cg
       then mark_outliers t (group_outliers outlier_z min_score_diff cg) u
       else u)
      (candidates not_by_score outlier_z min_score_diff cg) g.
Proof.
  intros Hcg.
  destruct (content_group_labels _ _ t_unique _ Hcg) as (Hne & Hnd & Hincl).
  unfold process_content_group, candidates, group_outliers, score_path.
  fold (group_labels cg) (group_scores cg).
  destruct (mode (group_scores cg)) as [ms|] eqn:Hms.
  - destruct (not_by_score || forallb isna (zscore (group_scores cg))); simpl;
      [reflexivity|].
    unfold bind at 1. rewrite flag_outliers_total; [reflexivity|].
    eapply content_group_loc_status; eauto.
    pose proof (group_outliers_incl outlier_z min_score_diff cg) as H.
    unfold group_outliers in H. now rewrite Hms in H.
  - destruct (content_group_mode cg Hcg) as (ms & Hms' & _). congruence.
Qed.

Lemma process_content_group_total (u : table) (cg : hits_table) (g : rng) :
  content_group_of hits t cg ->
  not_by_score = true \/ (0 <? min_score_diff)%float = true ->
  exists u' g',
    process_content_group t not_by_score outlier_z min_score_diff u cg g
    = Ok (u', g').
Proof.
  intros Hcg Hor. rewrite process_content_group_eq by exact Hcg.
  apply flag_content_total.
  - eapply content_group_loc_status; eauto. apply candidates_incl.
  - now apply candidates_nonempty.
Qed.

Lemma loc_hits_total (item : string * list string) :
  covered hits t -> In item (genome_groups t) ->
  exists hg, loc_hits hits (snd item) = Ok hg.
Proof.
  intros Hcov Hitem. unfold loc_hits. apply rmap_total.
  intros m Hm. destruct (genome_group_members _ _ _ Hitem Hm) as (r & Hr & <- & _).
  destruct (Hcov (scaffold r)) as (h & ->); [now apply in_map|].
  simpl. eauto.
Qed.

Lemma recover_updates_total (not_by_content : bool) (g : rng) :
  covered hits t ->
  not_by_content = true \/ not_by_score = true \/ (0 <? min_score_diff)%float = true ->
  exists u g',
    recover_updates hits t not_by_content not_by_score outlier_z
                    min_score_diff g = Ok (u, g').
Proof.
  intros Hcov Hor. unfold recover_updates.
  destruct not_by_content; simpl; [unfold ret; eauto|].
  destruct Hor as [Hor|Hor]; [discriminate|].
  apply for_each_total. intros item Hitem acc g0.
  unfold process_genome_group, bind at 1, lift.
  destruct (loc_hits_total _ Hcov Hitem) as (hg & Hhg). rewrite Hhg.
  apply for_each_total. intros cg Hcg acc1 g1.
  apply process_content_group_total; [|exact Hor].
  exists item, hg. auto.
Qed.

Lemma recover_hits_total (not_by_content : bool) (g : rng) :
  covered hits t ->
  not_by_content = true \/ not_by_score = true \/ (0 <? min_score_diff)%float = true ->
  exists t' g',
    recover_hits hits t not_by_content not_by_score outlier_z
                 min_score_diff g = Ok (t', g').
Proof.
  intros Hcov Hor.
  destruct (recover_updates_total not_by_content g Hcov Hor) as (u & g' & Hu).
  unfold recover_hits, bind. rewrite Hu. unfold ret. eauto.
Qed.
End Totality.

(** ** Which hits are flagged for their score *)

Lemma mark_outliers_cons (t : table) (o : string) (l : list string) (u : table) :
  mark_outliers t (o :: l) u
  = mark_outliers t l
      (match loc_status t o with
       | Ok st =>
           if status_eqb st dereplication_representative then u
           else set_status u o readded_by_outlier_score
       | Raise _ => u
       end).
Proof. reflexivity. Qed.

Lemma mark_outliers_keys (t : table) (l : list string) (u : table) :
  map row_key (mark_outliers t l u) = map row_key u.
Proof.
  revert u. induction l as [|o l IH]; intros u; [reflexivity|].
  rewrite mark_outliers_cons, IH.
  destruct (loc_status t o) as [st|]; [|reflexivity].
  destruct (status_eqb st dereplication_representative); [reflexivity|].
  apply set_status_keys.
Qed.

(** A status found after the loop over the outliers was there before, or is
    the flag of one of them. *)
Lemma mark_outliers_status (t : table) (l : list string) (u : table)
      (m : string) (st : status) :
  loc_status (mark_outliers t l u) m = Ok st ->
  loc_status u m = Ok st \/
  (st = readded_by_outlier_score /\ In m l /\
   exists st0, loc_status t m = Ok st0 /\ st0 <> dereplication_representative).
Proof.
  revert u. induction l as [|o l IH]; intros u H; [now left|].
  rewrite mark_outliers_cons in H. apply IH in H as [H|(-> & Hin & Hst0)].
  - destruct (loc_status t o) as [st0|] eqn:Eo; [|now left].
    destruct (status_eqb st0 dereplication_representative) eqn:Est; [now left|].
    destruct (string_dec m o) as [->|Hne].
    + right.
      assert (Hdef : exists st1, loc_status u o = Ok st1).
      { apply loc_status_defined.
        apply loc_status_scaffold in H.
        now rewrite (keys_scaffolds _ _ (set_status_keys u o _)) in H. }
      destruct Hdef as (st1 & Hst1).
      rewrite (loc_status_set_same _ _ _ _ Hst1) in H. inversion H; subst.
      split; [reflexivity|]. split; [now left|].
      exists st0. split; [exact Eo|]. intros ->. discriminate.
    + left. now rewrite loc_status_set_other in H.
  - right. split; [reflexivity|]. split; [now right|exact Hst0].
Qed.

Lemma mark_outliers_keeps (t : table) (l : list string) (u : table) (m : string) :
  loc_status u m = Ok readded_by_outlier_score ->
  loc_status (mark_outliers t l u) m = Ok readded_by_outlier_score.
Proof.
  revert u. induction l as [|o l IH]; intros u H; [exact H|].
  rewrite mark_outliers_cons. apply IH.
  destruct (loc_status t o) as [st0|]; [|exact H].
  destruct (status_eqb st0 dereplication_representative); [exact H|].
  destruct (string_dec m o) as [->|Hne].
  - eapply loc_status_set_same; eauto.
  - now rewrite loc_status_set_other.
Qed.

Lemma mark_outliers_marks (t : table) (l : list string) (u : table)
      (m : string) (st0 : status) :
  In m l -> loc_status t m = Ok st0 -> st0 <> dereplication_representative ->
  In m (map scaffold u) ->
  loc_status (mark_outliers t l u) m = Ok readded_by_outlier_score.
Proof.
  revert u. induction l as [|o l IH]; intros u Hin Hst0 Hne Hu; [destruct Hin|].
  rewrite mark_outliers_cons.
  destruct (string_dec o m) as [->|Hom].
  - rewrite Hst0.
    destruct (status_eqb st0 dereplication_representative) eqn:Est.
    + apply status_eqb_eq in Est. contradiction.
    + apply mark_outliers_keeps.
      destruct (loc_status_defined _ _ Hu) as (st1 & Hst1).
      eapply loc_status_set_same; eauto.
  - destruct Hin as [Hin|Hin]; [contradiction|].
    apply IH; auto.
    destruct (loc_status t o) as [st1|]; [|exact Hu].
    destruct (status_eqb st1 dereplication_representative); [exact Hu|].
    now rewrite (keys_scaffolds _ _ (set_status_keys u o _)).
Qed.

(** A constant group has NaN z-scores only. *)
Lemma isconst_zscore (a : list float) :
  isconst a = true -> forallb isna (zscore a) = true.
Proof.
  intros H. unfold zscore. rewrite H. apply forallb_forall. intros z Hz.
  apply in_map_iff in Hz as (x & <- & _). reflexivity.
Qed.

Lemma not_const_scores_vary (a : list float) :
  isconst a = false -> scores_vary a.
Proof.
  unfold isconst. intros H. destruct a as [|x a]; [discriminate|].
  simpl hd in H.
  assert (Hex : exists y, In y (x :: a) /\ (x =? y)%float = false).
  { generalize dependent (x :: a). intros l Hl.
    induction l as [|z l IH]; simpl in Hl; [discriminate|].
    destruct (x =? z)%float eqn:E.
    - destruct (IH Hl) as (y & Hy & Hyx). exists y. split; [now right|exact Hyx].
    - exists z. split; [now left|exact E]. }
  destruct Hex as (y & Hy & Hxy). exists x, y. split; [now left|]. auto.
Qed.

(** The score branch is taken only with score recovery enabled and for
    scores that are not all the same. *)
Lemma score_path_scores_vary (not_by_score : bool) (cg : hits_table) :
  score_path not_by_score cg = true ->
  not_by_score = false /\ scores_vary (group_scores cg) /\
  isconst (group_scores cg) = false.
Proof.
  unfold score_path. rewrite negb_true_iff, orb_false_iff. intros (-> & H).
  split; [reflexivity|].
  destruct (isconst (group_scores cg)) eqn:E.
  - now rewrite isconst_zscore in H.
  - split; [now apply not_const_scores_vary|reflexivity].
Qed.

Lemma loc_status_set_status (u : table) (r m : string) (st st' : status) :
  loc_status (set_status u r st) m = Ok st' ->
  (m = r /\ st' = st) \/ (m <> r /\ loc_status u m = Ok st').
Proof.
  intros H. destruct (string_dec m r) as [->|Hne].
  - left. split; [reflexivity|].
    assert (Hdef : exists st1, loc_status u r = Ok st1).
    { apply loc_status_defined. apply loc_status_scaffold in H.
      now rewrite (keys_scaffolds _ _ (set_status_keys u r _)) in H. }
    destruct Hdef as (st1 & Hst1).
    rewrite (loc_status_set_same _ _ _ _ Hst1) in H. congruence.
  - right. split; [exact Hne|]. now rewrite loc_status_set_other in H.
Qed.

Section ScoreFlags.
Variable hits : hits_table.
Variable t : table.
Variable not_by_score : bool.
Variables outlier_z min_score_diff : float.
Hypothesis t_unique : NoDup (map scaffold t).

Local Abbreviation outliers := (group_outliers outlier_z min_score_diff).
Local Abbreviation path := (score_path not_by_score).


Lemma process_content_group_keys (u u' : table) (cg : hits_table) (g g' : rng) :
  process_content_group t not_by_score outlier_z min_score_diff u cg g
  = Ok (u', g') ->
  map row_key u' = map row_key u.
Proof.
  intros H. apply process_content_group_run in H as (_ & H).
  apply flag_content_run in H as [(_ & -> & _)|(_ & r & _ & ->)].
  - destruct (score_path not_by_score cg); [apply mark_outliers_keys|reflexivity].
  - rewrite set_status_keys.
    destruct (score_path not_by_score cg); [apply mark_outliers_keys|reflexivity].
Qed.

Lemma score_flag_sound (g g' : rng) (u : table) (m : string) :
  recover_updates hits t false not_by_score outlier_z min_score_diff g
  = Ok (u, g') ->
  loc_status u m = Ok readded_by_outlier_score ->
  loc_status t m = Ok readded_by_outlier_score \/
  flagged_outlier hits t not_by_score outlier_z min_score_diff m.
Proof.
  intros Hrun. revert m.
  apply (recover_updates_invariant hits t not_by_score outlier_z min_score_diff
           (fun u => forall m, loc_status u m = Ok readded_by_outlier_score ->
                               loc_status t m = Ok readded_by_outlier_score \/
                               flagged_outlier hits t not_by_score outlier_z
                                               min_score_diff m))
    with (g := g) (g' := g');
    [|auto|exact Hrun].
  intros cg a g1 a' g1' Hcg Ha Hstep m Hm.
  apply process_content_group_run in Hstep as (_ & Hstep).
  assert (H1 : forall m,
             loc_status (if score_path not_by_score cg
                         then mark_outliers t (outliers cg) a else a) m
             = Ok readded_by_outlier_score ->
             loc_status t m = Ok readded_by_outlier_score \/
             flagged_outlier hits t not_by_score outlier_z min_score_diff m).
  { intros m' Hm'. destruct (score_path not_by_score cg) eqn:Epath; [|auto].
    apply mark_outliers_status in Hm' as [Hm'|(_ & Hin & st0 & Hst0 & Hne)];
      [auto|].
    right. exists cg, st0. auto. }
  apply flag_content_run in Hstep as [(_ & -> & _)|(_ & r & _ & ->)]; [auto|].
  apply loc_status_set_status in Hm as [(_ & Hm)|(_ & Hm)];
    [discriminate|auto].
Qed.

Lemma score_flag_complete (g g' : rng) (u : table) (m : string) :
  recover_updates hits t false not_by_score outlier_z min_score_diff g
  = Ok (u, g') ->
  flagged_outlier hits t not_by_score outlier_z min_score_diff m ->
  loc_status u m = Ok readded_by_outlier_score.
Proof.
  intros Hrun (cg & st0 & Hcg & Hpath & Hin & Hst0 & Hne).
  pose (E := fun (cg : hits_table) (u : table) =>
               path cg = true ->
               forall m st0, In m (outliers cg) -> loc_status t m = Ok st0 ->
                             st0 <> dereplication_representative ->
                             loc_status u m = Ok readded_by_outlier_score).
  assert (H : map row_key u = map row_key t /\
              forall cg, content_group_of hits t cg -> E cg u).
  { apply (recover_updates_post hits t not_by_score outlier_z min_score_diff
             (fun u => map row_key u = map row_key t) E)
      with (g := g) (g' := g'); [| |reflexivity|exact Hrun].
    - intros cg1 a g1 a' g1' Hcg1 Ha Hstep.
      split; [now rewrite (process_content_group_keys _ _ _ _ _ Hstep)|].
      intros Hp m1 st1 Hm1 Hst1 Hne1.
      apply process_content_group_run in Hstep as (_ & Hstep).
      rewrite Hp in Hstep.
      assert (Hmark : loc_status (mark_outliers t (outliers cg1) a) m1
                      = Ok readded_by_outlier_score).
      { eapply mark_outliers_marks; eauto.
        rewrite (keys_scaffolds _ _ Ha). eapply loc_status_scaffold; eauto. }
      apply flag_content_run in Hstep as [(_ & -> & _)|(_ & r & Hr & ->)];
        [exact Hmark|].
      rewrite loc_status_set_other; [exact Hmark|].
      intros ->. apply choice_Ok in Hr. unfold candidates in Hr.
      rewrite Hp in Hr. apply in_drop_labels in Hr as (_ & Hr).
      now apply Hr.
    - intros cg1 cg2 a g1 a' g1' Hcg1 Hcg2 Ha HE Hstep Hp m1 st1 Hm1 Hst1 Hne1.
      specialize (HE Hp m1 st1 Hm1 Hst1 Hne1).
      apply process_content_group_run in Hstep as (_ & Hstep).
      assert (Hmark : loc_status (if score_path not_by_score cg2
                                  then mark_outliers t (outliers cg2) a else a) m1
                      = Ok readded_by_outlier_score).
      { destruct (score_path not_by_score cg2); [|exact HE].
        now apply mark_outliers_keeps. }
      apply flag_content_run in Hstep as [(_ & -> & _)|(_ & r & Hr & ->)];
        [exact Hmark|].
      rewrite loc_status_set_other; [exact Hmark|].
      intros ->. apply choice_Ok in Hr.
      assert (Heq : cg2 = cg1).
      { apply (content_group_unique hits t t_unique cg2 cg1 r Hcg2 Hcg1).
        - now apply (candidates_incl not_by_score outlier_z min_score_diff).
        - now apply (group_outliers_incl outlier_z min_score_diff). }
      subst cg2. unfold candidates in Hr. rewrite Hp in Hr.
      apply in_drop_labels in Hr as (_ & Hr). now apply Hr. }
  destruct H as (_ & H). eapply (H cg); eauto.
Qed.
End ScoreFlags.

(** ** Score outliers *)

Lemma numeric_Forall (hits : hits_table) :
  Forall (fun p => is_nan (Score (snd p)) = false) hits -> numeric hits.
Proof.
  intros H m h. induction H as [|[s h0] hits Hp _ IH]; simpl; [discriminate|].
  destruct (String.eqb s m); [intros E; inversion E; subst; exact Hp|exact IH].
Qed.

Lemma member_outlier_spec (oz msd ms : float) (cg : hits_table) (p : string * hit) :
  member_outlier oz msd ms cg p = true <->
  (oz <=? abs (zscore_of (group_scores cg) (Score (snd p))))%float = true /\
  (msd <=? abs (Score (snd p) - ms))%float = true.
Proof.
  unfold member_outlier, is_outlier, zabs_ge. apply andb_true_iff.
Qed.

(** No threshold is reached by a NaN z-score. *)
Lemma zabs_ge_nan (t : float) : zabs_ge nan t = false.
Proof.
  unfold zabs_ge. rewrite leb_spec, abs_spec.
  change (Prim2SF nan) with S754_nan. unfold SFleb.
  destruct (Prim2SF t); reflexivity.
Qed.

(** An iteration that returns has found a mode, and so has every content
    group of a run that returns. *)
Lemma process_content_group_mode (t : table) nbs oz msd (u u' : table)
      (cg : hits_table) (g g' : rng) :
  process_content_group t nbs oz msd u cg g = Ok (u', g') ->
  exists ms, mode (group_scores cg) = Some ms.
Proof.
  unfold process_content_group. fold (group_scores cg).
  destruct (mode (group_scores cg)) as [ms|]; [eauto|discriminate].
Qed.

Lemma recover_updates_mode (hits : hits_table) (t : table) nbs oz msd
      (g g' : rng) (u : table) (cg : hits_table) :
  recover_updates hits t false nbs oz msd g = Ok (u, g') ->
  content_group_of hits t cg ->
  exists ms, mode (group_scores cg) = Some ms.
Proof.
  intros Hrun Hcg.
  destruct (recover_updates_post hits t nbs oz msd (fun _ => True)
              (fun cg _ => exists ms, mode (group_scores cg) = Some ms))
    with (g := g) (u := u) (g' := g') as (_ & H); auto.
  intros cg0 u0 g0 u0' g0' _ _ Hstep. split; [exact I|].
  eapply process_content_group_mode; eauto.
Qed.

(** C1 (as amended). In a run with score recovery, for a content group
    whose z-scores are not all NaN (its scores are then not all the same)
    and a hit of it: outside the representative assembly, the hit ends as
    readded_by_outlier_score exactly when its z-score, as computed in
    float64, has absolute value at least outlier_z and its score is at
    least min_score_diff away, in float64, from the modal score, the
    smallest of the most frequent scores; a hit of the representative
    assembly keeps the status dereplication_representative, also when it
    passes both tests. *)
Theorem readded_by_score_iff_outlier (hits : hits_table) (t : table)
        (outlier_z min_score_diff : float) (g g' : rng) (t' : table)
        (cg : hits_table) (m : string) (h : hit) :
  NoDup (map scaffold t) -> base_table t ->
  recover_hits hits t false false outlier_z min_score_diff g = Ok (t', g') ->
  content_group_of hits t cg ->
  forallb isna (zscore (group_scores cg)) = false ->
  In (m, h) cg ->
  scores_vary (group_scores cg) /\
  exists ms,
    mode (group_scores cg) = Some ms /\
    smallest_mode (group_scores cg) ms /\
    (loc_status t m <> Ok dereplication_representative ->
     (loc_status t' m = Ok readded_by_outlier_score <->
      (outlier_z
       <=? abs ((Score h - np_mean (group_scores cg))
                / np_std 0 (group_scores cg)))%float = true /\
      (min_score_diff <=? abs (Score h - ms))%float = true)) /\
    (loc_status t m = Ok dereplication_representative ->
     loc_status t' m = Ok dereplication_representative).
Proof.
  intros Hnd Hbase Hrun Hcg Hnan Hin.
  assert (Hpath : score_path false cg = true).
  { unfold score_path. now rewrite Hnan. }
  destruct (score_path_scores_vary _ _ Hpath) as (_ & Hvary & Hconst).
  destruct (content_group_labels _ _ Hnd _ Hcg) as (Hne & Hlab & Hincl).
  apply recover_hits_run in Hrun as (u & Hu & ->).
  destruct (recover_updates_mode _ _ _ _ _ _ _ _ _ Hu Hcg) as (ms & Hms).
  split; [exact Hvary|]. exists ms. split; [exact Hms|].
  split; [now apply mode_smallest|].
  pose proof (recover_updates_updates _ _ _ _ _ _ _ _ _ Hu) as (Hk & Hup).
  assert (Hndu : NoDup (map scaffold u)) by now rewrite (keys_scaffolds _ _ Hk).
  rewrite !(loc_status_perm _ _ m Hndu (sort_values_perm u)).
  assert (Hm : In m (group_labels cg)).
  { unfold group_labels. apply in_map_iff. exists (m, h). auto. }
  split.
  - intros Hnotrep.
    assert (Hz : zscore_of (group_scores cg) (Score h)
                 = ((Score h - np_mean (group_scores cg))
                    / np_std 0 (group_scores cg))%float).
    { unfold zscore_of. now rewrite Hconst. }
    rewrite <- Hz.
    change (Score h) with (Score (snd (m, h))).
    rewrite <- (member_outlier_spec outlier_z min_score_diff ms cg (m, h)).
    rewrite <- (in_group_outliers outlier_z min_score_diff cg ms m h Hlab Hms Hin).
    split.
    + intros Hst.
      destruct (score_flag_sound hits t false outlier_z min_score_diff g g' u m Hu Hst)
        as [Hst0|(cg' & st0 & Hcg' & _ & Hin' & _)].
      * destruct (base_table_status _ _ _ Hbase Hst0); discriminate.
      * assert (Heq : cg' = cg).
        { apply (content_group_unique hits t Hnd cg' cg m Hcg' Hcg); [|exact Hm].
          now apply (group_outliers_incl outlier_z min_score_diff). }
        now subst cg'.
    + intros Hout.
      apply (score_flag_complete hits t false outlier_z min_score_diff Hnd g g' u m Hu).
      destruct (loc_status_defined t m (Hincl m Hm)) as (st0 & Hst0).
      exists cg, st0. split; [exact Hcg|]. split; [exact Hpath|].
      split; [exact Hout|]. split; [exact Hst0|]. congruence.
  - intros Hrep. destruct (Hup _ _ Hrep) as (st' & Hst' & [->|(Hne' & _)]);
      [exact Hst'|congruence].
Qed.

(** C10. In the score-outlier branch with a positive min_score_diff, the
    members that carry the modal score are no outliers: their distance to
    the modal score is below min_score_diff (it is 0 for a finite score).
    So the list of non-outliers is not empty and the content group is
    processed without drawing from an empty list.  With min_score_diff = 0
    a content group can have outliers only, and the draw then raises
    IndexError. *)
Theorem modal_member_never_outlier (hits : hits_table) (t : table)
        (not_by_score : bool) (outlier_z min_score_diff : float)
        (cg : hits_table) :
  NoDup (map scaffold t) -> numeric hits -> content_group_of hits t cg ->
  (0 <? min_score_diff)%float = true ->
  (exists ms,
      mode (group_scores cg) = Some ms /\
      (exists p, In p cg /\ Score (snd p) = ms) /\
      forall p, In p cg -> (Score (snd p) =? ms)%float = true ->
                (min_score_diff <=? abs (Score (snd p) - ms))%float = false /\
                (is_finite (Score (snd p)) = true ->
                 (abs (Score (snd p) - ms) =? 0)%float = true) /\
                member_outlier outlier_z min_score_diff ms cg p = false /\
                ~ In (fst p) (group_outliers outlier_z min_score_diff cg)) /\
  drop_labels (group_labels cg) (group_outliers outlier_z min_score_diff cg) <> [] /\
  (forall u g, exists u' g',
        process_content_group t not_by_score outlier_z min_score_diff u cg g
        = Ok (u', g')) /\
  (exists hits0 t0 cg0,
      NoDup (map scaffold t0) /\ numeric hits0 /\
      content_group_of hits0 t0 cg0 /\
      score_path false cg0 = true /\
      group_outliers 1 0 cg0 = group_labels cg0 /\
      drop_labels (group_labels cg0) (group_outliers 1 0 cg0) = [] /\
      forall u g, process_content_group t0 false 1 0 u cg0 g = Raise IndexError).
Proof.
  intros Hnd Hnum Hcg Hpos.
  destruct (content_group_labels _ _ Hnd _ Hcg) as (Hne & Hlab & Hincl).
  split; [|split; [|split]].
  - destruct (content_group_mode hits t Hnd Hnum cg Hcg) as (ms & Hms & (Hin & _)).
    exists ms. split; [exact Hms|]. split; [now apply in_group_scores|].
    intros [m h] Hp Heq. split; [|split; [|split]].
    + now apply eqb_sub_small.
    + intros Hfin. now apply eqb_sub_zero.
    + now apply modal_member_not_outlier.
    + simpl.
      rewrite (in_group_outliers outlier_z min_score_diff cg ms m h Hlab Hms Hp).
      rewrite modal_member_not_outlier; [discriminate|exact Hpos|exact Heq].
  - now apply non_outliers_nonempty.
  - intros u g. apply (process_content_group_total hits); auto.
  - exists [ ("a", {| content := [1%Z]; Score := 0 |});
             ("b", {| content := [1%Z]; Score := 2 |}) ],
           [ {| scaffold := "a"; representative := "A";
                dereplication_status := redundant |};
             {| scaffold := "b"; representative := "A";
                dereplication_status := redundant |} ],
           [ ("a", {| content := [1%Z]; Score := 0 |});
             ("b", {| content := [1%Z]; Score := 2 |}) ].
    split; [repeat constructor; simpl; intuition discriminate|].
    split; [apply numeric_Forall; repeat constructor|].
    split.
    { eexists ("A", ["a"; "b"]), _. split; [vm_compute; now left|].
      split; [vm_compute; reflexivity|]. vm_compute. now left. }
    split; [vm_compute; reflexivity|].
    split; [vm_compute; reflexivity|].
    split; [vm_compute; reflexivity|].
    intros u g. reflexivity.
Qed.

(** ** Concrete runs *)

(** C1, counterexample. The representative of [outlier_rep_table] passes both
    outlier tests of its content group (z-score test and distance 4 to the
    modal score 5), and keeps the status dereplication_representative. *)
Lemma outlier_representative_not_flagged :
  exists t' g',
    recover_hits outlier_rep_hits outlier_rep_table false false 2 0.1 zero_rng
    = Ok (t', g') /\
    In outlier_rep_hits (content_groups outlier_rep_hits) /\
    mode (group_scores outlier_rep_hits) = Some 5%float /\
    member_outlier 2 0.1 5 outlier_rep_hits ("R", mk_hit [2%Z; 1%Z] 9) = true /\
    loc_status t' "R" = Ok dereplication_representative.
Proof.
  do 2 eexists. split; [vm_compute; reflexivity|].
  split; [vm_compute; left; reflexivity|].
  split; [vm_compute; reflexivity|].
  split; vm_compute; reflexivity.
Qed.

(** C3, counterexample. On scenario C with outlier_z = 2 and
    min_score_diff = 0.1 the hit with score 9 is not flagged for its score:
    its z-score is below 2, and with the generator drawing 0 it stays
    redundant. *)
Lemma scenario_c_score_9_not_flagged :
  exists t' g',
    recover_hits scenario_c_hits scenario_c_table false false 2 0.1 zero_rng
    = Ok (t', g') /\
    loc_status t' "h4" = Ok redundant /\
    zscore_of [5; 5; 5; 9]%float 9 = 1.7320508075688774%float /\
    zabs_ge (zscore_of [5; 5; 5; 9]%float 9) 2 = false.
Proof.
  do 2 eexists. split; [vm_compute; reflexivity|].
  split; [vm_compute; reflexivity|].
  split; vm_compute; reflexivity.
Qed.

(** C3 (as amended). On scenario C with outlier_z = 2 and
    min_score_diff = 0.1, whatever the generator draws: no hit is flagged
    readded_by_outlier_score (the z-score of 9 is computed as
    1.7320508075688774, the square root of 3 up to rounding), the
    representative keeps its status, and exactly one of the four hits of the
    group, the one drawn, becomes readded_by_cluster_content while the other
    three stay redundant. *)
Theorem scenario_c_one_readded_by_content (g : rng) :
  exists t' g' k,
    recover_hits scenario_c_hits scenario_c_table false false 2 0.1 g
    = Ok (t', g') /\
    (k < 4)%nat /\
    loc_status t' "R" = Ok dereplication_representative /\
    (forall m, loc_status t' m <> Ok readded_by_outlier_score) /\
    forall i, (i < 4)%nat ->
              loc_status t' (nth i scenario_c_members "")
              = Ok (if (i =? k)%nat then readded_by_cluster_content else redundant).
Proof.
  destruct g as [d p].
  pose proof (Nat.mod_upper_bound (d p) 4 ltac:(discriminate)) as Hk.
  assert (Hrun : forall k, (k < 4)%nat -> d p mod 4 = k ->
            exists t' g',
              recover_hits scenario_c_hits scenario_c_table false false 2 0.1
                           {| draws := d; pos := p |} = Ok (t', g') /\
              loc_status t' "R" = Ok dereplication_representative /\
              (forall m, loc_status t' m <> Ok readded_by_outlier_score) /\
              forall i, (i < 4)%nat ->
                        loc_status t' (nth i scenario_c_members "")
                        = Ok (if (i =? k)%nat then readded_by_cluster_content
                              else redundant)).
  { intros k Hlt Hmod.
    assert (Heq : recover_hits scenario_c_hits scenario_c_table false false 2 0.1
                               {| draws := d; pos := p |}
                  = Ok (sort_values
                          (set_status scenario_c_table (nth k scenario_c_members "h1")
                                      readded_by_cluster_content),
                        {| draws := d; pos := S p |})).
    { unfold recover_hits, bind, ret.
      replace (recover_updates scenario_c_hits scenario_c_table false false 2 0.1
                               {| draws := d; pos := p |})
        with (Ok (set_status scenario_c_table (nth k scenario_c_members "h1")
                             readded_by_cluster_content,
                  {| draws := d; pos := S p |})); [reflexivity|].
      rewrite <- Hmod. reflexivity. }
    do 2 eexists. split; [exact Heq|].
    destruct k as [|[|[|[|k]]]]; try lia;
      (split; [vm_compute; reflexivity|]);
      (split;
       [intros m; vm_compute;
        repeat match goal with
               | |- context [if ?b then _ else _] => destruct b
               end; discriminate
       |intros i Hi; destruct i as [|[|[|[|i]]]]; try lia; vm_compute; reflexivity]). }
  destruct (Hrun (d p mod 4) Hk eq_refl) as (t' & g' & H).
  exists t', g', (d p mod 4). tauto.
Qed.

(** The comparisons are those of float64.  With the scores 5, 5, 5, 5, 6 the
    z-score of 6 is computed as 1.9999999999999998 and misses the threshold
    2; the distance of 5.1 to 5 is computed as 0.09999999999999964 and
    misses the threshold 0.1. *)
Example threshold_rounding :
  zscore_of [5; 5; 5; 5; 6]%float 6 = 1.9999999999999998%float /\
  zabs_ge (zscore_of [5; 5; 5; 5; 6]%float 6) 2 = false /\
  abs (5.1 - 5)%float = 0.099999999999999645%float /\
  (0.1 <=? abs (5.1 - 5))%float = false /\
  recover_hits threshold_hits threshold_table false false 2 0.1 zero_rng
  = Ok (threshold_table, zero_rng).
Proof. repeat split; vm_compute; reflexivity. Qed.

(** ** The z-score statistic *)

Lemma np_std_population (a : list float) : np_std 0 a = population_std a.
Proof.
  unfold np_std, np_var, population_std. now rewrite map_map, Nat.sub_0_r.
Qed.

(** C4, counterexample. In a group with the two scores 0 and 2 the member
    with score 2 has z-score 1, while the quotient by the sample standard
    deviation is 0.707..., the float64 value of 1 / sqrt 2. *)
Lemma zscore_is_not_sample_zscore :
  nth 1 (zscore [0; 2]%float) nan = 1%float /\
  sample_zscore [0; 2]%float 2 = 0.70710678118654746%float /\
  (sample_zscore [0; 2]%float 2 =? 1)%float = false.
Proof. repeat split; vm_compute; reflexivity. Qed.

Lemma isconst_singleton (x : float) : isconst [x] = negb (is_nan x).
Proof.
  unfold isconst, is_nan. simpl. rewrite andb_true_r.
  now destruct (x =? x)%float.
Qed.

Lemma zscore_singleton (x : float) : forallb isna (zscore [x]) = true.
Proof.
  destruct (is_nan x) eqn:E.
  - apply is_nan_eq in E. subst x. vm_compute. reflexivity.
  - apply isconst_zscore. now rewrite isconst_singleton, E.
Qed.

(** A group of equal scores has a mode, and takes the content branch. *)
Lemma isconst_mode (a : list float) :
  a <> [] -> isconst a = true -> exists ms, mode a = Some ms.
Proof.
  intros Hne Hc. destruct a as [|x a]; [congruence|].
  destruct (mode_spec (x :: a)) as (ms & Hms & _); [|eauto].
  exists x. split; [now left|].
  unfold isconst in Hc. simpl in Hc. apply andb_true_iff in Hc as (Hx & _).
  unfold is_nan. now rewrite Hx.
Qed.

Lemma isconst_content_branch (t : table) nbs oz msd (u : table)
      (cg : hits_table) (g : rng) :
  cg <> [] -> isconst (group_scores cg) = true ->
  process_content_group t nbs oz msd u cg g
  = flag_content t u (group_labels cg) g.
Proof.
  intros Hne Hc. unfold process_content_group.
  fold (group_labels cg) (group_scores cg).
  destruct (isconst_mode (group_scores cg)) as (ms & ->);
    [destruct cg; [congruence|discriminate]|exact Hc|].
  now rewrite (isconst_zscore _ Hc), orb_true_r.
Qed.

(** C4 (as amended). In a content group whose scores are not all the same,
    the z-score of a member is (score - mean) / std in float64, where std
    is the population standard deviation of the group's scores
    (denominator n, the default of scipy.stats.zscore).  In a group of one
    member, and in any group of equal scores, every z-score is NaN: no
    member is a score outlier, and the group goes through the content-only
    branch. *)
Theorem zscore_population_std (a : list float) :
  zscore a = map (zscore_of a) a /\
  np_std 0 a = population_std a /\
  (isconst a = false ->
   forall x, zscore_of a x = ((x - np_mean a) / population_std a)%float) /\
  (isconst a = true ->
   forallb isna (zscore a) = true /\
   forall oz msd ms labels, outliers_of oz msd ms labels (zscore a) a = []) /\
  (forall x, forallb isna (zscore [x]) = true) /\
  (forall t not_by_score outlier_z min_score_diff u cg g,
      cg <> [] -> isconst (group_scores cg) = true ->
      process_content_group t not_by_score outlier_z min_score_diff u cg g
      = flag_content t u (group_labels cg) g) /\
  (forall t not_by_score outlier_z min_score_diff u m h g,
      is_nan (Score h) = false ->
      process_content_group t not_by_score outlier_z min_score_diff u [(m, h)] g
      = flag_content t u [m] g).
Proof.
  split; [apply zscore_map|]. split; [apply np_std_population|].
  split; [|split; [|split; [|split]]].
  - intros Hc x. unfold zscore_of. now rewrite Hc, np_std_population.
  - intros Hc. split; [now apply isconst_zscore|].
    intros oz msd ms labels. unfold outliers_of, zscore. rewrite Hc.
    assert (H : forall l : list (string * (float * float)),
               Forall (fun e => fst (snd e) = nan) l ->
               filter (fun e => is_outlier oz msd ms (fst (snd e)) (snd (snd e))) l
               = []).
    { induction 1 as [|e l He _ IH]; [reflexivity|]. simpl.
      unfold is_outlier at 1. now rewrite He, zabs_ge_nan. }
    rewrite H; [reflexivity|]. clear. revert labels.
    induction a as [|x a IH]; intros [|lab labels]; simpl; constructor; auto.
  - apply zscore_singleton.
  - intros. now apply isconst_content_branch.
  - intros t nbs oz msd u m h g Hnan.
    apply (isconst_content_branch t nbs oz msd u [(m, h)] g); [discriminate|].
    unfold group_scores. simpl. now rewrite isconst_singleton, Hnan.
Qed.

(** ** The table built by parse_dereplication_clusters *)

Lemma remap_type_label_base (label : string) (st : status) :
  remap_type_label label = Ok st -> base_status st.
Proof.
  unfold remap_type_label, base_status.
  destruct (String.eqb label "representative_to_self"); [intros H; inversion H; auto|].
  destruct (String.eqb label "within_cutoffs_requested");
    [intros H; inversion H; auto|].
  discriminate.
Qed.

Lemma zip3_base (a r : list string) (s : list status) :
  Forall base_status s ->
  Forall (fun x => base_status (assembly_status x)) (zip3 a r s).
Proof.
  revert r s. induction a as [|x a IH]; intros [|y r] [|z s] H; simpl;
    try constructor.
  - inversion H; assumption.
  - inversion H; subst. now apply IH.
Qed.

Lemma read_clustering_base (records : list clustering_record) (df : list assembly_row) :
  read_clustering records = Ok df ->
  Forall (fun x => base_status (assembly_status x)) df.
Proof.
  unfold read_clustering. intros H.
  apply rbind_Ok in H as (assemblies & _ & H).
  apply rbind_Ok in H as (representatives & _ & H).
  apply rbind_Ok in H as (statuses & Hst & H).
  inversion H; subst; clear H.
  eapply Permutation_Forall; [apply stable_sort_perm|].
  apply zip3_base. apply rmap_Ok in Hst.
  induction Hst as [|l st ls sts Hl _ IH]; constructor; auto.
  eapply remap_type_label_base; eauto.
Qed.

Lemma dict_set_In (d : table) (r x : row) :
  In x (dict_set d r) -> In x d \/ x = r.
Proof.
  induction d as [|y d IH]; simpl.
  - intros [<-|[]]. now right.
  - destruct (String.eqb (scaffold y) (scaffold r)); simpl.
    + intros [<-|H]; auto.
    + intros [<-|H]; auto. destruct (IH H); auto.
Qed.

Lemma dict_set_scaffolds (d : table) (r : row) (s : string) :
  In s (map scaffold (dict_set d r)) -> In s (map scaffold d) \/ s = scaffold r.
Proof.
  intros H. apply in_map_iff in H as (x & <- & Hx).
  apply dict_set_In in Hx as [Hx| ->]; [left; now apply in_map|now right].
Qed.

Lemma dict_set_NoDup (d : table) (r : row) :
  NoDup (map scaffold d) -> NoDup (map scaffold (dict_set d r)).
Proof.
  induction d as [|y d IH]; simpl; intros H.
  - constructor; [intros []|constructor].
  - inversion H as [|? ? Hy Hd]; subst.
    destruct (String.eqb (scaffold y) (scaffold r)) eqn:E; simpl.
    + apply String.eqb_eq in E. rewrite <- E. now constructor.
    + constructor; [|auto]. intros Hin.
      apply dict_set_scaffolds in Hin as [Hin|Hin]; [contradiction|].
      apply String.eqb_neq in E. contradiction.
Qed.

Lemma dict_set_ok (d : table) (r : row) :
  table_ok d -> base_status (dereplication_status r) -> table_ok (dict_set d r).
Proof.
  intros (Hnd & Hb) Hr. split; [now apply dict_set_NoDup|].
  unfold base_table in *. rewrite Forall_forall in *. intros x Hx.
  apply dict_set_In in Hx as [Hx| ->]; [now apply Hb|exact Hr].
Qed.

Lemma expand_assembly_ok (pairs : list (string * string)) (d : table)
      (a : assembly_row) :
  table_ok d -> base_status (assembly_status a) ->
  table_ok (expand_assembly pairs d a).
Proof.
  unfold expand_assembly. generalize (map_scaffolds (assembly a) pairs).
  intros l. revert d. induction l as [|s l IH]; simpl; intros d Hd Ha; [exact Hd|].
  apply IH; [|exact Ha]. now apply dict_set_ok.
Qed.

Lemma Permutation_table_ok (d d' : table) :
  Permutation d d' -> table_ok d -> table_ok d'.
Proof.
  intros Hp (Hnd & Hb). split.
  - eapply Permutation_NoDup; [|exact Hnd]. now apply Permutation_map.
  - unfold base_table. eapply Permutation_Forall; eauto.
Qed.

(** The table handed to [recover_hits]: unique scaffolds, the two statuses of
    skDER, sorted. *)
Lemma parse_dereplication_clusters_table (records : list clustering_record)
      (pairs : list (string * string)) (t : table) :
  parse_dereplication_clusters records pairs = Ok t ->
  NoDup (map scaffold t) /\ base_table t /\ sort_values t = t.
Proof.
  unfold parse_dereplication_clusters. intros H.
  apply rbind_Ok in H as (df & Hdf & H).
  apply rbind_Ok in H as (recs & Hrecs & H).
  inversion H; subst; clear H.
  assert (Hrecs' : recs = df).
  { unfold to_dict_index in Hrecs.
    destruct (has_duplicate (map assembly df)); congruence. }
  subst recs. clear Hrecs. apply read_clustering_base in Hdf.
  assert (Hok : table_ok (fold_left (expand_assembly pairs) df [])).
  { assert (H0 : table_ok []) by (split; constructor).
    revert H0. generalize (@nil row). induction Hdf as [|a df Ha _ IH]; simpl;
      intros d Hd; [exact Hd|].
    apply IH. now apply expand_assembly_ok. }
  apply (Permutation_table_ok _ _ (sort_values_perm _)) in Hok.
  destruct Hok as (Hnd & Hb). split; [exact Hnd|]. split; [exact Hb|].
  apply stable_sort_idem, row_leb_total.
Qed.

(** ** The disabled recovery *)

(** C6. With content recovery disabled, recover_hits draws nothing and
    returns the rows of the input table with their statuses, sorted; the
    table built by parse_dereplication_clusters is sorted already and is
    returned as it is, holding no status but dereplication_representative and
    redundant. *)
Theorem no_content_recovery_keeps_table (hits : hits_table) (t : table)
        (not_by_score : bool) (outlier_z min_score_diff : float) (g : rng) :
  recover_hits hits t true not_by_score outlier_z min_score_diff g
  = Ok (sort_values t, g) /\
  Permutation t (sort_values t) /\
  (Sorted row_le t -> sort_values t = t) /\
  (forall records pairs,
      parse_dereplication_clusters records pairs = Ok t ->
      recover_hits hits t true not_by_score outlier_z min_score_diff g = Ok (t, g) /\
      base_table t /\
      forall m, loc_status t m <> Ok readded_by_outlier_score).
Proof.
  split; [reflexivity|]. split; [apply sort_values_perm|].
  split; [apply sort_values_id|].
  intros records pairs Hparse.
  destruct (parse_dereplication_clusters_table _ _ _ Hparse) as (_ & Hb & Hs).
  split; [unfold recover_hits, bind, recover_updates, ret; simpl; now rewrite Hs|].
  split; [exact Hb|].
  intros m Hm. destruct (base_table_status _ _ _ Hb Hm); discriminate.
Qed.

(** ** The accession pattern *)

Lemma string_app_assoc (a b c : string) : (a ++ b) ++ c = a ++ (b ++ c).
Proof.
  induction a as [|x a IH]; simpl; [reflexivity|]. now rewrite IH.
Qed.

Lemma take_class_sound (p : ascii -> bool) (n : nat) (s m rest : string) :
  take_class p n s = Some (m, rest) ->
  s = m ++ rest /\ String.length m = n /\ string_forallb p m = true.
Proof.
  revert s m rest. induction n as [|n IH]; simpl; intros s m rest H.
  - inversion H; subst. auto.
  - destruct s as [|c s]; [discriminate|].
    destruct (p c) eqn:Ec; [|discriminate].
    destruct (take_class p n s) as [[m' rest']|] eqn:E; [|discriminate].
    inversion H; subst. destruct (IH _ _ _ E) as (-> & Hlen & Hall).
    simpl. rewrite Ec, Hall, Hlen. auto.
Qed.

Lemma take_class_complete (p : ascii -> bool) (m rest : string) :
  string_forallb p m = true ->
  take_class p (String.length m) (m ++ rest) = Some (m, rest).
Proof.
  induction m as [|c m IH]; simpl; intros H; [reflexivity|].
  apply andb_true_iff in H as (Hc & Hm). now rewrite Hc, IH.
Qed.

Lemma span_class_split (p : ascii -> bool) (s : string) :
  string_forallb p (span_class p s) = true /\
  exists rest, s = span_class p s ++ rest.
Proof.
  induction s as [|c s (Hall & rest & Hrest)]; simpl.
  - split; [reflexivity|]. now exists EmptyString.
  - destruct (p c) eqn:Ec; simpl.
    + rewrite Ec, Hall. split; [reflexivity|].
      exists rest. now rewrite <- Hrest.
    + split; [reflexivity|]. now exists (String c s).
Qed.

Lemma span_class_nonempty (p : ascii -> bool) (v post : string) :
  v <> EmptyString -> string_forallb p v = true ->
  span_class p (v ++ post) <> EmptyString.
Proof.
  destruct v as [|c v]; [congruence|]. simpl. intros _ H.
  apply andb_true_iff in H as (Hc & _). rewrite Hc. discriminate.
Qed.

Lemma match_accession_sound (s m : string) :
  match_accession s = Some m ->
  accession_shape m /\ exists post, s = m ++ post.
Proof.
  unfold match_accession.
  destruct s as [|g s]; [discriminate|].
  destruct (Ascii.ascii_dec g "G") as [->|Hg];
    [|destruct g as [[] [] [] [] [] [] [] []]; try discriminate; congruence].
  destruct s as [|c0 s]; [discriminate|].
  destruct (Ascii.ascii_dec c0 "C") as [->|Hc0];
    [|destruct c0 as [[] [] [] [] [] [] [] []]; try discriminate; congruence].
  destruct s as [|c s]; [discriminate|].
  destruct s as [|u s]; [discriminate|].
  destruct (Ascii.ascii_dec u "_") as [->|Hu];
    [|destruct u as [[] [] [] [] [] [] [] []]; try discriminate; congruence].
  destruct (is_gc_class c) eqn:Ec; [|discriminate].
  destruct (take_class is_digit 9 s) as [[digits rest]|] eqn:Et; [|discriminate].
  destruct rest as [|dot s2]; [discriminate|].
  destruct (Ascii.ascii_dec dot ".") as [->|Hdot];
    [|destruct dot as [[] [] [] [] [] [] [] []]; try discriminate; congruence].
  destruct (take_class_sound _ _ _ _ _ Et) as (-> & Hlen & Hdigits).
  destruct (span_class_split is_version_digit s2) as (Hver & post & Hpost).
  destruct (span_class is_version_digit s2) as [|v0 v] eqn:Ev; [discriminate|].
  intros H. inversion H; subst m; clear H. split.
  - exists c, digits, (String v0 v). repeat split; auto. discriminate.
  - exists post. simpl. rewrite string_app_assoc. simpl. simpl in Hpost.
    now rewrite <- Hpost.
Qed.

Lemma match_accession_complete (m post : string) :
  accession_shape m -> exists a, match_accession (m ++ post) = Some a.
Proof.
  intros (c & digits & version & -> & Hc & Hlen & Hdigits & Hne & Hver).
  unfold match_accession. cbn [append]. rewrite Hc, string_app_assoc.
  cbn [append]. rewrite <- Hlen, (take_class_complete _ _ _ Hdigits).
  pose proof (span_class_nonempty _ _ post Hne Hver) as Hspan.
  destruct (span_class is_version_digit (version ++ post)); [congruence|eauto].
Qed.

Lemma first_accession_sound (path a : string) :
  first_accession path = Some a ->
  accession_shape a /\ exists pre post, path = pre ++ a ++ post.
Proof.
  induction path as [|c path IH].
  - simpl. destruct (match_accession EmptyString) eqn:E; discriminate.
  - cbn [first_accession].
    destruct (match_accession (String c path)) as [a'|] eqn:E.
    + intros H. inversion H; subst a'.
      destruct (match_accession_sound _ _ E) as (Hshape & post & Hpost).
      split; [exact Hshape|]. now exists EmptyString, post.
    + intros H. destruct (IH H) as (Hshape & pre & post & ->).
      split; [exact Hshape|]. now exists (String c pre), post.
Qed.

(** [extract_assembly] fails exactly on the paths without a match. *)
Lemma first_accession_None (path : string) :
  first_accession path = None <-> no_accession path.
Proof.
  split.
  - induction path as [|c path IH]; cbn [first_accession].
    + destruct (match_accession EmptyString) eqn:E; [discriminate|].
      intros _ pre m post Hpath Hshape.
      destruct pre; [|discriminate]. simpl in Hpath.
      destruct (match_accession_complete m post Hshape) as (a & Ha).
      rewrite <- Hpath in Ha. congruence.
    + destruct (match_accession (String c path)) eqn:E; [discriminate|].
      intros H pre m post Hpath Hshape. destruct pre as [|c' pre].
      * simpl in Hpath.
        destruct (match_accession_complete m post Hshape) as (a & Ha).
        rewrite <- Hpath in Ha. congruence.
      * simpl in Hpath. inversion Hpath; subst.
        now apply (IH H pre m post).
  - intros Hno. destruct (first_accession path) as [a|] eqn:E; [|reflexivity].
    destruct (first_accession_sound _ _ E) as (Hshape & pre & post & Hpath).
    exfalso. now apply (Hno pre a post).
Qed.

Lemma rmap_extract_assembly_raises (l : list string) (x : string) :
  In x l -> first_accession x = None ->
  rmap extract_assembly l = Raise IndexError.
Proof.
  induction l as [|y l IH]; simpl; [tauto|]. intros Hin Hx.
  destruct (extract_assembly y) as [a|e] eqn:E; simpl.
  - destruct Hin as [->|Hin]; [|now rewrite IH].
    unfold extract_assembly in E. rewrite Hx in E. discriminate.
  - unfold extract_assembly in E. destruct (first_accession y); congruence.
Qed.

Lemma rmap_extract_assembly_cases (l : list string) :
  (exists ys, rmap extract_assembly l = Ok ys) \/
  rmap extract_assembly l = Raise IndexError.
Proof.
  induction l as [|y l IH]; simpl; [left; eauto|].
  destruct (extract_assembly y) as [a|e] eqn:E; simpl.
  - destruct IH as [(ys & ->)| ->]; simpl; [left; eauto|now right].
  - right. unfold extract_assembly in E.
    destruct (first_accession y); congruence.
Qed.

(** C8. When the assembly path or the representative path of a clustering
    record holds no match of the accession pattern, extract_assembly raises
    on it (IndexError, from indexing the empty list of matches), the builder
    raises with it and builds no table, and the steps of main end there:
    recover_hits is not run. *)
Theorem unparseable_accession_aborts (records : list clustering_record)
        (pairs : list (string * string)) (hits : hits_table)
        (not_by_content not_by_score : bool) (outlier_z min_score_diff : float)
        (g : rng) (r : clustering_record) :
  In r records ->
  no_accession (assembly_path r) \/ no_accession (representative_path r) ->
  (extract_assembly (assembly_path r) = Raise IndexError \/
   extract_assembly (representative_path r) = Raise IndexError) /\
  read_clustering records = Raise IndexError /\
  parse_dereplication_clusters records pairs = Raise IndexError /\
  main_steps records pairs hits not_by_content not_by_score outlier_z
             min_score_diff g = Raise IndexError.
Proof.
  intros Hin Hno.
  assert (Hread : read_clustering records = Raise IndexError).
  { unfold read_clustering. destruct Hno as [Hno|Hno].
    - rewrite (rmap_extract_assembly_raises _ (assembly_path r)); [reflexivity| |].
      + now apply in_map.
      + now apply first_accession_None.
    - destruct (rmap_extract_assembly_cases (map assembly_path records))
        as [(ys & ->)| ->]; [|reflexivity].
      simpl.
      rewrite (rmap_extract_assembly_raises _ (representative_path r));
        [reflexivity| |].
      + now apply in_map.
      + now apply first_accession_None. }
  split; [|split; [exact Hread|split]].
  - unfold extract_assembly.
    destruct Hno as [Hno|Hno]; apply first_accession_None in Hno; rewrite Hno; auto.
  - unfold parse_dereplication_clusters. now rewrite Hread.
  - unfold main_steps, bind, lift, parse_dereplication_clusters.
    now rewrite Hread.
Qed.

Section FilterSort.
Context {A : Type} (leb : A -> A -> bool).
Hypothesis leb_total : forall a b, leb a b = true \/ leb b a = true.
Hypothesis leb_trans :
  forall a b c, leb a b = true -> leb b c = true -> leb a c = true.

Lemma insert_sorted_first (x : A) (l : list A) :
  Forall (fun z => leb x z = true) l -> insert_sorted leb x l = x :: l.
Proof.
  destruct 1 as [|z l Hz _]; simpl; [reflexivity|]. now rewrite Hz.
Qed.

Lemma filter_insert_sorted (p : A -> bool) (x : A) (l : list A) :
  StronglySorted (le_of leb) l ->
  filter p (insert_sorted leb x l)
  = if p x then insert_sorted leb x (filter p l) else filter p l.
Proof.
  induction 1 as [|y l Hs IH Hall]; simpl.
  - destruct (p x); reflexivity.
  - destruct (leb x y) eqn:Exy; simpl.
    + destruct (p x); [|reflexivity].
      symmetry. apply insert_sorted_first.
      destruct (p y).
      * constructor; [exact Exy|].
        rewrite Forall_forall in *. intros z Hz. apply filter_In in Hz as (Hz & _).
        apply leb_trans with y; [exact Exy|now apply Hall].
      * rewrite Forall_forall in *. intros z Hz. apply filter_In in Hz as (Hz & _).
        apply leb_trans with y; [exact Exy|now apply Hall].
    + rewrite IH. destruct (p y), (p x); simpl; try reflexivity.
      now rewrite Exy.
Qed.

(** Filtering commutes with the sort. *)
Lemma filter_stable_sort (p : A -> bool) (l : list A) :
  filter p (stable_sort leb l) = stable_sort leb (filter p l).
Proof.
  induction l as [|x l IH]; simpl; [reflexivity|].
  rewrite filter_insert_sorted.
  - rewrite IH. destruct (p x); reflexivity.
  - apply Sorted_StronglySorted.
    + intros a b c. apply leb_trans.
    + now apply stable_sort_Sorted.
Qed.
End FilterSort.

(** C9. get_dereplicated_scaffolds is a total function: it returns the
    scaffolds of the rows whose status is not redundant, in the order of the
    table; on the table returned by recover_hits, which is sorted by
    representative and status, the rows it keeps are in that sorted order;
    on a table of redundant rows it returns the empty list. *)
Theorem retained_scaffolds_filter (t : table) :
  get_dereplicated_scaffolds t = map scaffold (filter kept t) /\
  (forall m,
      In m (get_dereplicated_scaffolds t) <->
      exists r, In r t /\ scaffold r = m /\ dereplication_status r <> redundant) /\
  (Forall (fun r => dereplication_status r = redundant) t ->
   get_dereplicated_scaffolds t = []) /\
  get_dereplicated_scaffolds (sort_values t)
  = map scaffold (stable_sort row_leb (filter kept t)) /\
  (forall hits base not_by_content not_by_score outlier_z min_score_diff g g',
      recover_hits hits base not_by_content not_by_score outlier_z
                   min_score_diff g = Ok (t, g') ->
      Sorted row_le t /\ Sorted row_le (filter kept t)).
Proof.
  split; [reflexivity|]. split; [|split; [|split]].
  - intros m. unfold get_dereplicated_scaffolds. fold kept.
    rewrite in_map_iff. split.
    + intros (r & <- & Hr). apply filter_In in Hr as (Hr & Hk).
      exists r. split; [exact Hr|]. split; [reflexivity|now apply kept_iff].
    + intros (r & Hr & <- & Hne). exists r. split; [reflexivity|].
      apply filter_In. split; [exact Hr|now apply kept_iff].
  - intros Hall. unfold get_dereplicated_scaffolds.
    induction Hall as [|r t Hr _ IH]; simpl; [reflexivity|].
    rewrite Hr. simpl. exact IH.
  - unfold get_dereplicated_scaffolds, sort_values. fold kept. f_equal.
    apply filter_stable_sort.
    + apply row_leb_total.
    + apply row_leb_trans.
  - intros hits base nbc nbs oz msd g g' Hrun.
    apply recover_hits_run in Hrun as (u & _ & ->).
    split; [apply sort_values_Sorted|].
    apply Sorted_filter; [apply row_leb_trans|apply sort_values_Sorted].
Qed.

(** ** Instances of the theorems *)

Lemma outlier_rep_table_unique : NoDup (map scaffold outlier_rep_table).
Proof.
  repeat constructor; simpl; intuition discriminate.
Defined.

Lemma scenario_c_table_unique : NoDup (map scaffold scenario_c_table).
Proof.
  repeat constructor; simpl; intuition discriminate.
Defined.

Lemma outlier_hit_group :
  content_group_of outlier_hit_hits outlier_rep_table outlier_hit_hits.
Proof.
  exists ("A1", ["R"; "h1"; "h2"; "h3"; "h4"; "h5"]), outlier_hit_hits.
  split; [vm_compute; left; reflexivity|].
  split; [reflexivity|vm_compute; left; reflexivity].
Defined.

Lemma recover_hits_monotonic_witness :
  NoDup (map scaffold scenario_c_table) /\
  recover_hits scenario_c_hits scenario_c_table false false 2 0.1 zero_rng
  = Ok (scenario_c_result, {| draws := draws zero_rng; pos := 1 |}) /\
  incl (get_dereplicated_scaffolds scenario_c_table)
       (get_dereplicated_scaffolds scenario_c_result).
Proof.
  assert (Hrun : recover_hits scenario_c_hits scenario_c_table false false 2 0.1
                              zero_rng
                 = Ok (scenario_c_result, {| draws := draws zero_rng; pos := 1 |}))
    by (vm_compute; reflexivity).
  split; [exact scenario_c_table_unique|]. split; [exact Hrun|].
  exact (proj1 (proj2 (recover_hits_monotonic
                         scenario_c_hits scenario_c_table false false 2 0.1
                         zero_rng _ _ scenario_c_table_unique Hrun))).
Defined.

Lemma outlier_hit_numeric : numeric outlier_hit_hits.
Proof. apply numeric_Forall. repeat constructor. Defined.

Lemma readded_by_score_iff_outlier_witness :
  NoDup (map scaffold outlier_rep_table) /\
  base_table outlier_rep_table /\
  recover_hits outlier_hit_hits outlier_rep_table false false 2 0.1 zero_rng
  = Ok (outlier_hit_result, zero_rng) /\
  content_group_of outlier_hit_hits outlier_rep_table outlier_hit_hits /\
  forallb isna (zscore (group_scores outlier_hit_hits)) = false /\
  In ("h5", mk_hit [2%Z; 1%Z] 9) outlier_hit_hits /\
  scores_vary (group_scores outlier_hit_hits) /\
  exists ms,
    mode (group_scores outlier_hit_hits) = Some ms /\
    smallest_mode (group_scores outlier_hit_hits) ms /\
    (loc_status outlier_rep_table "h5" <> Ok dereplication_representative ->
     (loc_status outlier_hit_result "h5" = Ok readded_by_outlier_score <->
      (2 <=? abs ((9 - np_mean (group_scores outlier_hit_hits))
                  / np_std 0 (group_scores outlier_hit_hits)))%float = true /\
      (0.1 <=? abs (9 - ms))%float = true)) /\
    (loc_status outlier_rep_table "h5" = Ok dereplication_representative ->
     loc_status outlier_hit_result "h5" = Ok dereplication_representative).
Proof.
  assert (Hbase : base_table outlier_rep_table).
  { unfold base_table, outlier_rep_table.
    repeat (apply Forall_cons; [simpl; auto|]). apply Forall_nil. }
  assert (Hrun : recover_hits outlier_hit_hits outlier_rep_table false false 2 0.1
                              zero_rng = Ok (outlier_hit_result, zero_rng))
    by (vm_compute; reflexivity).
  assert (Hnan : forallb isna (zscore (group_scores outlier_hit_hits)) = false)
    by (vm_compute; reflexivity).
  assert (Hin : In ("h5", mk_hit [2%Z; 1%Z] 9) outlier_hit_hits).
  { simpl. auto 10. }
  split; [exact outlier_rep_table_unique|]. split; [exact Hbase|].
  split; [exact Hrun|]. split; [exact outlier_hit_group|].
  split; [exact Hnan|]. split; [exact Hin|].
  exact (readded_by_score_iff_outlier
           outlier_hit_hits outlier_rep_table 2 0.1 zero_rng zero_rng
           outlier_hit_result outlier_hit_hits "h5" (mk_hit [2%Z; 1%Z] 9)
           outlier_rep_table_unique Hbase Hrun outlier_hit_group Hnan Hin).
Defined.

Lemma modal_member_never_outlier_witness :
  NoDup (map scaffold outlier_rep_table) /\
  numeric outlier_hit_hits /\
  content_group_of outlier_hit_hits outlier_rep_table outlier_hit_hits /\
  (0 <? 0.1)%float = true /\
  drop_labels (group_labels outlier_hit_hits)
              (group_outliers 2 0.1 outlier_hit_hits) <> [].
Proof.
  assert (Hpos : (0 <? 0.1)%float = true) by reflexivity.
  split; [exact outlier_rep_table_unique|]. split; [exact outlier_hit_numeric|].
  split; [exact outlier_hit_group|]. split; [exact Hpos|].
  exact (proj1 (proj2 (modal_member_never_outlier
                         outlier_hit_hits outlier_rep_table false 2 0.1
                         outlier_hit_hits outlier_rep_table_unique
                         outlier_hit_numeric outlier_hit_group Hpos))).
Defined.

Lemma unparseable_accession_aborts_witness :
  In unparseable_record [unparseable_record] /\
  (no_accession (assembly_path unparseable_record) \/
   no_accession (representative_path unparseable_record)) /\
  parse_dereplication_clusters [unparseable_record] [] = Raise IndexError /\
  main_steps [unparseable_record] [] scenario_c_hits false false 2 0.1 zero_rng
  = Raise IndexError.
Proof.
  assert (Hin : In unparseable_record [unparseable_record]) by (left; reflexivity).
  assert (Hno : no_accession (assembly_path unparseable_record) \/
                no_accession (representative_path unparseable_record)).
  { left. apply first_accession_None. vm_compute. reflexivity. }
  split; [exact Hin|]. split; [exact Hno|].
  exact (proj2 (proj2 (unparseable_accession_aborts
                         [unparseable_record] [] scenario_c_hits false false 2
                         0.1 zero_rng unparseable_record Hin Hno))).
Defined.

Example extract_assembly_example :
  extract_assembly "data/genomes/GCF_000005845.2_ASM584v2_genomic.fna.gz"
  = Ok "GCF_000005845.2".
Proof. reflexivity. Qed.

(** ** Which hits are flagged for their content *)

Section ContentFlags.
Variable hits : hits_table.
Variable t : table.
Variable not_by_score : bool.
Variables outlier_z min_score_diff : float.

Lemma mark_outliers_content (l : list string) (u : table) (m : string) :
  loc_status (mark_outliers t l u) m = Ok readded_by_cluster_content ->
  loc_status u m = Ok readded_by_cluster_content.
Proof.
  intros H. apply mark_outliers_status in H as [H|(H & _)];
    [exact H|discriminate].
Qed.

Lemma content_flag_sound (g g' : rng) (u : table) (m : string) :
  recover_updates hits t false not_by_score outlier_z min_score_diff g
  = Ok (u, g') ->
  loc_status u m = Ok readded_by_cluster_content ->
  loc_status t m = Ok readded_by_cluster_content \/
  drawable hits t not_by_score outlier_z min_score_diff m.
Proof.
  intros Hrun. revert m.
  apply (recover_updates_invariant hits t not_by_score outlier_z min_score_diff
           (fun u => forall m, loc_status u m = Ok readded_by_cluster_content ->
                               loc_status t m = Ok readded_by_cluster_content \/
                               drawable hits t not_by_score outlier_z
                                        min_score_diff m))
    with (g := g) (g' := g');
    [|auto|exact Hrun].
  intros cg a g1 a' g1' Hcg Ha Hstep m Hm.
  apply process_content_group_run in Hstep as (_ & Hstep).
  assert (H1 : forall m,
             loc_status (if score_path not_by_score cg
                         then mark_outliers t (group_outliers outlier_z
                                                 min_score_diff cg) a
                         else a) m
             = Ok readded_by_cluster_content ->
             loc_status t m = Ok readded_by_cluster_content \/
             drawable hits t not_by_score outlier_z min_score_diff m).
  { intros m' Hm'. destruct (score_path not_by_score cg); [|auto].
    apply mark_outliers_content in Hm'. auto. }
  apply flag_content_run in Hstep as [(_ & -> & _)|(Hrep & r & Hr & ->)]; [auto|].
  apply loc_status_set_status in Hm as [(-> & _)|(_ & Hm)]; [|auto].
  right. exists cg. apply choice_Ok in Hr. auto.
Qed.

End ContentFlags.

(** ** The members of two groups with the same hits *)

Section GroupPerm.
Variables cg cg' : hits_table.
Hypothesis cg_perm : Permutation cg cg'.

Lemma group_labels_perm : Permutation (group_labels cg) (group_labels cg').
Proof. unfold group_labels. now apply Permutation_map. Qed.
End GroupPerm.

(** ** The groups of two tables with the same rows *)

Lemma rmap_perm {A B : Type} (f : A -> result B) (l l' : list A) (ys : list B) :
  Permutation l l' -> rmap f l = Ok ys ->
  exists ys', rmap f l' = Ok ys' /\ Permutation ys ys'.
Proof.
  intros Hp. revert ys.
  induction Hp as [|x l l' _ IH|x y l|l1 l2 l3 _ IH1 _ IH2]; intros ys H.
  - exists ys. split; [exact H|apply Permutation_refl].
  - simpl in H. apply rbind_Ok in H as (y & Hy & H).
    apply rbind_Ok in H as (ys0 & Hys0 & H). inversion H; subst.
    destruct (IH _ Hys0) as (ys' & Hys' & Hperm).
    exists (y :: ys'). simpl. rewrite Hy, Hys'. simpl. split; [reflexivity|].
    now constructor.
  - simpl in H. apply rbind_Ok in H as (b1 & Hb1 & H).
    apply rbind_Ok in H as (ys1 & H1 & H).
    apply rbind_Ok in H1 as (b2 & Hb2 & H1).
    apply rbind_Ok in H1 as (ys0 & Hys0 & H1).
    inversion H1; subst. inversion H; subst.
    exists (b2 :: b1 :: ys0). simpl. rewrite Hb1, Hb2, Hys0. simpl.
    split; [reflexivity|apply perm_swap].
  - destruct (IH1 _ H) as (ys2 & H2 & Hp2).
    destruct (IH2 _ H2) as (ys3 & H3 & Hp3).
    exists ys3. split; [exact H3|]. eapply perm_trans; eauto.
Qed.

Lemma genome_group_keys (t : table) (rep : string) :
  map scaffold (filter (fun r => String.eqb (representative r) rep) t)
  = map fst (filter (fun k => String.eqb (snd k) rep) (map row_key t)).
Proof.
  induction t as [|r t IH]; simpl; [reflexivity|].
  destruct (String.eqb (representative r) rep); simpl; now rewrite IH.
Qed.

Lemma Permutation_filter {A : Type} (p : A -> bool) (l l' : list A) :
  Permutation l l' -> Permutation (filter p l) (filter p l').
Proof.
  induction 1 as [|x l l' _ IH|x y l|l1 l2 l3 _ IH1 _ IH2]; simpl.
  - constructor.
  - destruct (p x); [now constructor|exact IH].
  - destruct (p x), (p y); try apply Permutation_refl. apply perm_swap.
  - eapply perm_trans; eauto.
Qed.

Lemma content_group_of_perm (hits : hits_table) (t0 t1 : table) (cg1 : hits_table) :
  Permutation (map row_key t0) (map row_key t1) ->
  content_group_of hits t1 cg1 ->
  exists cg0, content_group_of hits t0 cg0 /\ Permutation cg0 cg1.
Proof.
  intros Hkeys (item1 & hg1 & Hitem1 & Hhg1 & Hcg1).
  destruct (genome_groups_item _ _ Hitem1) as (Hrep & Hlab1).
  destruct item1 as [rep labels1]. simpl in *.
  assert (Hrep0 : In rep (map representative t0)).
  { assert (Hr : forall t, map representative t = map snd (map row_key t)).
    { intros t. rewrite map_map. reflexivity. }
    rewrite Hr in *. eapply Permutation_in; [|exact Hrep].
    apply Permutation_map, Permutation_sym, Hkeys. }
  pose (labels0 := map scaffold
                     (filter (fun r => String.eqb (representative r) rep) t0)).
  assert (Hlabels : Permutation labels1 labels0).
  { subst labels1. unfold labels0. rewrite !genome_group_keys.
    apply Permutation_map, Permutation_filter, Permutation_sym, Hkeys. }
  destruct (rmap_perm _ _ _ _ Hlabels Hhg1) as (hg0 & Hhg0 & Hhg).
  destruct (content_groups_item _ _ Hcg1) as (key & Hkey & ->).
  exists (filter (fun p => content_eqb (content (snd p)) key) hg0). split.
  - exists (rep, labels0), hg0. split; [now apply in_genome_groups|].
    split; [exact Hhg0|]. apply in_content_groups.
    eapply Permutation_in; [|exact Hkey]. now apply Permutation_map.
  - apply Permutation_filter, Permutation_sym, Hhg.
Qed.

Lemma table_ext (t u : table) :
  map row_key u = map row_key t -> NoDup (map scaffold t) ->
  (forall m, loc_status u m = loc_status t m) -> u = t.
Proof.
  revert u. induction t as [|r t IH]; intros [|r' u] Hk Hnd Hst;
    try discriminate; [reflexivity|].
  simpl in Hk. inversion Hk as [[Hs Hr Hkeys]].
  inversion Hnd as [|? ? Hx Hnd']; subst.
  assert (Hrow : r' = r).
  { specialize (Hst (scaffold r)). simpl in Hst.
    rewrite Hs, String.eqb_refl in Hst.
    destruct r, r'. simpl in *. congruence. }
  subst r'. f_equal. apply IH; auto.
  intros m. specialize (Hst m). simpl in Hst.
  destruct (String.eqb (scaffold r) m) eqn:E; [|exact Hst].
  apply String.eqb_eq in E. subst m.
  assert (Hno : forall v, map scaffold v = map scaffold t ->
                          loc_status v (scaffold r) = Raise KeyError).
  { intros v Hv.
    destruct (loc_status v (scaffold r)) as [st|e] eqn:Ev.
    - apply loc_status_scaffold in Ev. rewrite Hv in Ev. contradiction.
    - clear - Ev. induction v as [|x v IHv]; simpl in Ev; [congruence|].
      destruct (String.eqb (scaffold x) (scaffold r)); [discriminate|auto]. }
  rewrite (Hno t eq_refl), (Hno u); [reflexivity|].
  now apply keys_scaffolds.
Qed.

(** ** A second pass *)

Section SecondPass.
Variable hits : hits_table.
Variables t0 t1 : table.
Variable not_by_score : bool.
Variables outlier_z min_score_diff : float.
Hypothesis t0_unique : NoDup (map scaffold t0).
Hypothesis t0_base : base_table t0.
Variables g1 g1' : rng.
Hypothesis first_pass :
  recover_hits hits t0 false not_by_score outlier_z min_score_diff g1
  = Ok (t1, g1').

Lemma first_pass_keys : Permutation (map row_key t0) (map row_key t1).
Proof.
  now destruct (recover_hits_updates _ _ _ _ _ _ _ _ _ t0_unique first_pass).
Qed.

Lemma first_pass_unique : NoDup (map scaffold t1).
Proof.
  now destruct (recover_hits_updates _ _ _ _ _ _ _ _ _ t0_unique first_pass)
    as (_ & H & _).
Qed.

Lemma first_pass_status (m : string) (st : status) :
  loc_status t0 m = Ok st ->
  exists st', loc_status t1 m = Ok st' /\ upgrade st st'.
Proof.
  destruct (recover_hits_updates _ _ _ _ _ _ _ _ _ t0_unique first_pass)
    as (_ & _ & H). apply H.
Qed.

(** A hit flagged for its score by the first pass is an outlier of its
    group, and conversely. *)
Lemma first_pass_score (m : string) :
  loc_status t1 m = Ok readded_by_outlier_score <->
  flagged_outlier hits t0 not_by_score outlier_z min_score_diff m.
Proof.
  destruct (recover_hits_run _ _ _ _ _ _ _ _ _ first_pass) as (u & Hu & Ht1).
  pose proof (recover_updates_updates _ _ _ _ _ _ _ _ _ Hu) as (Hk & _).
  assert (Hndu : NoDup (map scaffold u)).
  { now rewrite (keys_scaffolds _ _ Hk). }
  rewrite Ht1, (loc_status_perm _ _ m Hndu (sort_values_perm u)). split.
  - intros H.
    destruct (score_flag_sound _ _ _ _ _ _ _ _ _ Hu H) as [H0|H0]; [|exact H0].
    destruct (base_table_status _ _ _ t0_base H0); discriminate.
  - apply (score_flag_complete hits t0 not_by_score outlier_z min_score_diff
             t0_unique g1 g1' u m Hu).
Qed.

(** The groups of the second pass are those of the first, up to the order
    of their members. *)
Lemma second_pass_group (cg1 : hits_table) :
  content_group_of hits t1 cg1 ->
  exists cg0,
    content_group_of hits t0 cg0 /\ Permutation cg0 cg1 /\
    NoDup (group_labels cg0).
Proof.
  intros Hcg1.
  destruct (content_group_of_perm _ _ _ _ first_pass_keys Hcg1)
    as (cg0 & Hcg0 & Hp).
  exists cg0. split; [exact Hcg0|]. split; [exact Hp|].
  now destruct (content_group_labels _ _ t0_unique _ Hcg0) as (_ & H & _).
Qed.

Hypothesis stable :
  same_outliers hits t0 t1 not_by_score outlier_z min_score_diff.

(** The candidates of a group are those of the first pass. *)
Lemma second_pass_candidates (cg0 cg1 : hits_table) (m : string) :
  content_group_of hits t0 cg0 -> content_group_of hits t1 cg1 ->
  Permutation cg0 cg1 ->
  In m (candidates not_by_score outlier_z min_score_diff cg1) <->
  In m (candidates not_by_score outlier_z min_score_diff cg0).
Proof.
  intros Hcg0 Hcg1 Hp. destruct (stable cg0 cg1 Hcg0 Hcg1 Hp) as (Hpath & Hout).
  assert (Hlab : In m (group_labels cg1) <-> In m (group_labels cg0)).
  { split; intros H.
    - eapply Permutation_in; [apply Permutation_sym, group_labels_perm, Hp|exact H].
    - eapply Permutation_in; [apply group_labels_perm, Hp|exact H]. }
  unfold candidates. rewrite Hpath.
  destruct (score_path not_by_score cg0); [|exact Hlab].
  rewrite !in_drop_labels, Hlab, (Hout eq_refl m). reflexivity.
Qed.

Lemma second_pass_flagged (m : string) :
  flagged_outlier hits t1 not_by_score outlier_z min_score_diff m ->
  flagged_outlier hits t0 not_by_score outlier_z min_score_diff m.
Proof.
  intros (cg1 & st1 & Hcg1 & Hpath & Hin & Hst1 & Hne).
  destruct (second_pass_group _ Hcg1) as (cg0 & Hcg0 & Hp & Hnd).
  destruct (stable cg0 cg1 Hcg0 Hcg1 Hp) as (Hpath' & Hout).
  rewrite Hpath' in Hpath.
  assert (Hm : In m (group_labels cg0)).
  { eapply Permutation_in; [apply Permutation_sym, group_labels_perm, Hp|].
    now apply (group_outliers_incl outlier_z min_score_diff). }
  destruct (content_group_labels _ _ t0_unique _ Hcg0) as (_ & _ & Hincl).
  destruct (loc_status_defined t0 m (Hincl m Hm)) as (st0 & Hst0).
  exists cg0, st0. split; [exact Hcg0|].
  split; [exact Hpath|].
  split; [now apply (Hout Hpath m)|].
  split; [exact Hst0|]. intros ->.
  destruct (first_pass_status _ _ Hst0) as (st' & Hst' & [->|(Hn & _)]);
    congruence.
Qed.

Lemma second_pass_no_new_score (g2 g2' : rng) (t2 : table) (m : string) :
  recover_hits hits t1 false not_by_score outlier_z min_score_diff g2
  = Ok (t2, g2') ->
  loc_status t2 m = Ok readded_by_outlier_score ->
  loc_status t1 m = Ok readded_by_outlier_score.
Proof.
  intros Hrun H2.
  destruct (recover_hits_run _ _ _ _ _ _ _ _ _ Hrun) as (u & Hu & Ht2).
  pose proof (recover_updates_updates _ _ _ _ _ _ _ _ _ Hu) as (Hk & _).
  assert (Hndu : NoDup (map scaffold u)).
  { rewrite (keys_scaffolds _ _ Hk). apply first_pass_unique. }
  rewrite Ht2, (loc_status_perm _ _ m Hndu (sort_values_perm u)) in H2.
  destruct (score_flag_sound _ _ _ _ _ _ _ _ _ Hu H2) as [H|H]; [exact H|].
  now apply first_pass_score, second_pass_flagged.
Qed.

Lemma second_pass_score_kept (g2 g2' : rng) (t2 : table) (m : string) :
  recover_hits hits t1 false not_by_score outlier_z min_score_diff g2
  = Ok (t2, g2') ->
  loc_status t1 m = Ok readded_by_outlier_score ->
  loc_status t2 m <> Ok readded_by_cluster_content.
Proof.
  intros Hrun H1 H2.
  destruct (recover_hits_run _ _ _ _ _ _ _ _ _ Hrun) as (u & Hu & Ht2).
  pose proof (recover_updates_updates _ _ _ _ _ _ _ _ _ Hu) as (Hk & _).
  assert (Hndu : NoDup (map scaffold u)).
  { rewrite (keys_scaffolds _ _ Hk). apply first_pass_unique. }
  rewrite Ht2, (loc_status_perm _ _ m Hndu (sort_values_perm u)) in H2.
  destruct (content_flag_sound _ _ _ _ _ _ _ _ _ Hu H2)
    as [H|(cg1 & Hcg1 & Hin & _)]; [congruence|].
  apply first_pass_score in H1 as (cg0 & st0 & Hcg0 & Hpath & Hout & _).
  destruct (second_pass_group _ Hcg1) as (cg0' & Hcg0' & Hp & Hnd).
  assert (Hm : In m (group_labels cg0')).
  { eapply Permutation_in; [apply Permutation_sym, group_labels_perm, Hp|].
    now apply (candidates_incl not_by_score outlier_z min_score_diff). }
  assert (Heq : cg0' = cg0).
  { apply (content_group_unique hits t0 t0_unique cg0' cg0 m Hcg0' Hcg0 Hm).
    now apply (group_outliers_incl outlier_z min_score_diff). }
  subst cg0'.
  apply (second_pass_candidates cg0 cg1 m Hcg0' Hcg1 Hp) in Hin.
  unfold candidates in Hin. rewrite Hpath in Hin.
  apply in_drop_labels in Hin as (_ & Hin). contradiction.
Qed.

(** The outliers the second pass goes through carry their flag already,
    or belong to the representative assembly. *)
Lemma second_pass_outliers (cg1 : hits_table) (m : string) (st : status) :
  content_group_of hits t1 cg1 -> score_path not_by_score cg1 = true ->
  In m (group_outliers outlier_z min_score_diff cg1) ->
  loc_status t1 m = Ok st ->
  st = dereplication_representative \/ st = readded_by_outlier_score.
Proof.
  intros Hcg1 Hpath Hin Hst.
  destruct (status_eqb st dereplication_representative) eqn:E;
    [left; now apply status_eqb_eq|right].
  assert (Hfl : flagged_outlier hits t1 not_by_score outlier_z min_score_diff m).
  { exists cg1, st. repeat split; auto. intros ->. discriminate. }
  apply second_pass_flagged, first_pass_score in Hfl. congruence.
Qed.
End SecondPass.

Lemma loc_status_undefined (t : table) (m : string) :
  ~ In m (map scaffold t) -> loc_status t m = Raise KeyError.
Proof.
  induction t as [|r t IH]; simpl; intros H; [reflexivity|].
  destruct (String.eqb (scaffold r) m) eqn:E.
  - apply String.eqb_eq in E. tauto.
  - apply IH. tauto.
Qed.

(** C5, counterexample. On scenario C the first pass draws h1; a second pass
    on its output, with the generator where the first pass left it, draws
    h2 and flags it too: the second table differs from the first. *)
Lemma second_pass_differs :
  exists t1 g1 t2 g2,
    recover_hits scenario_c_hits scenario_c_table false false 2 0.1
                 counting_rng = Ok (t1, g1) /\
    recover_hits scenario_c_hits t1 false false 2 0.1 g1 = Ok (t2, g2) /\
    loc_status t1 "h2" = Ok redundant /\
    loc_status t2 "h2" = Ok readded_by_cluster_content.
Proof.
  do 4 eexists. split; [vm_compute; reflexivity|].
  split; [vm_compute; reflexivity|].
  split; vm_compute; reflexivity.
Qed.

(** ** The run as one loop over all content groups *)

Lemma for_each_app {A S : Type} (body : S -> A -> M S) (l1 l2 : list A)
      (acc : S) (g : rng) :
  for_each body (l1 ++ l2)%list acc g
  = bind (for_each body l1 acc) (for_each body l2) g.
Proof.
  revert acc g. induction l1 as [|x l1 IH]; intros acc g; simpl.
  - reflexivity.
  - unfold bind. destruct (body acc x g) as [[a g1]|e]; [|reflexivity].
    rewrite IH. reflexivity.
Qed.

Lemma genome_loop_groups (hits : hits_table) (t : table) nbs oz msd
      (items : list (string * list string)) (hgs : list hits_table)
      (acc : table) (g : rng) :
  rmap (fun item => loc_hits hits (snd item)) items = Ok hgs ->
  for_each (process_genome_group hits t nbs oz msd) items acc g
  = for_each (process_content_group t nbs oz msd)
             (List.concat (map content_groups hgs)) acc g.
Proof.
  intros H. apply rmap_Ok in H. revert acc g.
  induction H as [|item hg items hgs Hi _ IH]; intros acc g; [reflexivity|].
  cbn [for_each map List.concat]. rewrite for_each_app.
  assert (Hgroup : process_genome_group hits t nbs oz msd acc item g
                   = for_each (process_content_group t nbs oz msd)
                              (content_groups hg) acc g).
  { unfold process_genome_group, bind, lift. now rewrite Hi. }
  unfold bind at 1 2. rewrite Hgroup.
  destruct (for_each (process_content_group t nbs oz msd) (content_groups hg) acc g)
    as [[a g1]|e]; [apply IH|reflexivity].
Qed.

(** The run goes through the content groups in the order of [run_groups]. *)
Lemma recover_hits_in_order (hits : hits_table) (t : table) nbs oz msd
      (groups : list hits_table) (g : rng) :
  run_groups hits t = Ok groups ->
  recover_hits hits t false nbs oz msd g = recover_in_order t nbs oz msd groups g.
Proof.
  unfold run_groups. intros H. apply rbind_Ok in H as (hgs & Hhgs & H).
  inversion H; subst; clear H.
  unfold recover_hits, recover_in_order, recover_updates, bind. simpl.
  now rewrite (genome_loop_groups hits t nbs oz msd _ hgs t g Hhgs).
Qed.

Lemma run_groups_content_group (hits : hits_table) (t : table)
      (groups : list hits_table) (cg : hits_table) :
  run_groups hits t = Ok groups ->
  (In cg groups <-> content_group_of hits t cg).
Proof.
  unfold run_groups. intros H. apply rbind_Ok in H as (hgs & Hhgs & H).
  inversion H; subst; clear H. apply rmap_Ok in Hhgs.
  rewrite in_concat. split.
  - intros (cgs & Hcgs & Hcg). apply in_map_iff in Hcgs as (hg & <- & Hhg).
    assert (Hex : exists item, In item (genome_groups t) /\
                               loc_hits hits (snd item) = Ok hg).
    { clear - Hhgs Hhg. induction Hhgs as [|item hg' items hgs Hi _ IH];
        [destruct Hhg|].
      destruct Hhg as [->|Hhg].
      - exists item. split; [now left|exact Hi].
      - destruct (IH Hhg) as (item' & Hin & Hl). exists item'.
        split; [now right|auto]. }
    destruct Hex as (item & Hitem & Hl). exists item, hg. auto.
  - intros (item & hg & Hitem & Hl & Hcg).
    exists (content_groups hg). split; [|exact Hcg].
    apply in_map. clear - Hhgs Hitem Hl.
    induction Hhgs as [|item' hg' items hgs Hi _ IH]; [destruct Hitem|].
    destruct Hitem as [->|Hitem].
    + left. congruence.
    + right. auto.
Qed.

(** *** Groups partition the rows *)

Section Partition.
Context {A K : Type} (key_of : A -> K) (eqb : K -> K -> bool).
Hypothesis eqb_spec : forall a b, eqb a b = true <-> a = b.

Lemma filter_split_perm (p : A -> bool) (l : list A) :
  Permutation (filter p l ++ filter (fun x => negb (p x)) l)%list l.
Proof.
  induction l as [|x l IH]; simpl; [constructor|].
  destruct (p x); simpl.
  - now constructor.
  - apply Permutation_sym. eapply perm_trans.
    + apply perm_skip, Permutation_sym, IH.
    + apply Permutation_middle.
Qed.

Lemma keyed_rest (l : list A) (key key' : K) :
  key' <> key ->
  keyed key_of eqb (filter (fun x => negb (eqb (key_of x) key)) l) key'
  = keyed key_of eqb l key'.
Proof.
  intros Hne. unfold keyed. induction l as [|x l IH]; simpl; [reflexivity|].
  destruct (eqb (key_of x) key) eqn:E; simpl.
  - apply eqb_spec in E. rewrite IH.
    destruct (eqb (key_of x) key') eqn:E'; [|reflexivity].
    apply eqb_spec in E'. congruence.
  - now rewrite IH.
Qed.

Lemma keyed_partition (ks : list K) (l : list A) :
  NoDup ks -> (forall x, In x l -> In (key_of x) ks) ->
  Permutation (List.concat (map (keyed key_of eqb l) ks)) l.
Proof.
  intros Hnd. revert l. induction Hnd as [|key ks Hkey Hnd IH]; intros l Hall.
  - destruct l as [|x l]; [constructor|]. destruct (Hall x (or_introl eq_refl)).
  - simpl.
    eapply perm_trans; [|apply (filter_split_perm (fun x => eqb (key_of x) key))].
    apply Permutation_app_head.
    rewrite <- (map_ext_in
                  (keyed key_of eqb (filter (fun x => negb (eqb (key_of x) key)) l))
                  (keyed key_of eqb l) ks).
    + apply IH. intros x Hx. apply filter_In in Hx as (Hx & Hk).
      destruct (Hall x Hx) as [Heq|Hin]; [|exact Hin].
      apply negb_true_iff in Hk. exfalso. rewrite <- Heq in Hk.
      assert (Ht : eqb key key = true) by now apply eqb_spec.
      congruence.
    + intros key' Hkey'. apply keyed_rest. intros ->. contradiction.
Qed.
End Partition.

Lemma content_groups_labels (hg : hits_table) :
  Permutation (all_labels (content_groups hg)) (map fst hg).
Proof.
  unfold all_labels, content_groups.
  replace (List.concat
             (map group_labels
                  (map (fun key =>
                          filter (fun p => content_eqb (content (snd p)) key) hg)
                       (content_keys hg))))
    with (map fst
              (List.concat
                 (map (fun key =>
                         filter (fun p : string * hit =>
                                   content_eqb (content (snd p)) key) hg)
                      (content_keys hg))))
    by (rewrite concat_map; reflexivity).
  apply Permutation_map.
  apply (keyed_partition (fun p : string * hit => content (snd p)) content_eqb
                         content_eqb_eq).
  - unfold content_keys. eapply Permutation_NoDup; [apply stable_sort_perm|].
    apply NoDup_nodup.
  - intros p Hp. unfold content_keys. apply in_stable_sort, nodup_In.
    apply (in_map (fun q : string * hit => content (snd q))). exact Hp.
Qed.

Lemma genome_groups_labels (t : table) :
  Permutation (List.concat (map snd (genome_groups t))) (map scaffold t).
Proof.
  unfold genome_groups. rewrite map_map. simpl.
  replace (List.concat
             (map (fun rep =>
                     map scaffold
                         (filter (fun r => String.eqb (representative r) rep) t))
                  (representative_keys t)))
    with (map scaffold
              (List.concat
                 (map (fun rep =>
                         filter (fun r => String.eqb (representative r) rep) t)
                      (representative_keys t))))
    by (rewrite concat_map, map_map; reflexivity).
  apply Permutation_map.
  apply (keyed_partition representative String.eqb String.eqb_eq).
  - unfold representative_keys. eapply Permutation_NoDup; [apply stable_sort_perm|].
    apply NoDup_nodup.
  - intros r Hr. unfold representative_keys. apply in_stable_sort, nodup_In.
    now apply in_map.
Qed.

Lemma all_labels_app (l1 l2 : list hits_table) :
  all_labels (l1 ++ l2)%list = (all_labels l1 ++ all_labels l2)%list.
Proof. unfold all_labels. now rewrite map_app, concat_app. Qed.

Lemma run_groups_labels (hits : hits_table) (t : table) (groups : list hits_table) :
  run_groups hits t = Ok groups ->
  Permutation (all_labels groups) (map scaffold t).
Proof.
  unfold run_groups. intros H. apply rbind_Ok in H as (hgs & Hhgs & H).
  inversion H; subst; clear H.
  eapply perm_trans; [|apply genome_groups_labels].
  apply rmap_Ok in Hhgs.
  induction Hhgs as [|item hg items hgs Hi _ IH]; simpl; [constructor|].
  rewrite all_labels_app. apply Permutation_app; [|exact IH].
  rewrite <- (loc_hits_labels _ _ _ Hi). apply content_groups_labels.
Qed.

Lemma all_labels_perm (gs gs' : list hits_table) :
  Permutation gs gs' -> Permutation (all_labels gs) (all_labels gs').
Proof.
  unfold all_labels. induction 1 as [|x l l' _ IH|x y l|l l' l'' _ IH1 _ IH2]; simpl.
  - constructor.
  - now apply Permutation_app_head.
  - rewrite !app_assoc. apply Permutation_app_tail, Permutation_app_comm.
  - eapply perm_trans; eauto.
Qed.

(** *** Each group is decided by its own iteration *)

Lemma NoDup_app_disjoint {A : Type} (l1 l2 : list A) (a : A) :
  NoDup (l1 ++ l2)%list -> In a l1 -> ~ In a l2.
Proof.
  induction l1 as [|x l1 IH]; simpl; [tauto|].
  intros Hnd [->|Hin] H2; inversion Hnd as [|? ? Hx Hnd']; subst.
  - apply Hx. apply in_or_app. now right.
  - now apply IH.
Qed.

Lemma mark_outliers_other (t : table) (l : list string) (u : table) (m : string) :
  ~ In m l -> loc_status (mark_outliers t l u) m = loc_status u m.
Proof.
  revert u. induction l as [|o l IH]; intros u Hm; [reflexivity|].
  rewrite mark_outliers_cons, IH by (simpl in Hm; tauto).
  destruct (loc_status t o) as [st|]; [|reflexivity].
  destruct (status_eqb st dereplication_representative); [reflexivity|].
  apply loc_status_set_other. intros ->. apply Hm. now left.
Qed.

Section Local.
Variable t : table.
Variable not_by_score : bool.
Variables outlier_z min_score_diff : float.

Local Abbreviation step :=
  (process_content_group t not_by_score outlier_z min_score_diff).
Local Abbreviation outliers := (group_outliers outlier_z min_score_diff).
Local Abbreviation cands :=
  (candidates not_by_score outlier_z min_score_diff).
Local Abbreviation marked_by := (marked t not_by_score outlier_z min_score_diff).


Lemma marked_other (u : table) (cg : hits_table) (m : string) :
  ~ In m (group_labels cg) -> loc_status (marked_by u cg) m = loc_status u m.
Proof.
  intros Hm. unfold marked. destruct (score_path not_by_score cg); [|reflexivity].
  apply mark_outliers_other. intros Hin. apply Hm.
  now apply (group_outliers_incl outlier_z min_score_diff).
Qed.

Lemma marked_keys (u : table) (cg : hits_table) :
  map row_key (marked_by u cg) = map row_key u.
Proof.
  unfold marked. destruct (score_path not_by_score cg);
    [apply mark_outliers_keys|reflexivity].
Qed.

(** An iteration leaves the hits outside its group alone. *)
Lemma process_content_group_frame (u u' : table) (cg : hits_table) (g g' : rng)
      (m : string) :
  step u cg g = Ok (u', g') -> ~ In m (group_labels cg) ->
  loc_status u' m = loc_status u m.
Proof.
  intros Hstep Hm. apply process_content_group_run in Hstep as (_ & Hstep).
  fold (marked_by u cg) in Hstep.
  apply flag_content_run in Hstep as [(_ & -> & _)|(_ & r & Hr & ->)].
  - now apply marked_other.
  - rewrite loc_status_set_other; [now apply marked_other|].
    intros ->. apply Hm. apply choice_Ok in Hr.
    now apply (candidates_incl not_by_score outlier_z min_score_diff).
Qed.

Lemma for_each_frame (gs : list hits_table) (acc u : table) (g g' : rng)
      (m : string) :
  for_each step gs acc g = Ok (u, g') -> ~ In m (all_labels gs) ->
  loc_status u m = loc_status acc m.
Proof.
  intros Hrun Hm.
  apply (for_each_invariant step (fun a => loc_status a m = loc_status acc m) gs)
    with (acc := acc) (g := g) (g' := g'); [|reflexivity|exact Hrun].
  intros cg a g1 a' g1' Hcg Ha Hstep. rewrite <- Ha.
  eapply process_content_group_frame; eauto.
  intros Hin. apply Hm. unfold all_labels. apply in_concat.
  exists (group_labels cg). split; [now apply in_map|exact Hin].
Qed.

(** In a loop over groups with distinct labels, the statuses of a group at
    the end are those its own iteration left, and that iteration found the
    statuses the loop started with. *)
Lemma for_each_local (gs : list hits_table) (acc u : table) (g g' : rng)
      (cg : hits_table) :
  NoDup (all_labels gs) -> for_each step gs acc g = Ok (u, g') -> In cg gs ->
  exists u1 g1 u2 g2,
    step u1 cg g1 = Ok (u2, g2) /\
    map row_key u1 = map row_key acc /\
    (forall m, In m (group_labels cg) -> loc_status u1 m = loc_status acc m) /\
    (forall m, In m (group_labels cg) -> loc_status u m = loc_status u2 m).
Proof.
  revert acc g. induction gs as [|x gs IH]; intros acc g Hnd Hrun Hin;
    [destruct Hin|].
  cbn [for_each] in Hrun. apply bind_Ok in Hrun as (a & g0 & Hbody & Hrest).
  unfold all_labels in Hnd. simpl in Hnd. fold (all_labels gs) in Hnd.
  destruct Hin as [->|Hin].
  - exists acc, g, a, g0. split; [exact Hbody|]. split; [reflexivity|].
    split; [reflexivity|]. intros m Hm.
    apply (for_each_frame gs a u g0 g' m Hrest).
    now apply (NoDup_app_disjoint _ _ m Hnd).
  - destruct (IH a g0 (NoDup_app_remove_l _ _ Hnd) Hrest Hin)
      as (u1 & g1 & u2 & g2 & Hstep & Hk & Hbefore & Hafter).
    exists u1, g1, u2, g2. split; [exact Hstep|].
    split; [rewrite Hk; eapply process_content_group_keys; eauto|].
    split; [|exact Hafter].
    intros m Hm. rewrite (Hbefore m Hm).
    eapply process_content_group_frame; eauto.
    intros Hx. apply (NoDup_app_disjoint _ _ m Hnd Hx).
    unfold all_labels. apply in_concat.
    exists (group_labels cg). split; [now apply in_map|exact Hm].
Qed.

(** What one iteration does to the content flags of its group, started on
    the statuses of the base table. *)
Lemma step_content_flags (u1 u2 : table) (g1 g2 : rng) (cg : hits_table) :
  base_table t ->
  map row_key u1 = map row_key t ->
  incl (group_labels cg) (map scaffold t) ->
  (forall m, In m (group_labels cg) -> loc_status u1 m = loc_status t m) ->
  step u1 cg g1 = Ok (u2, g2) ->
  (representative_in t (cands cg) = Ok true /\
   forall m, In m (group_labels cg) ->
             loc_status u2 m <> Ok readded_by_cluster_content) \/
  (representative_in t (cands cg) = Ok false /\
   exists r, choice (cands cg) g1 = Ok (r, g2) /\
             forall m, In m (group_labels cg) ->
                       (loc_status u2 m = Ok readded_by_cluster_content <-> m = r)).
Proof.
  intros Hbase Hk Hincl Hsame Hstep.
  apply process_content_group_run in Hstep as (_ & Hstep).
  fold (marked_by u1 cg) in Hstep.
  assert (Hnone : forall m, In m (group_labels cg) ->
                            loc_status (marked_by u1 cg) m
                            <> Ok readded_by_cluster_content).
  { intros m Hm H. unfold marked in H.
    assert (H1 : loc_status u1 m = Ok readded_by_cluster_content).
    { destruct (score_path not_by_score cg); [|exact H].
      apply mark_outliers_status in H as [H|(H & _)]; [exact H|discriminate]. }
    rewrite (Hsame m Hm) in H1.
    destruct (base_table_status _ _ _ Hbase H1); discriminate. }
  apply flag_content_run in Hstep as [(Hrep & -> & _)|(Hrep & r & Hr & ->)].
  - left. split; [exact Hrep|exact Hnone].
  - right. split; [exact Hrep|]. exists r. split; [exact Hr|].
    intros m Hm. split.
    + intros H. apply loc_status_set_status in H as [(-> & _)|(_ & H)];
        [reflexivity|]. now apply Hnone in H.
    + intros ->.
      assert (Hdef : exists st, loc_status (marked_by u1 cg) r = Ok st).
      { apply loc_status_defined.
        rewrite (keys_scaffolds _ _ (marked_keys u1 cg)), (keys_scaffolds _ _ Hk).
        now apply Hincl. }
      destruct Hdef as (st & Hst). eapply loc_status_set_same; eauto.
Qed.
(** What one iteration does to the score flags of its group. *)
Lemma step_score_flags (u1 u2 : table) (g1 g2 : rng) (cg : hits_table)
      (m : string) :
  base_table t ->
  map row_key u1 = map row_key t ->
  incl (group_labels cg) (map scaffold t) ->
  (forall m, In m (group_labels cg) -> loc_status u1 m = loc_status t m) ->
  step u1 cg g1 = Ok (u2, g2) ->
  In m (group_labels cg) ->
  (loc_status u2 m = Ok readded_by_outlier_score <->
   score_path not_by_score cg = true /\ In m (outliers cg) /\
   exists st0, loc_status t m = Ok st0 /\ st0 <> dereplication_representative).
Proof.
  intros Hbase Hk Hincl Hsame Hstep Hm.
  apply process_content_group_run in Hstep as (_ & Hstep).
  fold (marked_by u1 cg) in Hstep.
  assert (Hold : loc_status u1 m <> Ok readded_by_outlier_score).
  { rewrite (Hsame m Hm). intros H.
    destruct (base_table_status _ _ _ Hbase H); discriminate. }
  assert (Hmk : loc_status (marked_by u1 cg) m = Ok readded_by_outlier_score <->
                score_path not_by_score cg = true /\ In m (outliers cg) /\
                exists st0, loc_status t m = Ok st0 /\
                            st0 <> dereplication_representative).
  { unfold marked. destruct (score_path not_by_score cg) eqn:Epath; split.
    - intros H. apply mark_outliers_status in H as [H|(_ & Hin & Hst0)];
        [contradiction|auto].
    - intros (_ & Hin & st0 & Hst0 & Hne). eapply mark_outliers_marks; eauto.
      rewrite (keys_scaffolds _ _ Hk). now apply Hincl.
    - intros H. contradiction.
    - intros (H & _). discriminate. }
  apply flag_content_run in Hstep as [(_ & -> & _)|(_ & r & Hr & ->)];
    [exact Hmk|].
  rewrite <- Hmk. split.
  - intros H. apply loc_status_set_status in H as [(_ & H)|(_ & H)];
      [discriminate|exact H].
  - intros H. rewrite loc_status_set_other; [exact H|].
    intros ->. apply Hmk in H as (Hp & Hin & _).
    apply choice_Ok in Hr. unfold candidates in Hr. rewrite Hp in Hr.
    apply in_drop_labels in Hr as (_ & Hr). now apply Hr.
Qed.

Lemma for_each_updates (gs : list hits_table) (u : table) (g g' : rng) :
  for_each step gs t g = Ok (u, g') -> updates_of t u.
Proof.
  intros H.
  apply (for_each_invariant step (updates_of t) gs) with (acc := t) (g := g) (g' := g');
    [|apply updates_of_refl|exact H].
  intros cg a g1 a' g1' _ Ha Hstep.
  eapply process_content_group_updates; eauto.
Qed.
End Local.

(** The table returned when the content groups are gone through in any
    order: its rows, the upward moves of the statuses, the hits of the
    representative assembly, the hits flagged for their score, and in each
    content group the hits flagged for their content (none when the
    candidates of the group hold a hit of the representative assembly, one
    candidate otherwise). *)
Lemma in_order_statuses (hits : hits_table) (t : table) nbs oz msd
      (groups order : list hits_table) (g g' : rng) (t' : table) :
  NoDup (map scaffold t) -> base_table t ->
  run_groups hits t = Ok groups -> Permutation groups order ->
  recover_in_order t nbs oz msd order g = Ok (t', g') ->
  (exists u, t' = sort_values u /\ map row_key u = map row_key t) /\
  (forall m st, loc_status t m = Ok st ->
                exists st', loc_status t' m = Ok st' /\ upgrade st st') /\
  (forall m, loc_status t' m = Ok dereplication_representative <->
             loc_status t m = Ok dereplication_representative) /\
  (forall m, loc_status t' m = Ok readded_by_outlier_score <->
             flagged_outlier hits t nbs oz msd m) /\
  (forall cg,
      content_group_of hits t cg ->
      (representative_in t (candidates nbs oz msd cg) = Ok true /\
       forall m, In m (group_labels cg) ->
                 loc_status t' m <> Ok readded_by_cluster_content) \/
      (representative_in t (candidates nbs oz msd cg) = Ok false /\
       exists r, In r (candidates nbs oz msd cg) /\
                 forall m, In m (group_labels cg) ->
                           (loc_status t' m = Ok readded_by_cluster_content
                            <-> m = r))).
Proof.
  intros Hnd Hbase Hgroups Hperm Hrun.
  unfold recover_in_order in Hrun.
  apply bind_Ok in Hrun as (u & g0 & Hloop & Hret).
  apply ret_Ok in Hret as (-> & ->).
  pose proof (for_each_updates t nbs oz msd order u g g0 Hloop) as (Hk & Hup).
  assert (Hndu : NoDup (map scaffold u)) by now rewrite (keys_scaffolds _ _ Hk).
  assert (Hsort : forall m, loc_status (sort_values u) m = loc_status u m).
  { intros m. exact (loc_status_perm _ _ m Hndu (sort_values_perm u)). }
  assert (Hlabels : Permutation (all_labels order) (map scaffold t)).
  { eapply perm_trans; [apply all_labels_perm, Permutation_sym, Hperm|].
    now apply (run_groups_labels hits). }
  assert (Huniq : NoDup (all_labels order)).
  { eapply Permutation_NoDup; [apply Permutation_sym, Hlabels|exact Hnd]. }
  assert (Hmem : forall cg, In cg order <-> content_group_of hits t cg).
  { intros cg. rewrite <- (run_groups_content_group _ _ _ cg Hgroups).
    split; apply Permutation_in; [now apply Permutation_sym|exact Hperm]. }
  assert (Hlocal : forall cg,
             content_group_of hits t cg ->
             exists u1 g1 u2 g2,
               process_content_group t nbs oz msd u1 cg g1 = Ok (u2, g2) /\
               map row_key u1 = map row_key t /\
               incl (group_labels cg) (map scaffold t) /\
               (forall m, In m (group_labels cg) ->
                          loc_status u1 m = loc_status t m) /\
               (forall m, In m (group_labels cg) ->
                          loc_status (sort_values u) m = loc_status u2 m)).
  { intros cg Hcg. apply Hmem in Hcg as Hin.
    destruct (for_each_local t nbs oz msd order t u g g0 cg Huniq Hloop Hin)
      as (u1 & g1 & u2 & g2 & Hstep & Hk1 & Hbefore & Hafter).
    destruct (content_group_labels _ _ Hnd _ Hcg) as (_ & _ & Hincl).
    exists u1, g1, u2, g2. repeat split; auto.
    intros m Hm. rewrite Hsort. now apply Hafter. }
  split; [exists u; auto|]. split.
  { intros m st Hm. destruct (Hup _ _ Hm) as (st' & Hst' & Hupg).
    exists st'. rewrite Hsort. auto. }
  split.
  { intros m. rewrite Hsort. split; intros H.
    - assert (Hin : In m (map scaffold t)).
      { rewrite <- (keys_scaffolds _ _ Hk). eapply loc_status_scaffold; eauto. }
      destruct (loc_status_defined _ _ Hin) as (st & Hst).
      destruct (Hup _ _ Hst) as (st' & Hst' & [->|(_ & [->| ->])]); congruence.
    - destruct (Hup _ _ H) as (st' & Hst' & [->|(Hne & _)]); congruence. }
  split.
  { intros m. split.
    - intros H.
      assert (Hin : In m (all_labels order)).
      { eapply Permutation_in; [apply Permutation_sym, Hlabels|].
        rewrite <- (keys_scaffolds _ _ Hk). rewrite Hsort in H.
        eapply loc_status_scaffold; eauto. }
      unfold all_labels in Hin. apply in_concat in Hin as (l & Hl & Hm).
      apply in_map_iff in Hl as (cg & <- & Hcg). apply Hmem in Hcg.
      destruct (Hlocal cg Hcg)
        as (u1 & g1 & u2 & g2 & Hstep & Hk1 & Hincl & Hbefore & Hafter).
      rewrite (Hafter m Hm) in H.
      destruct (proj1 (step_score_flags t nbs oz msd u1 u2 g1 g2 cg m
                                        Hbase Hk1 Hincl Hbefore Hstep Hm) H)
        as (Hpath & Hout & st0 & Hst0 & Hne).
      exists cg, st0. auto.
    - intros (cg & st0 & Hcg & Hp & Hout & Hst0 & Hne).
      destruct (Hlocal cg Hcg)
        as (u1 & g1 & u2 & g2 & Hstep & Hk1 & Hincl & Hbefore & Hafter).
      assert (Hm : In m (group_labels cg)) by now apply (group_outliers_incl oz msd).
      rewrite (Hafter m Hm).
      apply (step_score_flags t nbs oz msd u1 u2 g1 g2 cg m
                              Hbase Hk1 Hincl Hbefore Hstep Hm).
      split; [exact Hp|]. split; [exact Hout|]. eauto. }
  intros cg Hcg.
  destruct (Hlocal cg Hcg)
    as (u1 & g1 & u2 & g2 & Hstep & Hk1 & Hincl & Hbefore & Hafter).
  destruct (step_content_flags t nbs oz msd u1 u2 g1 g2 cg
                               Hbase Hk1 Hincl Hbefore Hstep)
    as [(Hrep & Hnone)|(Hrep & r & Hr & Hone)].
  - left. split; [exact Hrep|]. intros m Hm. rewrite (Hafter m Hm). now apply Hnone.
  - right. split; [exact Hrep|]. exists r. split; [now apply choice_Ok in Hr|].
    intros m Hm. rewrite (Hafter m Hm). now apply Hone.
Qed.

(** ** Two runs on the same input *)

(** C7, counterexample. Two runs on scenario C, one drawing 0 and one
    drawing 1, return different statuses for h1 and h2. *)
Lemma two_runs_differ :
  exists t1 g1 t2 g2,
    recover_hits scenario_c_hits scenario_c_table false false 2 0.1 zero_rng
    = Ok (t1, g1) /\
    recover_hits scenario_c_hits scenario_c_table false false 2 0.1 one_rng
    = Ok (t2, g2) /\
    loc_status t1 "h1" = Ok readded_by_cluster_content /\
    loc_status t2 "h1" = Ok redundant /\
    loc_status t1 "h2" = Ok redundant /\
    loc_status t2 "h2" = Ok readded_by_cluster_content.
Proof.
  do 4 eexists. split; [vm_compute; reflexivity|].
  split; [vm_compute; reflexivity|].
  repeat split; vm_compute; reflexivity.
Qed.

(** C7 (as amended). On a table built by parse_dereplication_clusters, a run
    of recover_hits with content recovery enabled goes through the content
    groups in the order of [run_groups]; two runs that go through them in any
    two orders and with any two generators return the same rows and agree on
    which hits are dereplication_representative and which are
    readded_by_outlier_score.  In every content group both runs flag the same
    number of hits readded_by_cluster_content: none when the candidates of
    the group hold a hit of the representative assembly, exactly one
    candidate otherwise, whichever the run draws.  The two tables are equal
    when every hit flagged for its content by the first run is flagged by the
    second. *)
Theorem two_runs_agree_up_to_draws (hits : hits_table) (t : table)
        (not_by_score : bool) (outlier_z min_score_diff : float)
        (groups order1 order2 : list hits_table)
        (g1 g1' g2 g2' : rng) (t1 t2 : table) :
  NoDup (map scaffold t) -> base_table t ->
  run_groups hits t = Ok groups ->
  Permutation groups order1 -> Permutation groups order2 ->
  recover_in_order t not_by_score outlier_z min_score_diff order1 g1
  = Ok (t1, g1') ->
  recover_in_order t not_by_score outlier_z min_score_diff order2 g2
  = Ok (t2, g2') ->
  (forall g, recover_hits hits t false not_by_score outlier_z min_score_diff g
             = recover_in_order t not_by_score outlier_z min_score_diff groups g) /\
  Permutation (map row_key t1) (map row_key t2) /\
  (forall m,
      (loc_status t1 m = Ok dereplication_representative <->
       loc_status t2 m = Ok dereplication_representative) /\
      (loc_status t1 m = Ok readded_by_outlier_score <->
       loc_status t2 m = Ok readded_by_outlier_score)) /\
  (forall cg,
      content_group_of hits t cg ->
      (representative_in t (candidates not_by_score outlier_z min_score_diff cg)
       = Ok true /\
       forall m, In m (group_labels cg) ->
                 loc_status t1 m <> Ok readded_by_cluster_content /\
                 loc_status t2 m <> Ok readded_by_cluster_content) \/
      (representative_in t (candidates not_by_score outlier_z min_score_diff cg)
       = Ok false /\
       exists r1 r2,
         In r1 (candidates not_by_score outlier_z min_score_diff cg) /\
         In r2 (candidates not_by_score outlier_z min_score_diff cg) /\
         forall m, In m (group_labels cg) ->
                   (loc_status t1 m = Ok readded_by_cluster_content <-> m = r1) /\
                   (loc_status t2 m = Ok readded_by_cluster_content <-> m = r2))) /\
  ((forall m, loc_status t1 m = Ok readded_by_cluster_content ->
              loc_status t2 m = Ok readded_by_cluster_content) ->
   t1 = t2).
Proof.
  intros Hnd Hbase Hrg Hp1 Hp2 Hrun1 Hrun2.
  destruct (in_order_statuses _ _ _ _ _ _ _ _ _ _ Hnd Hbase Hrg Hp1 Hrun1)
    as ((u1 & Ht1 & Hku1) & Hup1 & Hrep1 & Hsc1 & Hct1).
  destruct (in_order_statuses _ _ _ _ _ _ _ _ _ _ Hnd Hbase Hrg Hp2 Hrun2)
    as ((u2 & Ht2 & Hku2) & Hup2 & Hrep2 & Hsc2 & Hct2).
  assert (Hndu1 : NoDup (map scaffold u1)) by now rewrite (keys_scaffolds _ _ Hku1).
  assert (Hndu2 : NoDup (map scaffold u2)) by now rewrite (keys_scaffolds _ _ Hku2).
  assert (Hkeys : Permutation (map row_key t1) (map row_key t2)).
  { rewrite Ht1, Ht2. eapply perm_trans.
    - apply Permutation_sym, Permutation_map, sort_values_perm.
    - rewrite Hku1, <- Hku2. apply Permutation_map, sort_values_perm. }
  assert (Hagree : forall m,
             (loc_status t1 m = Ok dereplication_representative <->
              loc_status t2 m = Ok dereplication_representative) /\
             (loc_status t1 m = Ok readded_by_outlier_score <->
              loc_status t2 m = Ok readded_by_outlier_score)).
  { intros m. split.
    - rewrite (Hrep1 m), (Hrep2 m). reflexivity.
    - rewrite (Hsc1 m), (Hsc2 m). reflexivity. }
  assert (Hgroups : (forall cg,
      content_group_of hits t cg ->
      (representative_in t (candidates not_by_score outlier_z min_score_diff cg)
       = Ok true /\
       forall m, In m (group_labels cg) ->
                 loc_status t1 m <> Ok readded_by_cluster_content /\
                 loc_status t2 m <> Ok readded_by_cluster_content) \/
      (representative_in t (candidates not_by_score outlier_z min_score_diff cg)
       = Ok false /\
       exists r1 r2,
         In r1 (candidates not_by_score outlier_z min_score_diff cg) /\
         In r2 (candidates not_by_score outlier_z min_score_diff cg) /\
         forall m, In m (group_labels cg) ->
                   (loc_status t1 m = Ok readded_by_cluster_content <-> m = r1) /\
                   (loc_status t2 m = Ok readded_by_cluster_content <-> m = r2)))).
  { intros cg Hcg.
    destruct (Hct1 cg Hcg) as [(Hr1 & Hnone1)|(Hr1 & r1 & Hin1 & Hone1)];
      destruct (Hct2 cg Hcg) as [(Hr2 & Hnone2)|(Hr2 & r2 & Hin2 & Hone2)];
      try congruence.
    - left. split; [exact Hr1|]. intros m Hm. split; auto.
    - right. split; [exact Hr1|]. exists r1, r2. repeat split; auto;
        try (now apply Hone1); now apply Hone2. }
  split; [intros g; now apply recover_hits_in_order|].
  split; [exact Hkeys|]. split; [exact Hagree|]. split; [exact Hgroups|].
  intros Hsub.
  assert (Hscaf : forall u m st, map row_key u = map row_key t ->
                                 loc_status (sort_values u) m = Ok st ->
                                 NoDup (map scaffold u) ->
                                 In m (map scaffold t)).
  { intros u m st Hku H Hndu.
    rewrite (loc_status_perm _ _ m Hndu (sort_values_perm u)) in H.
    rewrite <- (keys_scaffolds _ _ Hku). eapply loc_status_scaffold; eauto. }
  assert (Hcontent : forall m, loc_status t2 m = Ok readded_by_cluster_content ->
                               loc_status t1 m = Ok readded_by_cluster_content).
  { intros m H2.
    assert (Hin : In m (all_labels groups)).
    { eapply Permutation_in;
        [apply Permutation_sym, (run_groups_labels hits), Hrg|].
      rewrite Ht2 in H2. eapply Hscaf; eauto. }
    unfold all_labels in Hin. apply in_concat in Hin as (l & Hl & Hm).
    apply in_map_iff in Hl as (cg & <- & Hcg).
    apply (run_groups_content_group _ _ _ cg Hrg) in Hcg.
    destruct (Hgroups cg Hcg) as [(_ & Hnone)|(_ & r1 & r2 & Hr1 & Hr2 & Hone)].
    { now destruct (Hnone m Hm) as (_ & Hn). }
    assert (Hm2 : m = r2) by now apply (Hone m Hm).
    assert (Hr1' : In r1 (group_labels cg)).
    { now apply (candidates_incl not_by_score outlier_z min_score_diff). }
    assert (H12 : r1 = r2).
    { apply (Hone r1 Hr1'). apply Hsub. now apply (Hone r1 Hr1'). }
    apply (Hone m Hm). congruence. }
  assert (Hall : forall m, loc_status t1 m = loc_status t2 m).
  { intros m.
    destruct (loc_status t m) as [st0|e0] eqn:E0.
    - destruct (Hup1 _ _ E0) as (st1 & Hst1 & _).
      destruct (Hup2 _ _ E0) as (st2 & Hst2 & _).
      destruct (Hagree m) as (Hrep & Hscore).
      pose proof (Hsub m) as Hc12. pose proof (Hcontent m) as Hc21.
      rewrite Hst1, Hst2 in *.
      destruct st1, st2; try reflexivity;
        try (destruct Hrep as (Ha & Hb);
             first [specialize (Ha eq_refl)|specialize (Hb eq_refl)];
             discriminate);
        try (destruct Hscore as (Ha & Hb);
             first [specialize (Ha eq_refl)|specialize (Hb eq_refl)];
             discriminate);
        try (specialize (Hc12 eq_refl); discriminate);
        try (specialize (Hc21 eq_refl); discriminate).
    - assert (Hnot : ~ In m (map scaffold t)).
      { intros Hin. apply loc_status_defined in Hin as (st & Hin). congruence. }
      rewrite Ht1, Ht2.
      rewrite (loc_status_perm _ _ m Hndu1 (sort_values_perm u1)).
      rewrite (loc_status_perm _ _ m Hndu2 (sort_values_perm u2)).
      rewrite !loc_status_undefined; [reflexivity| |].
      + now rewrite (keys_scaffolds _ _ Hku2).
      + now rewrite (keys_scaffolds _ _ Hku1). }
  assert (Heq : u1 = u2).
  { apply table_ext.
    - now rewrite Hku1, Hku2.
    - exact Hndu2.
    - intros m.
      rewrite <- (loc_status_perm _ _ m Hndu1 (sort_values_perm u1)).
      rewrite <- (loc_status_perm _ _ m Hndu2 (sort_values_perm u2)).
      rewrite <- Ht1, <- Ht2. apply Hall. }
  now rewrite Ht1, Ht2, Heq.
Qed.

(** ** A second pass, group by group *)

Lemma genome_loop_defined (hits : hits_table) (t : table) nbs oz msd
      (items : list (string * list string)) (acc u : table) (g g' : rng) :
  for_each (process_genome_group hits t nbs oz msd) items acc g = Ok (u, g') ->
  exists hgs, rmap (fun item => loc_hits hits (snd item)) items = Ok hgs.
Proof.
  revert acc g. induction items as [|item items IH]; intros acc g H.
  - exists []. reflexivity.
  - cbn [for_each] in H. apply bind_Ok in H as (a & g0 & Hbody & Hrest).
    unfold process_genome_group in Hbody.
    apply bind_Ok in Hbody as (hg & g1 & Hhg & _).
    apply lift_Ok in Hhg as (Hhg & _).
    destruct (IH _ _ Hrest) as (hgs & Hhgs). exists (hg :: hgs).
    simpl. now rewrite Hhg, Hhgs.
Qed.

(** A run that returns has loaded the hits of every genome group. *)
Lemma run_groups_defined (hits : hits_table) (t : table) nbs oz msd
      (g g' : rng) (u : table) :
  recover_updates hits t false nbs oz msd g = Ok (u, g') ->
  exists groups, run_groups hits t = Ok groups.
Proof.
  unfold recover_updates, run_groups. simpl. intros H.
  apply genome_loop_defined in H as (hgs & ->). simpl. eauto.
Qed.

(** The loop over the outliers changes nothing for a hit that carries the
    flag already. *)
Lemma mark_outliers_same (t : table) (l : list string) (u : table) (m : string) :
  (In m l -> forall st0, loc_status t m = Ok st0 ->
             st0 <> dereplication_representative ->
             loc_status u m = Ok readded_by_outlier_score) ->
  loc_status (mark_outliers t l u) m = loc_status u m.
Proof.
  intros H.
  destruct (in_dec string_dec m (map scaffold u)) as [Hin|Hnot].
  - assert (Hin' : In m (map scaffold (mark_outliers t l u))).
    { now rewrite (keys_scaffolds _ _ (mark_outliers_keys t l u)). }
    apply loc_status_defined in Hin' as (st & Hst). rewrite Hst.
    apply mark_outliers_status in Hst as [Hst|(-> & Hl & st0 & Hst0 & Hne)];
      [now rewrite Hst|].
    symmetry. eapply H; eauto.
  - rewrite !loc_status_undefined; [reflexivity|exact Hnot|].
    now rewrite (keys_scaffolds _ _ (mark_outliers_keys t l u)).
Qed.

(** When the outliers of a content group carry their flag already, the run
    changes the status of one member of the group at most: the one it
    draws. *)
Lemma one_draw_per_group (hits : hits_table) (t : table) nbs oz msd
      (g g' : rng) (t' : table) (cg : hits_table) :
  NoDup (map scaffold t) ->
  recover_hits hits t false nbs oz msd g = Ok (t', g') ->
  content_group_of hits t cg ->
  (score_path nbs cg = true ->
   forall m st, In m (group_outliers oz msd cg) -> loc_status t m = Ok st ->
                st = dereplication_representative \/
                st = readded_by_outlier_score) ->
  exists r, forall m, In m (group_labels cg) -> m <> r ->
                      loc_status t' m = loc_status t m.
Proof.
  intros Hnd Hrun Hcg Hflag.
  destruct (recover_hits_run _ _ _ _ _ _ _ _ _ Hrun) as (u0 & Hu0 & _).
  destruct (run_groups_defined _ _ _ _ _ _ _ _ Hu0) as (groups & Hgroups).
  rewrite (recover_hits_in_order hits t nbs oz msd groups g Hgroups) in Hrun.
  unfold recover_in_order in Hrun.
  apply bind_Ok in Hrun as (u & g0 & Hloop & Hret).
  apply ret_Ok in Hret as (-> & _).
  pose proof (for_each_updates t nbs oz msd groups u g g0 Hloop) as (Hk & _).
  assert (Hndu : NoDup (map scaffold u)) by now rewrite (keys_scaffolds _ _ Hk).
  assert (Hsort : forall m, loc_status (sort_values u) m = loc_status u m).
  { intros m. exact (loc_status_perm _ _ m Hndu (sort_values_perm u)). }
  assert (Huniq : NoDup (all_labels groups)).
  { eapply Permutation_NoDup;
      [apply Permutation_sym, (run_groups_labels hits), Hgroups|exact Hnd]. }
  assert (Hin : In cg groups) by now apply (run_groups_content_group _ _ _ cg Hgroups).
  destruct (for_each_local t nbs oz msd groups t u g g0 cg Huniq Hloop Hin)
    as (u1 & g1 & u2 & g2 & Hstep & Hk1 & Hbefore & Hafter).
  apply process_content_group_run in Hstep as (_ & Hstep).
  assert (Hmk : forall m,
             In m (group_labels cg) ->
             loc_status (if score_path nbs cg
                         then mark_outliers t (group_outliers oz msd cg) u1
                         else u1) m
             = loc_status t m).
  { intros m Hm. rewrite <- (Hbefore m Hm).
    destruct (score_path nbs cg) eqn:Ep; [|reflexivity].
    apply mark_outliers_same. intros Hout st0 Hst0 Hne.
    rewrite (Hbefore m Hm).
    destruct (Hflag eq_refl m st0 Hout Hst0) as [->| ->];
      [congruence|exact Hst0]. }
  apply flag_content_run in Hstep as [(_ & -> & _)|(_ & r & _ & ->)].
  - exists EmptyString. intros m Hm _. now rewrite Hsort, (Hafter m Hm), Hmk.
  - exists r. intros m Hm Hne.
    rewrite Hsort, (Hafter m Hm), loc_status_set_other by exact Hne.
    now apply Hmk.
Qed.

Lemma not_by_score_same_outliers (hits : hits_table) (t0 t1 : table)
      (oz msd : float) :
  same_outliers hits t0 t1 true oz msd.
Proof.
  intros cg0 cg1 _ _ _. split; [reflexivity|discriminate].
Qed.

Lemma rounding_table_unique : NoDup (map scaffold rounding_table).
Proof.
  repeat constructor; simpl; intuition discriminate.
Qed.

Lemma rounding_table_base : base_table rounding_table.
Proof.
  unfold base_table, rounding_table.
  repeat (apply Forall_cons; [simpl; auto|]). apply Forall_nil.
Qed.

(** The order of the members matters.  In [rounding_table] the first pass
    sees the scores 4.8, 4.8, 4.8, 4.8, 16.2: the z-score of 16.2 is
    computed as 2, and h5 is flagged for its score.  The second pass sees
    them in the order of the sorted table, 4.8, 16.2, 4.8, 4.8, 4.8: the
    z-score is computed as 1.9999999999999996, h5 is no outlier any more,
    and when it is drawn its flag becomes readded_by_cluster_content. *)
Lemma second_pass_rounding :
  exists t1 g1' t2 g2',
    recover_hits rounding_hits rounding_table false false 2 0.1 zero_rng
    = Ok (t1, g1') /\
    recover_hits rounding_hits t1 false false 2 0.1 one_rng = Ok (t2, g2') /\
    zscore_of [4.8; 4.8; 4.8; 4.8; 16.2]%float 16.2 = 2%float /\
    zscore_of [4.8; 16.2; 4.8; 4.8; 4.8]%float 16.2
    = 1.9999999999999996%float /\
    loc_status t1 "h5" = Ok readded_by_outlier_score /\
    loc_status t2 "h5" = Ok readded_by_cluster_content.
Proof.
  do 4 eexists. split; [vm_compute; reflexivity|].
  split; [vm_compute; reflexivity|].
  repeat split; vm_compute; reflexivity.
Qed.

(** C5 (as amended). A second pass of recover_hits on the output of a first
    pass over the table built by parse_dereplication_clusters keeps the
    rows and the hits of the representative assembly, and leaves no
    retained hit redundant.  When the second pass finds the outliers of
    the first (as it does with score recovery disabled), it keeps every
    status that is not redundant; the only changes are redundant hits
    turned readded_by_cluster_content by its random draws, one per content
    group at most, and the second table is the first one when no redundant
    hit is drawn.  With score recovery the z-scores are computed again, on
    the members in the order of the sorted table, and rounding can move a
    hit off the threshold: a hit flagged readded_by_outlier_score can then
    be drawn and become readded_by_cluster_content.  With content recovery
    disabled the second table is the first one. *)
Theorem second_pass_keeps_flags (hits : hits_table) (t0 : table)
        (not_by_content not_by_score : bool) (outlier_z min_score_diff : float)
        (g1 g1' g2 g2' : rng) (t1 t2 : table) :
  NoDup (map scaffold t0) -> base_table t0 ->
  recover_hits hits t0 not_by_content not_by_score outlier_z min_score_diff g1
  = Ok (t1, g1') ->
  recover_hits hits t1 not_by_content not_by_score outlier_z min_score_diff g2
  = Ok (t2, g2') ->
  Permutation (map row_key t1) (map row_key t2) /\
  (forall m st,
      loc_status t1 m = Ok st ->
      exists st',
        loc_status t2 m = Ok st' /\
        (st = dereplication_representative -> st' = st) /\
        (st <> redundant -> st' <> redundant) /\
        (st' <> st -> readded st')) /\
  (not_by_content = true \/
   same_outliers hits t0 t1 not_by_score outlier_z min_score_diff ->
   (forall m st,
       loc_status t1 m = Ok st ->
       exists st',
         loc_status t2 m = Ok st' /\
         (st <> redundant -> st' = st) /\
         (st' <> st -> st = redundant /\ st' = readded_by_cluster_content)) /\
   (forall cg,
       content_group_of hits t1 cg ->
       exists r, forall m, In m (group_labels cg) -> m <> r ->
                           loc_status t2 m = loc_status t1 m) /\
   ((forall m, loc_status t1 m = Ok redundant -> loc_status t2 m = Ok redundant) ->
    t2 = t1)) /\
  (not_by_score = true ->
   same_outliers hits t0 t1 not_by_score outlier_z min_score_diff) /\
  (not_by_content = true -> t2 = t1) /\
  (exists hits' t0' t1' t2' g g' h h' m,
      NoDup (map scaffold t0') /\ base_table t0' /\
      recover_hits hits' t0' false false 2 0.1 g = Ok (t1', g') /\
      recover_hits hits' t1' false false 2 0.1 h = Ok (t2', h') /\
      loc_status t1' m = Ok readded_by_outlier_score /\
      loc_status t2' m = Ok readded_by_cluster_content).
Proof.
  intros Hnd Hbase Hrun1 Hrun2.
  assert (Hsorted : sort_values t1 = t1).
  { apply recover_hits_run in Hrun1 as (u1 & _ & ->).
    apply stable_sort_idem, row_leb_total. }
  assert (Hnd1 : NoDup (map scaffold t1)).
  { now destruct (recover_hits_updates _ _ _ _ _ _ _ _ _ Hnd Hrun1) as (_ & H & _). }
  destruct (recover_hits_updates _ _ _ _ _ _ _ _ _ Hnd1 Hrun2) as (Hkeys & Hnd2 & Hup).
  assert (Hoff : not_by_content = true -> t2 = t1).
  { intros ->. apply recover_hits_run in Hrun2 as (u2 & Hu2 & ->).
    unfold recover_updates in Hu2. simpl in Hu2.
    apply ret_Ok in Hu2 as (-> & _). exact Hsorted. }
  split; [exact Hkeys|]. split.
  { intros m st Hm. destruct (Hup _ _ Hm) as (st' & Hst' & Hupg).
    exists st'. split; [exact Hst'|].
    destruct Hupg as [->|(Hne & Hre)].
    - repeat split; congruence.
    - split; [congruence|]. split; [|auto].
      intros _. destruct Hre as [->| ->]; discriminate. }
  split.
  { intros Hor.
    assert (Hst : forall m st,
               loc_status t1 m = Ok st ->
               exists st',
                 loc_status t2 m = Ok st' /\
                 (st <> redundant -> st' = st) /\
                 (st' <> st -> st = redundant /\ st' = readded_by_cluster_content)).
    { intros m st Hm. destruct (Hup _ _ Hm) as (st' & Hst' & Hupg).
      exists st'. split; [exact Hst'|].
      destruct Hupg as [->|(Hne & Hre)]; [split; congruence|].
      destruct not_by_content.
      - rewrite (Hoff eq_refl) in Hst'. split; congruence.
      - destruct Hor as [Hor|Hstable]; [discriminate|].
        destruct Hre as [->| ->].
        + destruct st.
          * congruence.
          * split; congruence.
          * exfalso.
            apply (second_pass_score_kept hits t0 t1 not_by_score outlier_z
                     min_score_diff Hnd Hbase g1 g1' Hrun1 Hstable g2 g2' t2 m
                     Hrun2 Hm Hst').
          * split; [congruence|auto].
        + assert (Hm' : loc_status t1 m = Ok readded_by_outlier_score).
          { apply (second_pass_no_new_score hits t0 t1 not_by_score outlier_z
                     min_score_diff Hnd Hbase g1 g1' Hrun1 Hstable g2 g2' t2 m
                     Hrun2 Hst'). }
          rewrite Hm in Hm'. inversion Hm'; subst. split; congruence. }
    split; [exact Hst|]. split.
    - intros cg Hcg. destruct not_by_content.
      + exists EmptyString. intros m _ _. now rewrite (Hoff eq_refl).
      + destruct Hor as [Hor|Hstable]; [discriminate|].
        apply (one_draw_per_group hits t1 not_by_score outlier_z min_score_diff
                 g2 g2' t2 cg Hnd1 Hrun2 Hcg).
        intros Hpath m st Hout Hm.
        apply (second_pass_outliers hits t0 t1 not_by_score outlier_z
                 min_score_diff Hnd Hbase g1 g1' Hrun1 Hstable cg m st
                 Hcg Hpath Hout Hm).
    - intros Hred.
      destruct (recover_hits_run _ _ _ _ _ _ _ _ _ Hrun2) as (u2 & Hu2 & Ht2).
      pose proof (recover_updates_updates _ _ _ _ _ _ _ _ _ Hu2) as (Hk & _).
      assert (Hndu : NoDup (map scaffold u2)).
      { now rewrite (keys_scaffolds _ _ Hk). }
      assert (Heq : u2 = t1).
      { apply table_ext; [exact Hk|exact Hnd1|]. intros m.
        rewrite <- (loc_status_perm _ _ m Hndu (sort_values_perm u2)), <- Ht2.
        destruct (loc_status t1 m) as [st|e] eqn:E.
        - destruct (Hst _ _ E) as (st' & Hst' & Hkeep & _). rewrite Hst'.
          destruct st; try (rewrite Hkeep; [reflexivity|discriminate]).
          rewrite (Hred _ E) in Hst'. congruence.
        - assert (Hnot : ~ In m (map scaffold t1)).
          { intros Hin. apply loc_status_defined in Hin as (st & Hin). congruence. }
          rewrite (loc_status_undefined _ _ Hnot) in E. rewrite <- E.
          apply loc_status_undefined. intros Hin. apply Hnot.
          eapply Permutation_in; [|exact Hin].
          assert (Hs : forall t, map scaffold t = map fst (map row_key t)).
          { intros t. now rewrite map_map. }
          rewrite !Hs. apply Permutation_map, Permutation_sym, Hkeys. }
      rewrite Ht2, Heq. exact Hsorted. }
  split; [intros ->; apply not_by_score_same_outliers|].
  split; [exact Hoff|].
  destruct second_pass_rounding as (t1' & g' & t2' & h' & H1 & H2 & _ & _ & H3 & H4).
  exists rounding_hits, rounding_table, t1', t2', zero_rng, g', one_rng, h', "h5".
  split; [exact rounding_table_unique|]. split; [exact rounding_table_base|].
  auto.
Qed.

(** ** Instances for the two-pass and two-run theorems *)

Lemma scenario_c_table_base : base_table scenario_c_table.
Proof.
  unfold base_table, scenario_c_table.
  repeat (apply Forall_cons; [simpl; auto|]). apply Forall_nil.
Defined.

Lemma second_pass_keeps_flags_witness :
  NoDup (map scaffold scenario_c_table) /\
  base_table scenario_c_table /\
  recover_hits scenario_c_hits scenario_c_table false false 2 0.1 zero_rng
  = Ok (scenario_c_result, {| draws := draws zero_rng; pos := 1 |}) /\
  recover_hits scenario_c_hits scenario_c_result false false 2 0.1 one_rng
  = Ok (scenario_c_result_2, {| draws := draws one_rng; pos := 1 |}) /\
  Permutation (map row_key scenario_c_result) (map row_key scenario_c_result_2).
Proof.
  assert (Hrun1 : recover_hits scenario_c_hits scenario_c_table false false 2
                               0.1 zero_rng
                  = Ok (scenario_c_result, {| draws := draws zero_rng; pos := 1 |}))
    by (vm_compute; reflexivity).
  assert (Hrun2 : recover_hits scenario_c_hits scenario_c_result false false 2
                               0.1 one_rng
                  = Ok (scenario_c_result_2,
                        {| draws := draws one_rng; pos := 1 |}))
    by (vm_compute; reflexivity).
  split; [exact scenario_c_table_unique|]. split; [exact scenario_c_table_base|].
  split; [exact Hrun1|]. split; [exact Hrun2|].
  exact (proj1 (second_pass_keeps_flags
                  scenario_c_hits scenario_c_table false false 2 0.1
                  zero_rng _ one_rng _ scenario_c_result scenario_c_result_2
                  scenario_c_table_unique scenario_c_table_base Hrun1 Hrun2)).
Defined.

Lemma two_runs_agree_up_to_draws_witness :
  NoDup (map scaffold scenario_c_table) /\
  base_table scenario_c_table /\
  run_groups scenario_c_hits scenario_c_table = Ok scenario_c_groups /\
  Permutation scenario_c_groups scenario_c_groups /\
  Permutation scenario_c_groups (rev scenario_c_groups) /\
  recover_in_order scenario_c_table false 2 0.1 scenario_c_groups zero_rng
  = Ok (scenario_c_result, {| draws := draws zero_rng; pos := 1 |}) /\
  recover_in_order scenario_c_table false 2 0.1 (rev scenario_c_groups) one_rng
  = Ok (scenario_c_result_1, {| draws := draws one_rng; pos := 1 |}) /\
  Permutation (map row_key scenario_c_result) (map row_key scenario_c_result_1).
Proof.
  assert (Hgroups : run_groups scenario_c_hits scenario_c_table
                    = Ok scenario_c_groups)
    by (vm_compute; reflexivity).
  assert (Hrun1 : recover_in_order scenario_c_table false 2 0.1
                                   scenario_c_groups zero_rng
                  = Ok (scenario_c_result, {| draws := draws zero_rng; pos := 1 |}))
    by (vm_compute; reflexivity).
  assert (Hrun2 : recover_in_order scenario_c_table false 2 0.1
                                   (rev scenario_c_groups) one_rng
                  = Ok (scenario_c_result_1, {| draws := draws one_rng; pos := 1 |}))
    by (vm_compute; reflexivity).
  split; [exact scenario_c_table_unique|]. split; [exact scenario_c_table_base|].
  split; [exact Hgroups|]. split; [apply Permutation_refl|].
  split; [apply Permutation_rev|].
  split; [exact Hrun1|]. split; [exact Hrun2|].
  exact (proj1 (proj2 (two_runs_agree_up_to_draws
                  scenario_c_hits scenario_c_table false 2 0.1
                  scenario_c_groups scenario_c_groups (rev scenario_c_groups)
                  zero_rng _ one_rng _ scenario_c_result scenario_c_result_1
                  scenario_c_table_unique scenario_c_table_base Hgroups
                  (Permutation_refl _) (Permutation_rev _) Hrun1 Hrun2))).
Defined.

(** ** Substrings, split and join *)

Lemma prefix_app (a b : string) :
  String.prefix a b = true <-> exists post, b = a ++ post.
Proof.
  revert b. induction a as [|x a IH]; intros b.
  - destruct b; simpl; (split; [intros _; eauto|reflexivity]).
  - destruct b as [|y b]; simpl.
    + split; [discriminate|intros (post & H); discriminate].
    + destruct (Ascii.ascii_dec x y) as [->|Hne].
      * rewrite IH. split; intros (post & H); exists post; [now rewrite H|].
        now inversion H.
      * split; [discriminate|]. intros (post & H). inversion H. congruence.
Qed.

Lemma occurs_in_app (needle hay : string) :
  occurs_in needle hay = true <-> exists pre post, hay = pre ++ needle ++ post.
Proof.
  induction hay as [|c hay IH]; cbn [occurs_in]; rewrite orb_true_iff, prefix_app.
  - split.
    + intros [(post & H)|H]; [|discriminate]. now exists EmptyString, post.
    + intros (pre & post & H). left. destruct pre; [|discriminate]. now exists post.
  - rewrite IH. split.
    + intros [(post & H)|(pre & post & H)].
      * now exists EmptyString, post.
      * exists (String c pre), post. simpl. now rewrite H.
    + intros (pre & post & H). destruct pre as [|c' pre].
      * left. now exists post.
      * right. simpl in H. inversion H. now exists pre, post.
Qed.

Lemma occurs_in_char (c : ascii) (s : string) :
  occurs_in (String c EmptyString) s = false <->
  string_forallb (fun x => negb (Ascii.eqb x c)) s = true.
Proof.
  induction s as [|x s IH]; cbn [occurs_in string_forallb String.prefix].
  - split; reflexivity.
  - rewrite orb_false_iff, andb_true_iff, IH.
    destruct (Ascii.ascii_dec c x) as [->|Hne].
    + rewrite Ascii.eqb_refl. destruct s; simpl; split; intros (H & _); discriminate.
    + assert (Hx : Ascii.eqb x c = false) by (apply Ascii.eqb_neq; congruence).
      rewrite Hx. simpl. tauto.
Qed.

Lemma str_split_cons (sep : ascii) (s : string) :
  exists w ws, str_split sep s = w :: ws.
Proof.
  destruct s as [|c s]; simpl; [eauto|].
  destruct (Ascii.eqb c sep); [eauto|].
  destruct (str_split sep s); eauto.
Qed.

(** Joining the pieces of a split with the separator gives the string
    back. *)
Lemma str_join_split (sep : ascii) (s : string) :
  str_join (String sep EmptyString) (str_split sep s) = s.
Proof.
  induction s as [|c s IH]; [reflexivity|]. cbn [str_split].
  destruct (str_split_cons sep s) as (w & ws & Hs). rewrite Hs in *.
  destruct (Ascii.eqb c sep) eqn:Ec.
  - apply Ascii.eqb_eq in Ec. subst c.
    change (str_join (String sep EmptyString) (EmptyString :: w :: ws))
      with (String sep (str_join (String sep EmptyString) (w :: ws))).
    now rewrite IH.
  - destruct ws as [|w' ws].
    + simpl in *. now rewrite IH.
    + change (str_join (String sep EmptyString) (String c w :: w' :: ws))
        with (String c (str_join (String sep EmptyString) (w :: w' :: ws))).
      now rewrite IH.
Qed.

Lemma str_split_no_sep (sep : ascii) (p : string) :
  occurs_in (String sep EmptyString) p = false -> str_split sep p = [p].
Proof.
  rewrite occurs_in_char. induction p as [|c p IH]; simpl; [reflexivity|].
  intros H. apply andb_true_iff in H as (Hc & Hp).
  apply negb_true_iff in Hc. rewrite Hc, (IH Hp). reflexivity.
Qed.

Lemma str_split_app (sep : ascii) (p s : string) :
  occurs_in (String sep EmptyString) p = false ->
  str_split sep (p ++ String sep s) = p :: str_split sep s.
Proof.
  rewrite occurs_in_char. induction p as [|c p IH]; simpl.
  - intros _. now rewrite Ascii.eqb_refl.
  - intros H. apply andb_true_iff in H as (Hc & Hp).
    apply negb_true_iff in Hc. rewrite Hc, (IH Hp). reflexivity.
Qed.

(** Splitting a joined list gives the list back when no element holds the
    separator. *)
Lemma str_split_join (sep : ascii) (l : list string) :
  l <> [] ->
  Forall (fun x => occurs_in (String sep EmptyString) x = false) l ->
  str_split sep (str_join (String sep EmptyString) l) = l.
Proof.
  induction l as [|x l IH]; [congruence|]. intros _ Hall.
  inversion Hall as [|? ? Hx Hl]; subst.
  destruct l as [|y l]; [now apply str_split_no_sep|].
  change (str_join (String sep EmptyString) (x :: y :: l))
    with (x ++ String sep (str_join (String sep EmptyString) (y :: l))).
  rewrite (str_split_app _ _ _ Hx), IH; [reflexivity|discriminate|exact Hl].
Qed.

Lemma first_occurrence (c : ascii) (s : string) :
  occurs_in (String c EmptyString) s = true ->
  exists p r, s = p ++ String c r /\ occurs_in (String c EmptyString) p = false.
Proof.
  induction s as [|x s IH]; [discriminate|].
  destruct (Ascii.ascii_dec x c) as [->|Hne].
  - intros _. now exists EmptyString, s.
  - intros H.
    assert (Hs : occurs_in (String c EmptyString) s = true).
    { cbn [occurs_in String.prefix] in H.
      destruct (Ascii.ascii_dec c x) as [->|_]; [congruence|exact H]. }
    destruct (IH Hs) as (p & r & -> & Hp). exists (String x p), r.
    split; [reflexivity|]. apply occurs_in_char. simpl.
    apply occurs_in_char in Hp. rewrite Hp.
    assert (Hx : Ascii.eqb x c = false) by now apply Ascii.eqb_neq.
    now rewrite Hx.
Qed.

Lemma split_off_prefix_cut (p s : string) :
  occurs_in "_" p = false -> split_off_prefix (p ++ "_" ++ s) = s.
Proof.
  intros Hp. unfold split_off_prefix.
  assert (Hin : occurs_in "_" (p ++ "_" ++ s) = true).
  { apply occurs_in_app. now exists p, s. }
  rewrite Hin. cbn [negb append].
  rewrite (str_split_app "_" p s Hp). cbn [tl]. apply str_join_split.
Qed.

(** What split_off_prefix returns is the end of its argument. *)
Lemma split_off_prefix_suffix (txt : string) :
  exists pre, txt = pre ++ split_off_prefix txt.
Proof.
  destruct (occurs_in "_" txt) eqn:E.
  - destruct (first_occurrence _ _ E) as (p & r & -> & Hp).
    exists (p ++ "_").
    pose proof (split_off_prefix_cut p r Hp) as H.
    cbn [append] in H. rewrite H. now rewrite string_app_assoc.
  - exists EmptyString. unfold split_off_prefix. now rewrite E.
Qed.

(** X1. split_off_prefix drops what stands before the first underscore, and
    the underscore; a text without underscore is returned as it is.  What it
    returns is always the end of its argument. *)
Theorem split_off_prefix_first_underscore (p s : string) :
  occurs_in "_" p = false ->
  split_off_prefix (p ++ "_" ++ s) = s /\
  split_off_prefix p = p /\
  forall txt, exists pre, txt = pre ++ split_off_prefix txt.
Proof.
  intros Hp. split; [now apply split_off_prefix_cut|]. split.
  - unfold split_off_prefix. now rewrite Hp.
  - apply split_off_prefix_suffix.
Qed.

Lemma filter_first {A : Type} (f : A -> bool) (l : list A) (x : A) (rest : list A) :
  filter f l = x :: rest ->
  exists l1 l2, l = (l1 ++ x :: l2)%list /\ f x = true /\
                Forall (fun y => f y = false) l1.
Proof.
  induction l as [|y l IH]; simpl; [discriminate|].
  destruct (f y) eqn:Ey.
  - intros H. inversion H; subst. exists [], l. auto.
  - intros H. destruct (IH H) as (l1 & l2 & -> & Hx & Hall).
    exists (y :: l1), l2. auto.
Qed.

Lemma filter_nil {A : Type} (f : A -> bool) (l : list A) :
  filter f l = [] <-> Forall (fun y => f y = false) l.
Proof.
  induction l as [|y l IH]; simpl; [split; auto|].
  destruct (f y) eqn:Ey; split; intros H.
  - discriminate.
  - inversion H; congruence.
  - constructor; [exact Ey|now apply IH].
  - inversion H; subst. now apply IH.
Qed.

Lemma map_back_Ok (no_prefix : string) (scaffolds : list string) (s : string) :
  map_back no_prefix scaffolds = Ok s ->
  exists l1 l2,
    scaffolds = (l1 ++ s :: l2)%list /\ occurs_in no_prefix s = true /\
    Forall (fun x => occurs_in no_prefix x = false) l1.
Proof.
  unfold map_back.
  destruct (filter (occurs_in no_prefix) scaffolds) as [|x rest] eqn:E;
    [discriminate|].
  intros H. inversion H; subst x. exact (filter_first _ _ _ _ E).
Qed.

(** A scaffold holds its own deprefixed ID. *)
Lemma map_back_own_id (scaffolds : list string) (s : string) :
  In s scaffolds ->
  occurs_in (split_off_prefix s) s = true /\
  exists s', map_back (split_off_prefix s) scaffolds = Ok s'.
Proof.
  intros Hin.
  assert (Hs : occurs_in (split_off_prefix s) s = true).
  { apply occurs_in_app. destruct (split_off_prefix_suffix s) as (pre & Hpre).
    exists pre, EmptyString.
    assert (He : forall x : string, x ++ EmptyString = x).
    { induction x as [|c x IH]; simpl; [reflexivity|now rewrite IH]. }
    now rewrite He. }
  split; [exact Hs|]. unfold map_back.
  destruct (filter (occurs_in (split_off_prefix s)) scaffolds) as [|s' rest] eqn:E;
    [|eauto].
  apply filter_nil in E. rewrite Forall_forall in E.
  rewrite (E s Hin) in Hs. discriminate.
Qed.

(** X2. map_back returns the first scaffold of which the given text is a
    substring, and raises IndexError exactly when there is none. *)
Theorem map_back_first (no_prefix : string) (scaffolds : list string) :
  (forall s,
      map_back no_prefix scaffolds = Ok s <->
      exists l1 l2,
        scaffolds = (l1 ++ s :: l2)%list /\ substring_of no_prefix s /\
        Forall (fun x => ~ substring_of no_prefix x) l1) /\
  (map_back no_prefix scaffolds = Raise IndexError <->
   Forall (fun x => ~ substring_of no_prefix x) scaffolds) /\
  (forall e, map_back no_prefix scaffolds = Raise e -> e = IndexError).
Proof.
  assert (Hneg : forall l,
             Forall (fun x => occurs_in no_prefix x = false) l <->
             Forall (fun x => ~ substring_of no_prefix x) l).
  { intros l. rewrite !Forall_forall. split; intros H x Hx.
    - intros Hs. apply occurs_in_app in Hs. rewrite (H x Hx) in Hs. discriminate.
    - apply not_true_iff_false. intros Hs. apply (H x Hx). now apply occurs_in_app. }
  unfold map_back. split; [|split].
  - intros s. split.
    + destruct (filter (occurs_in no_prefix) scaffolds) as [|x rest] eqn:E;
        [discriminate|].
      intros H. inversion H; subst x.
      destruct (filter_first _ _ _ _ E) as (l1 & l2 & -> & Hs & Hall).
      exists l1, l2. split; [reflexivity|]. split; [now apply occurs_in_app|].
      now apply Hneg.
    + intros (l1 & l2 & -> & Hs & Hall). apply Hneg in Hall.
      apply filter_nil in Hall. rewrite filter_app, Hall. simpl.
      apply occurs_in_app in Hs. now rewrite Hs.
  - rewrite <- Hneg, <- filter_nil.
    destruct (filter (occurs_in no_prefix) scaffolds); split; congruence.
  - intros e. destruct (filter (occurs_in no_prefix) scaffolds); congruence.
Qed.

(** X3. A scaffold is a candidate for its own deprefixed ID, so map_back
    always finds a scaffold for it: the scaffold itself, or one listed
    before it that holds the deprefixed ID. *)
Theorem map_back_split_off_prefix (scaffolds : list string) (s : string) :
  In s scaffolds ->
  exists s' l1 l2,
    map_back (split_off_prefix s) scaffolds = Ok s' /\
    scaffolds = (l1 ++ s' :: l2)%list /\
    substring_of (split_off_prefix s) s' /\
    (s' = s \/ In s l2).
Proof.
  intros Hin. destruct (map_back_own_id scaffolds s Hin) as (Hs & s' & Hmb).
  destruct (map_back_Ok _ _ _ Hmb) as (l1 & l2 & Hl & Hs' & Hall).
  exists s', l1, l2. split; [exact Hmb|]. split; [exact Hl|].
  split; [now apply occurs_in_app|].
  rewrite Hl in Hin. apply in_app_or in Hin as [Hin|[Hin|Hin]]; auto.
  rewrite Forall_forall in Hall. rewrite (Hall s Hin) in Hs. discriminate.
Qed.


Lemma dict_put_keys (d : list (string * string)) (k v : string) :
  forall k', In k' (map fst (dict_put d k v)) <-> k' = k \/ In k' (map fst d).
Proof.
  induction d as [|[k0 v0] d IH]; intros k'; simpl.
  - split; [intros [H|[]]; auto|intros [H|[]]; auto].
  - destruct (String.eqb k0 k) eqn:E; simpl.
    + apply String.eqb_eq in E. subst k0. split; [tauto|intros [H|[H|H]]; auto].
    + rewrite IH. tauto.
Qed.

Lemma dict_put_unique (d : list (string * string)) (k v : string) :
  NoDup (map fst d) -> NoDup (map fst (dict_put d k v)).
Proof.
  induction d as [|[k0 v0] d IH]; simpl; intros H.
  - constructor; [intros []|constructor].
  - inversion H as [|? ? Hk Hd]; subst.
    destruct (String.eqb k0 k) eqn:E; simpl.
    + apply String.eqb_eq in E. subst k0. now constructor.
    + constructor; [|now apply IH].
      rewrite dict_put_keys. intros [->|Hin]; [|contradiction].
      rewrite String.eqb_refl in E. discriminate.
Qed.

Lemma dict_put_entries (d : list (string * string)) (k v : string) (e : string * string) :
  In e (dict_put d k v) -> e = (k, v) \/ In e d.
Proof.
  induction d as [|[k0 v0] d IH]; simpl.
  - intros [<-|[]]. now left.
  - destruct (String.eqb k0 k); simpl.
    + intros [<-|H]; auto.
    + intros [<-|H]; auto. destruct (IH H); auto.
Qed.

Lemma dict_put_other (d : list (string * string)) (k v : string)
      (e : string * string) :
  NoDup (map fst d) -> In e (dict_put d k v) ->
  e = (k, v) \/ (In e d /\ fst e <> k).
Proof.
  induction d as [|[k0 v0] d IH]; simpl; intros Hnd.
  - intros [<-|[]]. now left.
  - inversion Hnd as [|? ? Hk Hd]; subst.
    destruct (String.eqb k0 k) eqn:E; simpl.
    + apply String.eqb_eq in E. subst k0.
      intros [<-|H]; [now left|]. right. split; [now right|].
      intros <-. apply Hk. now apply (in_map fst) in H.
    + apply String.eqb_neq in E.
      intros [<-|H]; [right; split; [now left|exact E]|].
      destruct (IH Hd H) as [->|(H1 & H2)]; [now left|]. right. auto.
Qed.

Section MapScaffoldsFacts.
Variable listdir : list string.
Variable fasta_ids : string -> list string.
Variable set_order : list string -> list string.
Hypothesis set_order_elements : forall l x, In x (set_order l) <-> In x l.

Local Abbreviation file_of := (assembly_file listdir).
Local Abbreviation found := (found_scaffolds fasta_ids set_order).
Local Abbreviation step := (map_assembly listdir fasta_ids set_order).

Lemma rmap_map_back (scaffolds nps : list string) :
  (forall np, In np nps -> In np (map split_off_prefix scaffolds)) ->
  exists l, rmap (fun s => map_back s scaffolds) nps = Ok l /\
            Forall2 (fun np s => map_back np scaffolds = Ok s) nps l.
Proof.
  induction nps as [|np nps IH]; intros H; simpl.
  - exists []. split; [reflexivity|constructor].
  - pose proof (H np (or_introl eq_refl)) as Hnp.
    apply in_map_iff in Hnp as (s & <- & Hs).
    destruct (map_back_own_id scaffolds s Hs) as (_ & s' & Hmb).
    rewrite Hmb. simpl.
    destruct IH as (l & Hl & Hall); [intros; apply H; now right|].
    rewrite Hl. simpl. exists (s' :: l). split; [reflexivity|].
    constructor; auto.
Qed.

Lemma found_no_prefix_spec (scaffolds : list string) (file np : string) :
  In np (set_order
           (filter (fun s => existsb (String.eqb s)
                                     (map split_off_prefix (fasta_ids file)))
                   (nodup string_dec (map split_off_prefix scaffolds)))) <->
  In np (map split_off_prefix scaffolds) /\
  In np (map split_off_prefix (fasta_ids file)).
Proof.
  rewrite set_order_elements, filter_In, nodup_In, existsb_exists.
  split; intros (H1 & H2); (split; [exact H1|]).
  - destruct H2 as (x & Hx & Heq). apply String.eqb_eq in Heq. now subst.
  - exists np. split; [exact H2|apply String.eqb_refl].
Qed.

Lemma found_scaffolds_ok (scaffolds : list string) (file : string) :
  exists l,
    found scaffolds file = Ok l /\
    forall s, In s l <->
              exists id, In id (fasta_ids file) /\
                         In (split_off_prefix id) (map split_off_prefix scaffolds) /\
                         map_back (split_off_prefix id) scaffolds = Ok s.
Proof.
  unfold found_scaffolds.
  destruct (rmap_map_back scaffolds
              (set_order
                 (filter (fun s => existsb (String.eqb s)
                                           (map split_off_prefix (fasta_ids file)))
                         (nodup string_dec (map split_off_prefix scaffolds)))))
    as (l & Hl & Hall).
  { intros np Hnp. now apply found_no_prefix_spec in Hnp. }
  exists l. split; [exact Hl|]. intros s. split.
  - intros Hs.
    assert (Hex : exists np, In np (set_order
           (filter (fun s => existsb (String.eqb s)
                                     (map split_off_prefix (fasta_ids file)))
                   (nodup string_dec (map split_off_prefix scaffolds)))) /\
                             map_back np scaffolds = Ok s).
    { clear Hl. induction Hall as [|np s' nps l Hmb _ IH]; [destruct Hs|].
      destruct Hs as [->|Hs].
      - exists np. split; [now left|exact Hmb].
      - destruct (IH Hs) as (np' & Hin & Hmb'). exists np'. split; [now right|auto]. }
    destruct Hex as (np & Hnp & Hmb).
    apply found_no_prefix_spec in Hnp as (H1 & H2).
    apply in_map_iff in H2 as (id & <- & Hid). exists id. auto.
  - intros (id & Hid & Hsc & Hmb).
    assert (Hnp : In (split_off_prefix id) (set_order
           (filter (fun s => existsb (String.eqb s)
                                     (map split_off_prefix (fasta_ids file)))
                   (nodup string_dec (map split_off_prefix scaffolds))))).
    { apply found_no_prefix_spec. split; [exact Hsc|now apply in_map]. }
    clear Hl. induction Hall as [|np s' nps l Hmb' _ IH]; [destruct Hnp|].
    destruct Hnp as [->|Hnp].
    + left. congruence.
    + right. auto.
Qed.
Lemma assembly_file_raises (a : string) (e : exn) :
  file_of a = Raise e -> e = IndexError.
Proof.
  unfold assembly_file. destruct (filter (occurs_in a) listdir); congruence.
Qed.

Lemma fold_dict_put_keys (a : string) (l : list string) (d : list (string * string)) :
  forall k, In k (map fst (fold_left (fun d s => dict_put d s a) l d)) <->
            In k l \/ In k (map fst d).
Proof.
  revert d. induction l as [|x l IH]; intros d k; simpl; [tauto|].
  rewrite IH, dict_put_keys. split; intros H; intuition.
Qed.

Lemma fold_dict_put_unique (a : string) (l : list string) (d : list (string * string)) :
  NoDup (map fst d) -> NoDup (map fst (fold_left (fun d s => dict_put d s a) l d)).
Proof.
  revert d. induction l as [|x l IH]; intros d H; simpl; [exact H|].
  apply IH. now apply dict_put_unique.
Qed.

Lemma fold_dict_put_entries (a : string) (l : list string) (d : list (string * string))
      (e : string * string) :
  In e (fold_left (fun d s => dict_put d s a) l d) ->
  In e d \/ (snd e = a /\ In (fst e) l).
Proof.
  revert d. induction l as [|x l IH]; intros d H; simpl in *; [now left|].
  destruct (IH _ H) as [H1|(Ha & Hl)].
  - destruct (dict_put_entries _ _ _ _ H1) as [->|H2]; [|now left].
    right. simpl. auto.
  - right. auto.
Qed.

Lemma linked_scaffold (scaffolds : list string) (s a : string) :
  linked listdir fasta_ids scaffolds s a -> In s scaffolds.
Proof.
  intros (file & id & _ & _ & _ & Hmb).
  apply map_back_Ok in Hmb as (l1 & l2 & -> & _).
  apply in_or_app. right. now left.
Qed.

(** One assembly: the iteration returns; it keeps the keys, and the entries
    it writes are the scaffolds linked to the assembly. *)
Lemma map_assembly_ok (scaffolds : list string) (d : list (string * string))
      (a : string) :
  exists m,
    step scaffolds d a = Ok m /\
    (forall k, In k (map fst d) -> In k (map fst m)) /\
    (NoDup (map fst d) -> NoDup (map fst m)) /\
    (forall e, In e m ->
               In e d \/ (snd e = a /\ linked listdir fasta_ids scaffolds (fst e) a)) /\
    (forall s, linked listdir fasta_ids scaffolds s a -> In s (map fst m)).
Proof.
  unfold map_assembly. destruct (file_of a) as [file|e] eqn:Efile.
  - destruct (found_scaffolds_ok scaffolds file) as (l & Hl & Hspec).
    rewrite Hl. eexists. split; [reflexivity|]. split; [|split; [|split]].
    + intros k Hk. apply fold_dict_put_keys. now right.
    + apply fold_dict_put_unique.
    + intros e He. apply fold_dict_put_entries in He as [He|(Ha & He)]; [now left|].
      right. split; [exact Ha|]. apply Hspec in He as (id & Hid & Hsc & Hmb).
      exists file, id. auto.
    + intros s (file' & id & Hfile & Hid & Hsc & Hmb).
      apply fold_dict_put_keys. left. apply Hspec.
      assert (file' = file) by congruence. subst file'. eauto.
  - rewrite (assembly_file_raises _ _ Efile) in *.
    exists d. split; [reflexivity|]. split; [auto|]. split; [auto|].
    split; [auto|]. intros s (file & id & Hfile & _). congruence.
Qed.

Lemma map_assemblies_ok (scaffolds assemblies : list string)
      (d : list (string * string)) :
  exists m,
    map_assemblies listdir fasta_ids set_order scaffolds assemblies d = Ok m /\
    (forall k, In k (map fst d) -> In k (map fst m)) /\
    (NoDup (map fst d) -> NoDup (map fst m)) /\
    (forall e, In e m ->
               In e d \/ (In (snd e) assemblies /\
                          linked listdir fasta_ids scaffolds (fst e) (snd e))) /\
    (forall s a, In a assemblies -> linked listdir fasta_ids scaffolds s a ->
                 In s (map fst m)).
Proof.
  revert d. induction assemblies as [|a rest IH]; intros d; cbn [map_assemblies].
  - exists d. split; [reflexivity|]. split; [auto|]. split; [auto|].
    split; [auto|]. intros s a [].
  - destruct (map_assembly_ok scaffolds d a) as (m1 & Hm1 & Hk1 & Hu1 & He1 & Hc1).
    rewrite Hm1. cbn [rbind].
    destruct (IH m1) as (m & Hm & Hk & Hu & He & Hc).
    exists m. split; [exact Hm|]. split; [auto|]. split; [auto|]. split.
    + intros e Hin. destruct (He e Hin) as [H1|(Ha & Hl)].
      * destruct (He1 e H1) as [H0|(Ha & Hl)]; [now left|].
        right. rewrite Ha. split; [now left|exact Hl].
      * right. split; [now right|exact Hl].
    + intros s a' [<-|Ha'] Hl; [apply Hk; now apply Hc1|now apply (Hc s a')].
Qed.
Lemma fold_dict_put_other (a : string) (l : list string)
      (d : list (string * string)) (e : string * string) :
  NoDup (map fst d) ->
  In e (fold_left (fun d s => dict_put d s a) l d) ->
  (In e d /\ ~ In (fst e) l) \/ (snd e = a /\ In (fst e) l).
Proof.
  revert d. induction l as [|x l IH]; intros d Hnd H; simpl in *; [left; tauto|].
  destruct (IH _ (dict_put_unique d x a Hnd) H) as [(H1 & Hl)|(Ha & Hl)].
  - destruct (dict_put_other _ _ _ _ Hnd H1) as [->|(H2 & Hne)].
    + right. simpl. auto.
    + left. split; [exact H2|]. intros [Hx|Hx]; [congruence|contradiction].
  - right. auto.
Qed.

(** An entry left by an iteration was written by it, or was there before and
    its scaffold is not linked to the assembly of the iteration. *)
Lemma map_assembly_last (scaffolds : list string) (d m : list (string * string))
      (a : string) (e : string * string) :
  NoDup (map fst d) -> step scaffolds d a = Ok m -> In e m ->
  (In e d /\ ~ linked listdir fasta_ids scaffolds (fst e) a) \/
  (snd e = a /\ linked listdir fasta_ids scaffolds (fst e) a).
Proof.
  intros Hnd. unfold map_assembly. destruct (file_of a) as [file|x] eqn:Efile.
  - destruct (found_scaffolds_ok scaffolds file) as (l & Hl & Hspec).
    rewrite Hl. intros H He. inversion H; subst m; clear H.
    assert (Hlink : forall s, In s l <-> linked listdir fasta_ids scaffolds s a).
    { intros s. rewrite Hspec. split.
      - intros (id & Hid & Hsc & Hmb). exists file, id. auto.
      - intros (file' & id & Hfile & Hid & Hsc & Hmb).
        assert (file' = file) by congruence. subst file'. eauto. }
    destruct (fold_dict_put_other _ _ _ _ Hnd He) as [(H1 & H2)|(H1 & H2)].
    + left. split; [exact H1|]. now rewrite <- Hlink.
    + right. split; [exact H1|]. now apply Hlink.
  - rewrite (assembly_file_raises _ _ Efile). intros H He.
    inversion H; subst m; clear H. left. split; [exact He|].
    intros (file & id & Hfile & _). congruence.
Qed.

Lemma map_assemblies_last (scaffolds assemblies : list string)
      (d m : list (string * string)) (e : string * string) :
  NoDup (map fst d) ->
  map_assemblies listdir fasta_ids set_order scaffolds assemblies d = Ok m ->
  In e m ->
  (In e d /\
   forall a, In a assemblies -> ~ linked listdir fasta_ids scaffolds (fst e) a) \/
  (exists l1 l2,
      assemblies = (l1 ++ snd e :: l2)%list /\
      linked listdir fasta_ids scaffolds (fst e) (snd e) /\
      forall a, In a l2 -> ~ linked listdir fasta_ids scaffolds (fst e) a).
Proof.
  revert d. induction assemblies as [|a rest IH]; intros d Hnd Hrun He;
    cbn [map_assemblies] in Hrun.
  - inversion Hrun; subst m. left. split; [exact He|]. intros a [].
  - destruct (map_assembly_ok scaffolds d a) as (m1 & Hm1 & _ & Hu1 & _).
    rewrite Hm1 in Hrun. cbn [rbind] in Hrun.
    destruct (IH m1 (Hu1 Hnd) Hrun He) as [(H1 & Hrest)|(l1 & l2 & -> & Hl & Hlast)].
    + destruct (map_assembly_last scaffolds d m1 a e Hnd Hm1 H1)
        as [(H0 & Hno)|(Ha & Hl)].
      * left. split; [exact H0|]. intros a' [<-|Ha']; auto.
      * right. exists [], rest. rewrite Ha. split; [reflexivity|].
        split; [exact Hl|exact Hrest].
    + right. exists (a :: l1), l2. auto.
Qed.
End MapScaffoldsFacts.

(** X4. map_scaffolds_to_assemblies returns a dict whatever the listing, the
    fasta records and the lists of IDs are: a missing file is skipped, and
    the IndexError of map_back that the second handler waits for never
    arises, since every deprefixed ID looked up comes from a scaffold that
    holds it. *)
Theorem map_scaffolds_to_assemblies_returns (listdir : list string)
        (fasta_ids : string -> list string) (set_order : list string -> list string)
        (scaffolds assemblies : list string) :
  (forall l x, In x (set_order l) <-> In x l) ->
  (forall file, exists l, found_scaffolds fasta_ids set_order scaffolds file = Ok l) /\
  exists mappings,
    map_scaffolds_to_assemblies listdir fasta_ids set_order scaffolds assemblies
    = Ok mappings.
Proof.
  intros Hset. split.
  - intros file.
    destruct (found_scaffolds_ok fasta_ids set_order Hset scaffolds file)
      as (l & Hl & _).
    eauto.
  - destruct (map_assemblies_ok listdir fasta_ids set_order Hset scaffolds assemblies [])
      as (m & Hm & _).
    eauto.
Qed.

(** X5. The dict returned by map_scaffolds_to_assemblies has each key once.
    Every entry maps a scaffold of the cblaster list to an assembly of the
    list whose fasta file has a record with the deprefixed ID that map_back
    resolved to this scaffold, and among several such assemblies to the last
    one of the list; every scaffold so linked to an assembly of the list is
    a key. *)
Theorem map_scaffolds_to_assemblies_entries (listdir : list string)
        (fasta_ids : string -> list string) (set_order : list string -> list string)
        (scaffolds assemblies : list string) (mappings : list (string * string)) :
  (forall l x, In x (set_order l) <-> In x l) ->
  map_scaffolds_to_assemblies listdir fasta_ids set_order scaffolds assemblies
  = Ok mappings ->
  NoDup (map fst mappings) /\
  (forall s a,
      In (s, a) mappings ->
      In s scaffolds /\ linked listdir fasta_ids scaffolds s a /\
      exists l1 l2,
        assemblies = (l1 ++ a :: l2)%list /\
        forall a', In a' l2 -> ~ linked listdir fasta_ids scaffolds s a') /\
  (forall s a, In a assemblies -> linked listdir fasta_ids scaffolds s a ->
               In s (map fst mappings)).
Proof.
  intros Hset Hrun.
  destruct (map_assemblies_ok listdir fasta_ids set_order Hset scaffolds assemblies [])
    as (m & Hm & _ & Hu & _ & Hc).
  unfold map_scaffolds_to_assemblies in Hrun. rewrite Hm in Hrun.
  inversion Hrun; subst m; clear Hrun.
  split; [apply Hu; constructor|]. split; [|exact Hc].
  intros s a Hin.
  destruct (map_assemblies_last listdir fasta_ids set_order Hset scaffolds assemblies
              [] mappings (s, a) (NoDup_nil _) Hm Hin)
    as [([] & _)|(l1 & l2 & Hl & Hlink & Hlast)].
  simpl in *. split; [eapply linked_scaffold; eauto|]. split; [exact Hlink|].
  exists l1, l2. auto.
Qed.

(** ** download_genomes *)

Lemma batches_spec {A : Type} (n : nat) (l : list A) (fuel : nat) :
  (0 < n)%nat -> (List.length l <= fuel)%nat ->
  List.concat (batches fuel n l) = l /\
  Forall (fun b => (1 <= List.length b <= n)%nat) (batches fuel n l) /\
  (forall l1 b l2, batches fuel n l = (l1 ++ b :: l2)%list -> l2 <> [] ->
                   List.length b = n).
Proof.
  intros Hn. revert l. induction fuel as [|fuel IH]; intros l Hlen.
  - destruct l; [|simpl in Hlen; lia]. simpl. split; [reflexivity|].
    split; [constructor|]. intros [|? ?] b l2 H; discriminate.
  - cbn [batches]. destruct (firstn n l) as [|x b0] eqn:Ef.
    + assert (l = []).
      { destruct l; [reflexivity|]. destruct n; [lia|simpl in Ef; discriminate]. }
      subst l. simpl. split; [reflexivity|]. split; [constructor|].
      intros [|? ?] b l2 H; discriminate.
    + assert (Hl : (1 <= List.length l)%nat).
      { destruct l; [rewrite firstn_nil in Ef; discriminate|simpl; lia]. }
      assert (Hskip : (List.length (skipn n l) <= fuel)%nat).
      { rewrite length_skipn. simpl in Hlen. lia. }
      destruct (IH _ Hskip) as (Hcat & Hall & Hfull).
      split; [|split].
      * cbn [List.concat]. rewrite Hcat, <- Ef. apply firstn_skipn.
      * constructor; [|exact Hall]. rewrite <- Ef, length_firstn. lia.
      * intros l1 b l2 H Hne. destruct l1 as [|y l1]; simpl in H.
        -- inversion H; subst. rewrite <- Ef, length_firstn.
           destruct (batches fuel n (skipn n l)) as [|b1 bs] eqn:Eb; [congruence|].
           assert (Hb1 : (1 <= List.length b1)%nat).
           { inversion Hall; subst. lia. }
           assert (Hsk : (1 <= List.length (skipn n l))%nat).
           { rewrite <- Hcat. simpl. rewrite length_app. lia. }
           rewrite length_skipn in Hsk. lia.
        -- inversion H; subst. eapply Hfull; eauto.
Qed.

(** X6. For a size of at least one, batched cuts a list into consecutive
    batches: put end to end they give the list back, none is empty or longer
    than the size, and all but the last hold exactly the size. *)
Theorem batched_consecutive {A : Type} (iterable : list A) (n : Z) :
  (1 <= n)%Z ->
  exists bs,
    batched iterable n = Ok bs /\
    List.concat bs = iterable /\
    Forall (fun b => (1 <= Z.of_nat (List.length b) <= n)%Z) bs /\
    forall l1 b l2, bs = (l1 ++ b :: l2)%list -> l2 <> [] ->
                    Z.of_nat (List.length b) = n.
Proof.
  unfold batched. intros Hn.
  assert (Hlt : (n <? 1)%Z = false) by (apply Z.ltb_ge; lia). rewrite Hlt.
  destruct (batches_spec (Z.to_nat n) iterable (List.length iterable))
    as (Hcat & Hall & Hfull); [lia|lia|].
  eexists. split; [reflexivity|]. split; [exact Hcat|]. split.
  - eapply Forall_impl; [|exact Hall]. simpl. intros b Hb. lia.
  - intros l1 b l2 H Hne. rewrite (Hfull l1 b l2 H Hne). lia.
Qed.

Lemma string_forallb_app (p : ascii -> bool) (a b : string) :
  string_forallb p (a ++ b) = string_forallb p a && string_forallb p b.
Proof.
  induction a as [|c a IH]; simpl; [reflexivity|]. now rewrite IH, andb_assoc.
Qed.

Lemma occurs_in_char_app (c : ascii) (a b : string) :
  occurs_in (String c EmptyString) (a ++ b) = false <->
  occurs_in (String c EmptyString) a = false /\
  occurs_in (String c EmptyString) b = false.
Proof.
  rewrite !occurs_in_char, string_forallb_app. apply andb_true_iff.
Qed.

Lemma str_join_no_char (c : ascii) (sep : string) (l : list string) :
  occurs_in (String c EmptyString) sep = false ->
  Forall (fun x => occurs_in (String c EmptyString) x = false) l ->
  occurs_in (String c EmptyString) (str_join sep l) = false.
Proof.
  intros Hsep. induction 1 as [|x l Hx Hl IH]; [reflexivity|].
  destruct l as [|y l]; [exact Hx|].
  change (str_join sep (x :: y :: l)) with (x ++ sep ++ str_join sep (y :: l)).
  rewrite !occurs_in_char_app. auto.
Qed.

Lemma versionless_prefix (acc : string) :
  occurs_in "." (versionless acc) = false /\
  exists rest, acc = versionless acc ++ rest.
Proof.
  unfold versionless. destruct (occurs_in "." acc) eqn:E.
  - destruct (first_occurrence _ _ E) as (p & r & -> & Hp).
    rewrite (str_split_app "." p r Hp). simpl. split; [exact Hp|eauto].
  - rewrite (str_split_no_sep _ _ E). simpl. split; [exact E|].
    exists EmptyString. clear E. induction acc as [|c acc IH]; simpl; congruence.
Qed.

Lemma versionless_no_char (c : ascii) (acc : string) :
  occurs_in (String c EmptyString) acc = false ->
  occurs_in (String c EmptyString) (versionless acc) = false.
Proof.
  intros H. destruct (versionless_prefix acc) as (_ & rest & Hrest).
  rewrite Hrest in H. now apply occurs_in_char_app in H.
Qed.

Lemma str_split_lines (lines : list string) :
  Forall (fun x => occurs_in (String newline EmptyString) x = false) lines ->
  str_split newline
    (fold_right append EmptyString
       (map (fun line => line ++ String newline EmptyString) lines))
  = (lines ++ [EmptyString])%list.
Proof.
  induction 1 as [|x l Hx Hl IH]; [reflexivity|].
  cbn [map fold_right]. rewrite string_app_assoc. cbn [append].
  rewrite (str_split_app newline x _ Hx), IH. reflexivity.
Qed.

(** X7. versionless cuts an accession before its first dot, and leaves an
    accession without dot as it is. *)
Theorem versionless_before_first_dot (p s : string) :
  occurs_in "." p = false ->
  versionless (p ++ "." ++ s) = p /\ versionless p = p.
Proof.
  intros Hp. unfold versionless. split.
  - cbn [append]. now rewrite (str_split_app "." p s Hp).
  - now rewrite (str_split_no_sep _ _ Hp).
Qed.

(** X8. For a batch size of at least one and accessions without space or
    newline, download_genomes writes a text from which the batches of the
    versionless accessions are read back, line by line, and with them the
    versionless accessions in their order. *)
Theorem download_genomes_read_back (assemblies : list string) (batch_size : Z) :
  Forall one_word assemblies -> (1 <= batch_size)%Z ->
  exists content download_batches,
    download_genomes assemblies batch_size = Ok content /\
    batched (map versionless assemblies) batch_size = Ok download_batches /\
    read_batches content = download_batches /\
    List.concat (read_batches content) = map versionless assemblies.
Proof.
  intros Hwords Hn. unfold download_genomes, batched.
  - assert (Hlt : (batch_size <? 1)%Z = false) by (apply Z.ltb_ge; lia).
    rewrite Hlt. cbn [rbind].
    destruct (batches_spec (Z.to_nat batch_size) (map versionless assemblies)
                           (List.length (map versionless assemblies)))
      as (Hcat & Hlen & _); [lia|lia|].
    remember (batches (List.length (map versionless assemblies))
                      (Z.to_nat batch_size) (map versionless assemblies))
      as bs eqn:Ebs.
    clear Ebs. eexists. exists bs. split; [reflexivity|].
    split; [reflexivity|].
    assert (Hall : Forall (Forall one_word) bs).
    { rewrite Forall_forall. intros b Hb. rewrite Forall_forall. intros x Hx.
      assert (Hin : In x (map versionless assemblies)).
      { rewrite <- Hcat. apply in_concat. eauto. }
      apply in_map_iff in Hin as (a & <- & Ha).
      rewrite Forall_forall in Hwords. destruct (Hwords a Ha) as (H1 & H2).
      split; now apply versionless_no_char. }
    assert (Hread : read_batches
                      (fold_right append EmptyString
                         (map (fun batch => str_join " " batch ++ String newline EmptyString)
                              bs)) = bs).
    { unfold read_batches.
      rewrite <- (map_map (str_join " ") (fun l => l ++ String newline EmptyString)).
      rewrite str_split_lines.
      - rewrite removelast_last, map_map.
        clear Hcat. induction bs as [|b bs IH]; [reflexivity|].
        inversion Hall; subst. inversion Hlen as [|? ? Hb Hbs']; subst. cbn [map].
        rewrite IH by assumption. f_equal.
        apply str_split_join.
        + destruct b; [simpl in Hb; lia|discriminate].
        + eapply Forall_impl; [|eassumption]. now intros x (Hx & _).
      - rewrite Forall_forall. intros line Hline.
        apply in_map_iff in Hline as (b & <- & Hb).
        apply str_join_no_char; [reflexivity|].
        rewrite Forall_forall in Hall. specialize (Hall b Hb).
        eapply Forall_impl; [|exact Hall]. now intros x (_ & Hx). }
    split; [exact Hread|]. now rewrite Hread.
Qed.

(** ** extract_assembly: the match it returns *)

Lemma span_class_max (p : ascii -> bool) (s : string) :
  exists rest, s = span_class p s ++ rest /\ not_starting p rest.
Proof.
  induction s as [|c s (rest & Hrest & Hmax)]; simpl.
  - exists EmptyString. split; [reflexivity|]. intros c r H. discriminate.
  - destruct (p c) eqn:Ec.
    + exists rest. simpl. split; [now rewrite <- Hrest|exact Hmax].
    + exists (String c s). split; [reflexivity|].
      intros c' r H. inversion H; subst. exact Ec.
Qed.

Lemma span_class_app (p : ascii -> bool) (v post : string) :
  string_forallb p v = true -> not_starting p post ->
  span_class p (v ++ post) = v.
Proof.
  intros Hv Hpost. induction v as [|c v IH]; simpl in *.
  - destruct post as [|c r]; [reflexivity|]. simpl.
    now rewrite (Hpost c r eq_refl).
  - apply andb_true_iff in Hv as (Hc & Hv). rewrite Hc. now rewrite IH.
Qed.

Lemma match_accession_max (s m : string) :
  match_accession s = Some m ->
  exists post, s = m ++ post /\ not_starting is_version_digit post.
Proof.
  unfold match_accession.
  destruct s as [|g s]; [discriminate|].
  destruct (Ascii.ascii_dec g "G") as [->|Hg];
    [|destruct g as [[] [] [] [] [] [] [] []]; try discriminate; congruence].
  destruct s as [|c0 s]; [discriminate|].
  destruct (Ascii.ascii_dec c0 "C") as [->|Hc0];
    [|destruct c0 as [[] [] [] [] [] [] [] []]; try discriminate; congruence].
  destruct s as [|c s]; [discriminate|].
  destruct s as [|u s]; [discriminate|].
  destruct (Ascii.ascii_dec u "_") as [->|Hu];
    [|destruct u as [[] [] [] [] [] [] [] []]; try discriminate; congruence].
  destruct (is_gc_class c) eqn:Ec; [|discriminate].
  destruct (take_class is_digit 9 s) as [[digits rest]|] eqn:Et; [|discriminate].
  destruct rest as [|dot s2]; [discriminate|].
  destruct (Ascii.ascii_dec dot ".") as [->|Hdot];
    [|destruct dot as [[] [] [] [] [] [] [] []]; try discriminate; congruence].
  destruct (take_class_sound _ _ _ _ _ Et) as (-> & Hlen & Hdigits).
  destruct (span_class_max is_version_digit s2) as (post & Hpost & Hmax).
  destruct (span_class is_version_digit s2) as [|v0 v] eqn:Ev; [discriminate|].
  intros H. inversion H; subst m; clear H.
  exists post. split; [|exact Hmax].
  simpl. rewrite string_app_assoc. simpl. simpl in Hpost. now rewrite <- Hpost.
Qed.

Lemma match_accession_exact (m post : string) :
  accession_shape m -> not_starting is_version_digit post ->
  match_accession (m ++ post) = Some m.
Proof.
  intros (c & digits & version & -> & Hc & Hlen & Hdigits & Hne & Hver) Hpost.
  unfold match_accession. cbn [append]. rewrite Hc, string_app_assoc.
  cbn [append]. rewrite <- Hlen, (take_class_complete _ _ _ Hdigits).
  rewrite (span_class_app _ _ _ Hver Hpost).
  destruct version; [congruence|reflexivity].
Qed.

(** X9. extract_assembly returns the leftmost part of the path that has the
    shape of an accession, with all the version digits 1 to 9 that follow
    its dot and no more: a version is cut at its first 0.  It raises
    IndexError, and nothing else, when no part of the path has the shape. *)
Theorem extract_assembly_leftmost (path : string) :
  (forall a,
      extract_assembly path = Ok a ->
      accession_shape a /\
      exists pre post,
        path = pre ++ a ++ post /\ not_starting is_version_digit post /\
        forall pre' m post',
          path = pre' ++ m ++ post' -> accession_shape m ->
          (String.length pre <= String.length pre')%nat) /\
  (forall e, extract_assembly path = Raise e ->
             e = IndexError /\ no_accession path) /\
  (forall a post,
      accession_shape a -> not_starting is_version_digit post ->
      extract_assembly (a ++ post) = Ok a).
Proof.
  split; [|split].
  - unfold extract_assembly. intros a H.
    destruct (first_accession path) as [a'|] eqn:E; [|discriminate].
    inversion H; subst a'; clear H.
    split; [now destruct (first_accession_sound _ _ E)|].
    revert a E. induction path as [|c path IH]; intros a E.
    + cbn [first_accession] in E.
      destruct (match_accession EmptyString) eqn:Em; discriminate.
    + cbn [first_accession] in E.
      destruct (match_accession (String c path)) as [a'|] eqn:Em.
      * inversion E; subst a'.
        destruct (match_accession_max _ _ Em) as (post & Hpost & Hmax).
        exists EmptyString, post. split; [exact Hpost|]. split; [exact Hmax|].
        intros; simpl; lia.
      * destruct (IH a E) as (pre & post & Hpath & Hmax & Hleft).
        exists (String c pre), post. split; [simpl; now rewrite Hpath|].
        split; [exact Hmax|].
        intros pre' m post' Hp Hshape. destruct pre' as [|c' pre'].
        -- simpl in Hp.
           destruct (match_accession_complete m post' Hshape) as (x & Hx).
           rewrite <- Hp in Hx. congruence.
        -- simpl in Hp. inversion Hp; subst c'.
           simpl. apply le_n_S. eapply Hleft; eauto.
  - unfold extract_assembly. intros e H.
    destruct (first_accession path) eqn:E; [discriminate|].
    split; [congruence|now apply first_accession_None].
  - intros a post Hshape Hpost. unfold extract_assembly.
    pose proof (match_accession_exact a post Hshape Hpost) as Hm.
    destruct (a ++ post) as [|c s] eqn:Es.
    + cbn [first_accession]. now rewrite Hm.
    + cbn [first_accession]. now rewrite Hm.
Qed.

(** ** parse_dereplication_clusters: failures and rows *)

Lemma rmap_map_Ok {A B C : Type} (f : B -> result C) (g : A -> B) (l : list A)
      (ys : list C) :
  rmap f (map g l) = Ok ys -> Forall2 (fun x y => f (g x) = Ok y) l ys.
Proof.
  intros H. apply rmap_Ok in H. remember (map g l) as l' eqn:El.
  revert l El. induction H as [|x y l' ys Hxy _ IH]; intros l El.
  - destruct l; [constructor|discriminate].
  - destruct l as [|a l]; [discriminate|]. inversion El; subst.
    constructor; auto.
Qed.

Lemma rmap_raises {A B : Type} (f : A -> result B) (l : list A) (e : exn) :
  (forall x e', In x l -> f x = Raise e' -> e' = e) ->
  (exists x, In x l /\ forall y, f x <> Ok y) ->
  rmap f l = Raise e.
Proof.
  induction l as [|a l IH]; intros Hall (x & Hx & Hno); [destruct Hx|].
  simpl. destruct (f a) as [y|e'] eqn:Ea; simpl.
  - destruct Hx as [->|Hx]; [now destruct (Hno y)|].
    rewrite IH; [reflexivity| |eauto].
    intros z e' Hz. apply Hall. now right.
  - f_equal. apply (Hall a e'); [now left|exact Ea].
Qed.

Lemma remap_type_label_known (label : string) :
  (known_label label -> exists st, remap_type_label label = Ok st) /\
  (~ known_label label -> remap_type_label label = Raise KeyError).
Proof.
  unfold remap_type_label, known_label.
  destruct (String.eqb label "representative_to_self") eqn:E1.
  - apply String.eqb_eq in E1. split; [eauto|tauto].
  - destruct (String.eqb label "within_cutoffs_requested") eqn:E2.
    + apply String.eqb_eq in E2. split; [eauto|tauto].
    + apply String.eqb_neq in E1, E2. split; [tauto|reflexivity].
Qed.

Lemma has_duplicate_NoDup (l : list string) :
  has_duplicate l = false <-> NoDup l.
Proof.
  induction l as [|x l IH]; simpl.
  - split; [constructor|reflexivity].
  - rewrite orb_false_iff, IH. split.
    + intros (Hx & Hl). constructor; [|exact Hl]. intros Hin.
      assert (Ht : existsb (String.eqb x) l = true).
      { apply existsb_exists. exists x. split; [exact Hin|apply String.eqb_refl]. }
      congruence.
    + intros H. inversion H as [|? ? Hx Hl]; subst. split; [|exact Hl].
      apply not_true_iff_false. intros Ht. apply existsb_exists in Ht as (y & Hy & E).
      apply String.eqb_eq in E. now subst.
Qed.

Lemma zip3_assembly (a r : list string) (s : list status) :
  List.length r = List.length a -> List.length s = List.length a ->
  map assembly (zip3 a r s) = a.
Proof.
  revert r s. induction a as [|x a IH]; intros [|y r] [|z s] Hr Hs;
    try discriminate; simpl; [reflexivity|].
  f_equal. apply IH; simpl in *; lia.
Qed.

(** The rows read from the clustering table are its records, converted. *)
Lemma read_clustering_rows (records : list clustering_record)
      (df : list assembly_row) :
  read_clustering records = Ok df ->
  (forall x, In x df <->
             exists r, In r records /\
                       record_of r (assembly x) (assembly_representative x)
                                 (assembly_status x)) /\
  Permutation (map assembly df)
              (map (fun r => match extract_assembly (assembly_path r) with
                             | Ok a => a
                             | Raise _ => EmptyString
                             end) records).
Proof.
  unfold read_clustering. intros H.
  apply rbind_Ok in H as (accs & Ha & H).
  apply rbind_Ok in H as (reps & Hr & H).
  apply rbind_Ok in H as (sts & Hs & H).
  inversion H; subst df; clear H.
  apply rmap_map_Ok in Ha, Hr, Hs.
  assert (Hzip : (forall x, In x (zip3 accs reps sts) <->
                            exists r, In r records /\
                                      record_of r (assembly x)
                                                (assembly_representative x)
                                                (assembly_status x)) /\
                 map assembly (zip3 accs reps sts)
                 = map (fun r => match extract_assembly (assembly_path r) with
                                 | Ok a => a
                                 | Raise _ => EmptyString
                                 end) records).
  { clear - Ha Hr Hs. revert reps sts Hr Hs.
    induction Ha as [|r a records accs Hra _ IH]; intros reps sts Hr Hs.
    - inversion Hr; subst. inversion Hs; subst. simpl. split; [|reflexivity].
      intros x. split; [intros []|intros (r & [] & _)].
    - inversion Hr as [|? rep ? reps' Hrr Hr']; subst.
      inversion Hs as [|? st ? sts' Hrs Hs']; subst.
      destruct (IH _ _ Hr' Hs') as (Hin & Hmap). split.
      + intros x. cbn [zip3 In]. rewrite Hin. split.
        * intros [<-|(r' & Hr0 & Hrec)].
          -- exists r. split; [now left|]. simpl. unfold record_of. auto.
          -- exists r'. split; [now right|exact Hrec].
        * intros (r' & [<-|Hr0] & Hrec).
          -- left. destruct Hrec as (H1 & H2 & H3). destruct x as [xa xr xs].
             simpl in *. congruence.
          -- right. eauto.
      + cbn [zip3 map]. rewrite Hra, Hmap. reflexivity. }
  destruct Hzip as (Hin & Hmap). split.
  - intros x. rewrite <- Hin. split; intros Hx.
    + eapply Permutation_in; [apply Permutation_sym, stable_sort_perm|exact Hx].
    + eapply Permutation_in; [apply stable_sort_perm|exact Hx].
  - rewrite <- Hmap. apply Permutation_map, Permutation_sym, stable_sort_perm.
Qed.

Lemma rmap_length {A B : Type} (f : A -> result B) (l : list A) (ys : list B) :
  rmap f l = Ok ys -> List.length ys = List.length l.
Proof.
  intros H. apply rmap_Ok in H. induction H; simpl; congruence.
Qed.

(** X10. When every path of the clustering table holds an accession, the
    builder raises KeyError if a record has a type label other than the two
    it knows; with known labels it raises ValueError if two records give the
    same assembly accession, and returns a table otherwise. *)
Theorem parse_dereplication_clusters_failures (records : list clustering_record)
        (pairs : list (string * string)) (accs reps : list string) :
  rmap extract_assembly (map assembly_path records) = Ok accs ->
  rmap extract_assembly (map representative_path records) = Ok reps ->
  ((exists r, In r records /\ ~ known_label (type_label r)) ->
   parse_dereplication_clusters records pairs = Raise KeyError) /\
  (Forall (fun r => known_label (type_label r)) records ->
   (NoDup accs -> exists t, parse_dereplication_clusters records pairs = Ok t) /\
   (~ NoDup accs -> parse_dereplication_clusters records pairs = Raise ValueError)).
Proof.
  intros Ha Hr. unfold parse_dereplication_clusters, read_clustering.
  rewrite Ha, Hr. cbn [rbind]. split.
  - intros (r & Hin & Hno).
    rewrite (rmap_raises remap_type_label (map type_label records) KeyError);
      [reflexivity| |].
    + intros x e' _ Hx. destruct (remap_type_label_known x) as (Hk & Hu).
      unfold remap_type_label in Hx.
      destruct (String.eqb x "representative_to_self"); [discriminate|].
      destruct (String.eqb x "within_cutoffs_requested"); congruence.
    + exists (type_label r). split; [now apply in_map|].
      intros y Hy. rewrite (proj2 (remap_type_label_known _) Hno) in Hy.
      discriminate.
  - intros Hknown.
    destruct (rmap_total remap_type_label (map type_label records)) as (sts & Hs).
    { intros x Hx. apply in_map_iff in Hx as (r & <- & Hin).
      rewrite Forall_forall in Hknown.
      now apply (proj1 (remap_type_label_known _)), Hknown. }
    rewrite Hs. cbn [rbind].
    assert (Hperm : Permutation
                      (map assembly (stable_sort assembly_row_leb (zip3 accs reps sts)))
                      accs).
    { eapply perm_trans;
        [apply Permutation_map, Permutation_sym, stable_sort_perm|].
      rewrite zip3_assembly; [apply Permutation_refl| |].
      - rewrite (rmap_length _ _ _ Hr), (rmap_length _ _ _ Ha).
        now rewrite !length_map.
      - rewrite (rmap_length _ _ _ Hs), (rmap_length _ _ _ Ha).
        now rewrite !length_map. }
    unfold to_dict_index.
    destruct (has_duplicate
                (map assembly (stable_sort assembly_row_leb (zip3 accs reps sts))))
      eqn:Edup.
    + assert (Hdup : ~ NoDup accs).
      { intros Hnd.
        assert (Hnd' : NoDup (map assembly
                                  (stable_sort assembly_row_leb (zip3 accs reps sts)))).
        { eapply Permutation_NoDup; [apply Permutation_sym, Hperm|exact Hnd]. }
        apply has_duplicate_NoDup in Hnd'. congruence. }
      split; [intros Hnd; contradiction|reflexivity].
    + apply has_duplicate_NoDup in Edup. split; [cbn [rbind]; eauto|].
      intros Hdup. exfalso. apply Hdup.
      eapply Permutation_NoDup; [exact Hperm|exact Edup].
Qed.

Lemma map_scaffolds_In (a s : string) (pairs : list (string * string)) :
  In s (map_scaffolds a pairs) <-> In (s, a) pairs.
Proof.
  unfold map_scaffolds. rewrite in_map_iff. split.
  - intros ((s' & a') & <- & H). apply filter_In in H as (H & E).
    apply String.eqb_eq in E. simpl in *. now subst.
  - intros H. exists (s, a). split; [reflexivity|]. apply filter_In.
    split; [exact H|apply String.eqb_refl].
Qed.

Lemma dict_set_keeps (d : table) (r x : row) :
  In x d -> (scaffold x = scaffold r -> r = x) -> In x (dict_set d r).
Proof.
  induction d as [|y d IH]; simpl; [tauto|]. intros [->|Hx] Hsame.
  - destruct (String.eqb (scaffold x) (scaffold r)) eqn:E.
    + apply String.eqb_eq in E. left. now apply Hsame.
    + now left.
  - destruct (String.eqb (scaffold y) (scaffold r)); right; auto.
Qed.

Lemma dict_set_adds (d : table) (r : row) : In r (dict_set d r).
Proof.
  induction d as [|y d IH]; simpl; [now left|].
  destruct (String.eqb (scaffold y) (scaffold r)); [now left|now right].
Qed.

Section BuilderRows.
Variable pairs : list (string * string).
Variable df : list assembly_row.
Hypothesis pairs_unique : NoDup (map fst pairs).
Hypothesis df_unique : NoDup (map assembly df).

(** The row [x] is what the builder writes for its scaffold. *)
Local Abbreviation written x :=
  (exists a, In a df /\ In (scaffold x, assembly a) pairs /\
             representative x = assembly_representative a /\
             dereplication_status x = assembly_status a).

Lemma pairs_functional (s a b : string) :
  In (s, a) pairs -> In (s, b) pairs -> a = b.
Proof.
  clear df_unique. induction pairs as [|[s0 a0] l IH]; simpl; [tauto|].
  inversion pairs_unique as [|? ? Hs Hl]; subst.
  intros [H1|H1] [H2|H2].
  - congruence.
  - inversion H1; subst. exfalso. apply Hs. now apply (in_map fst) in H2.
  - inversion H2; subst. exfalso. apply Hs. now apply (in_map fst) in H1.
  - now apply IH.
Qed.

Lemma assembly_functional (a b : assembly_row) :
  In a df -> In b df -> assembly a = assembly b -> a = b.
Proof.
  clear pairs_unique. induction df as [|x l IH]; simpl; [tauto|].
  inversion df_unique as [|? ? Hx Hl]; subst.
  intros [->|Ha] [->|Hb] E.
  - reflexivity.
  - exfalso. apply Hx. rewrite E. now apply in_map.
  - exfalso. apply Hx. rewrite <- E. now apply in_map.
  - now apply IH.
Qed.

Lemma written_functional (x y : row) :
  written x -> written y -> scaffold x = scaffold y -> x = y.
Proof.
  intros (a & Ha & Hpa & Hra & Hsa) (b & Hb & Hpb & Hrb & Hsb) E.
  rewrite E in Hpa. pose proof (pairs_functional _ _ _ Hpa Hpb) as Hab.
  pose proof (assembly_functional _ _ Ha Hb Hab) as ->.
  destruct x, y. simpl in *. congruence.
Qed.

Lemma expand_assembly_fold (a : assembly_row) (l : list string) (d : table) :
  In a df -> (forall s, In s l -> In (s, assembly a) pairs) ->
  (forall x, In x d -> written x) ->
  let d' := fold_left (fun d s =>
                         dict_set d {| scaffold := s;
                                       representative := assembly_representative a;
                                       dereplication_status := assembly_status a |})
                      l d in
  (forall x, In x d' -> written x) /\
  (forall x, In x d -> In x d') /\
  (forall s, In s l ->
             In {| scaffold := s;
                   representative := assembly_representative a;
                   dereplication_status := assembly_status a |} d').
Proof.
  intros Ha. revert d. induction l as [|s l IH]; intros d Hl Hd; cbn [fold_left].
  - split; [exact Hd|]. split; [auto|]. intros s [].
  - assert (Hw : written {| scaffold := s;
                            representative := assembly_representative a;
                            dereplication_status := assembly_status a |}).
    { exists a. simpl. split; [exact Ha|]. split; [apply Hl; now left|auto]. }
    destruct (IH (dict_set d {| scaffold := s;
                                representative := assembly_representative a;
                                dereplication_status := assembly_status a |})
                 (fun s' Hs' => Hl s' (or_intror Hs')))
      as (H1 & H2 & H3).
    { intros x Hx. apply dict_set_In in Hx as [Hx| ->]; auto. }
    split; [exact H1|]. split.
    + intros x Hx. apply H2. apply dict_set_keeps; [exact Hx|].
      intros E. apply written_functional; auto.
    + intros s' [<-|Hs']; [|auto]. apply H2. apply dict_set_adds.
Qed.

Lemma expand_assembly_rows (d : table) (a : assembly_row) :
  In a df -> (forall x, In x d -> written x) ->
  (forall x, In x (expand_assembly pairs d a) -> written x) /\
  (forall x, In x d -> In x (expand_assembly pairs d a)) /\
  (forall s, In (s, assembly a) pairs ->
             In {| scaffold := s;
                   representative := assembly_representative a;
                   dereplication_status := assembly_status a |}
                (expand_assembly pairs d a)).
Proof.
  intros Ha Hd.
  destruct (expand_assembly_fold a (map_scaffolds (assembly a) pairs) d Ha)
    as (H1 & H2 & H3); [intros s; apply map_scaffolds_In|exact Hd|].
  split; [exact H1|]. split; [exact H2|].
  intros s Hs. apply H3. now apply map_scaffolds_In.
Qed.

Lemma fold_expand_rows (l : list assembly_row) (d : table) :
  incl l df -> (forall x, In x d -> written x) ->
  (forall x, In x (fold_left (expand_assembly pairs) l d) -> written x) /\
  (forall x, In x d -> In x (fold_left (expand_assembly pairs) l d)) /\
  (forall a s, In a l -> In (s, assembly a) pairs ->
               In {| scaffold := s;
                     representative := assembly_representative a;
                     dereplication_status := assembly_status a |}
                  (fold_left (expand_assembly pairs) l d)).
Proof.
  revert d. induction l as [|a l IH]; intros d Hincl Hd; cbn [fold_left].
  - split; [exact Hd|]. split; [auto|]. intros a s [].
  - assert (Ha : In a df) by (apply Hincl; now left).
    destruct (expand_assembly_rows d a Ha Hd) as (H1 & H2 & H3).
    destruct (IH (expand_assembly pairs d a)
                 (fun x Hx => Hincl x (or_intror Hx)) H1) as (K1 & K2 & K3).
    split; [exact K1|]. split; [auto|].
    intros b s [<-|Hb] Hs; [apply K2; now apply H3|now apply K3].
Qed.
End BuilderRows.

(** The rows of the table built from a dict of scaffold-assembly pairs. *)
Lemma builder_rows (records : list clustering_record)
        (pairs : list (string * string)) (t : table) :
  NoDup (map fst pairs) ->
  parse_dereplication_clusters records pairs = Ok t ->
  forall x,
    In x t <->
    exists r a,
      In r records /\ In (scaffold x, a) pairs /\
      record_of r a (representative x) (dereplication_status x).
Proof.
  intros Hpairs H. unfold parse_dereplication_clusters in H.
  apply rbind_Ok in H as (df & Hdf & H).
  apply rbind_Ok in H as (recs & Hrecs & H).
  inversion H; subst t; clear H.
  assert (Hnd : NoDup (map assembly df) /\ recs = df).
  { unfold to_dict_index in Hrecs.
    destruct (has_duplicate (map assembly df)) eqn:E; [discriminate|].
    split; [now apply has_duplicate_NoDup|congruence]. }
  destruct Hnd as (Hnd & ->). clear Hrecs.
  destruct (read_clustering_rows _ _ Hdf) as (Hrows & _).
  destruct (fold_expand_rows pairs df Hpairs Hnd df [] (incl_refl _))
    as (H1 & _ & H3); [intros x []|].
  intros x.
  assert (Hsort : In x (sort_values (fold_left (expand_assembly pairs) df []))
                  <-> In x (fold_left (expand_assembly pairs) df [])).
  { split; apply Permutation_in;
      [apply Permutation_sym, sort_values_perm|apply sort_values_perm]. }
  rewrite Hsort. split.
  - intros Hx. destruct (H1 x Hx) as (a & Ha & Hp & Hr & Hs).
    apply Hrows in Ha as (r & Hr0 & Hrec).
    exists r, (assembly a). rewrite Hr, Hs. auto.
  - intros (r & a & Hr & Hp & Hrec).
    assert (Ha : In {| assembly := a;
                       assembly_representative := representative x;
                       assembly_status := dereplication_status x |} df).
    { apply Hrows. exists r. auto. }
    specialize (H3 _ (scaffold x) Ha Hp). simpl in H3. now destruct x.
Qed.

(** X11. The table built by parse_dereplication_clusters from a dict of
    scaffold-assembly pairs has one row per scaffold whose assembly is in
    the clustering table, with the representative and the status of the
    record of that assembly, which is then what a look-up of the scaffold
    returns; scaffolds of other assemblies get no row. *)
Theorem parse_dereplication_clusters_rows (records : list clustering_record)
        (pairs : list (string * string)) (t : table) :
  NoDup (map fst pairs) ->
  parse_dereplication_clusters records pairs = Ok t ->
  (forall x,
      In x t <->
      exists r a,
        In r records /\ In (scaffold x, a) pairs /\
        record_of r a (representative x) (dereplication_status x)) /\
  (forall r s a rep st,
      In r records -> In (s, a) pairs -> record_of r a rep st ->
      loc_status t s = Ok st).
Proof.
  intros Hpairs Ht. pose proof (builder_rows _ _ _ Hpairs Ht) as Hrows.
  split; [exact Hrows|].
  intros r s a rep st Hr Hp Hrec.
  destruct (parse_dereplication_clusters_table _ _ _ Ht) as (Hnd & _ & _).
  assert (Hx : In {| scaffold := s; representative := rep;
                     dereplication_status := st |} t).
  { apply Hrows. exists r, a. auto. }
  exact (In_loc_status _ _ Hnd Hx).
Qed.

(** X12. The table built by parse_dereplication_clusters has each scaffold
    once, holds the statuses dereplication_representative and redundant
    only, and is sorted by representative and status. *)
Theorem parse_dereplication_clusters_invariants (records : list clustering_record)
        (pairs : list (string * string)) (t : table) :
  parse_dereplication_clusters records pairs = Ok t ->
  NoDup (map scaffold t) /\
  (forall m st, loc_status t m = Ok st ->
                st = dereplication_representative \/ st = redundant) /\
  Sorted row_le t.
Proof.
  intros H. destruct (parse_dereplication_clusters_table _ _ _ H) as (Hnd & Hb & Hs).
  split; [exact Hnd|]. split.
  - intros m st Hm. eapply base_table_status; eauto.
  - rewrite <- Hs. apply sort_values_Sorted.
Qed.

(** ** recover_hits: when it returns, and what it always keeps *)

Lemma loc_hit_raises (hits : hits_table) (m : string) (e : exn) :
  loc_hit hits m = Raise e -> e = KeyError.
Proof.
  induction hits as [|[s h] hits IH]; simpl; [congruence|].
  destruct (String.eqb s m); [discriminate|exact IH].
Qed.

Lemma loc_hits_raises (hits : hits_table) (group : list string) :
  (forall e, loc_hits hits group = Raise e -> e = KeyError) /\
  (forall m, In m group -> loc_hit hits m = Raise KeyError ->
             loc_hits hits group = Raise KeyError).
Proof.
  unfold loc_hits. induction group as [|x group (IH1 & IH2)]; simpl.
  - split; [discriminate|intros m []].
  - destruct (loc_hit hits x) as [h|e0] eqn:Ex; simpl.
    + destruct (rmap (fun m => rbind (loc_hit hits m) (fun h => Ok (m, h))) group)
        as [ys|e1] eqn:Er; simpl.
      * split; [discriminate|]. intros m [->|Hm] Hr; [congruence|].
        specialize (IH2 m Hm Hr). discriminate.
      * split; [intros e He; apply IH1; congruence|].
        intros m _ _. now rewrite (IH1 e1 eq_refl).
    + apply loc_hit_raises in Ex. subst e0.
      split; [congruence|reflexivity].
Qed.

(** A loop whose iterations return or raise [e], one of them raising [e]
    whatever it starts from, raises [e]. *)
Lemma for_each_raises {A S : Type} (body : S -> A -> M S) (l : list A) (e : exn) :
  (forall x, In x l ->
             (forall acc g, exists acc' g', body acc x g = Ok (acc', g')) \/
             (forall acc g, body acc x g = Raise e)) ->
  (exists x, In x l /\ forall acc g, body acc x g = Raise e) ->
  forall acc g, for_each body l acc g = Raise e.
Proof.
  induction l as [|a l IH]; intros Hall (x & Hx & Hr) acc g; [destruct Hx|].
  cbn [for_each]. unfold bind.
  destruct (Hall a (or_introl eq_refl)) as [Hok|Hraise].
  - destruct (Hok acc g) as (acc' & g' & Hbody). rewrite Hbody.
    destruct Hx as [->|Hx].
    + rewrite Hr in Hbody. discriminate.
    + apply IH; [intros; apply Hall; now right|eauto].
  - now rewrite Hraise.
Qed.

(** X13. With content recovery on, no score missing in the binary table
    and the random draw never empty (score recovery off, or min_score_diff
    positive), recover_hits returns a table when every scaffold of the
    status table has a row in the binary table, and raises KeyError when
    one has none. *)
Theorem recover_hits_returns_iff_covered (hits : hits_table) (t : table)
        (not_by_score : bool) (outlier_z min_score_diff : float) (g : rng) :
  NoDup (map scaffold t) -> numeric hits ->
  not_by_score = true \/ (0 <? min_score_diff)%float = true ->
  (covered hits t ->
   exists t' g',
     recover_hits hits t false not_by_score outlier_z min_score_diff g
     = Ok (t', g')) /\
  (forall m,
      In m (map scaffold t) -> loc_hit hits m = Raise KeyError ->
      recover_hits hits t false not_by_score outlier_z min_score_diff g
      = Raise KeyError).
Proof.
  intros Hnd Hnum Hor. split.
  - intros Hcov. apply recover_hits_total; auto.
  - intros m Hm Hmiss.
    assert (Hloop : for_each (process_genome_group hits t not_by_score outlier_z
                                                   min_score_diff)
                             (genome_groups t) t g = Raise KeyError).
    { apply for_each_raises.
      - intros item Hitem.
        destruct (loc_hits hits (snd item)) as [hg|e] eqn:Ehg.
        + left. intros acc g0. unfold process_genome_group, bind at 1, lift.
          rewrite Ehg. apply for_each_total. intros cg Hcg acc1 g1.
          apply (process_content_group_total hits);
            [exact Hnd|exact Hnum| |exact Hor].
          exists item, hg. auto.
        + right. intros acc g0. unfold process_genome_group, bind, lift.
          rewrite Ehg. f_equal. now apply (proj1 (loc_hits_raises hits (snd item))).
      - assert (Hin : In m (List.concat (map snd (genome_groups t)))).
        { eapply Permutation_in;
            [apply Permutation_sym, genome_groups_labels|exact Hm]. }
        apply in_concat in Hin as (group & Hgroup & Hmg).
        apply in_map_iff in Hgroup as (item & <- & Hitem).
        exists item. split; [exact Hitem|]. intros acc g0.
        unfold process_genome_group, bind, lift.
        now rewrite (proj2 (loc_hits_raises hits (snd item)) m Hmg Hmiss). }
    unfold recover_hits, bind, recover_updates. cbn [negb]. now rewrite Hloop.
Qed.

(** X14. With score recovery disabled no hit is flagged
    readded_by_outlier_score: such a status in the returned table was in the
    input already, and a table of the builder gets none. *)
Theorem not_by_score_flags_no_outlier (hits : hits_table) (t : table)
        (not_by_content : bool) (outlier_z min_score_diff : float)
        (g g' : rng) (t' : table) :
  NoDup (map scaffold t) ->
  recover_hits hits t not_by_content true outlier_z min_score_diff g
  = Ok (t', g') ->
  (forall m, loc_status t' m = Ok readded_by_outlier_score ->
             loc_status t m = Ok readded_by_outlier_score) /\
  (base_table t -> forall m, loc_status t' m <> Ok readded_by_outlier_score).
Proof.
  intros Hnd Hrun.
  assert (Hkeep : forall m, loc_status t' m = Ok readded_by_outlier_score ->
                            loc_status t m = Ok readded_by_outlier_score).
  { apply recover_hits_run in Hrun as (u & Hu & ->).
    pose proof (recover_updates_updates _ _ _ _ _ _ _ _ _ Hu) as (Hk & _).
    assert (Hndu : NoDup (map scaffold u)) by now rewrite (keys_scaffolds _ _ Hk).
    intros m. rewrite (loc_status_perm _ _ m Hndu (sort_values_perm u)).
    destruct not_by_content.
    - unfold recover_updates in Hu. simpl in Hu. apply ret_Ok in Hu as (-> & _).
      auto.
    - intros H.
      destruct (score_flag_sound _ _ _ _ _ _ _ _ _ Hu H)
        as [H0|(cg & st0 & _ & Hpath & _)]; [exact H0|].
      unfold score_path in Hpath. simpl in Hpath. discriminate. }
  split; [exact Hkeep|].
  intros Hbase m H. apply Hkeep in H.
  destruct (base_table_status _ _ _ Hbase H); discriminate.
Qed.

Lemma genome_loop_run (hits : hits_table) (t : table) nbs oz msd
      (items : list (string * list string)) (acc u : table) (g g' : rng) :
  for_each (process_genome_group hits t nbs oz msd) items acc g = Ok (u, g') ->
  exists hgs, rmap (fun item => loc_hits hits (snd item)) items = Ok hgs.
Proof.
  revert acc g. induction items as [|item items IH]; intros acc g H;
    cbn [for_each] in H.
  - exists []. reflexivity.
  - apply bind_Ok in H as (a & g1 & Hbody & Hrest).
    unfold process_genome_group in Hbody.
    apply bind_Ok in Hbody as (hg & g0 & Hhg & _).
    apply lift_Ok in Hhg as (Hhg & _).
    destruct (IH _ _ Hrest) as (hgs & Hhgs).
    exists (hg :: hgs). simpl. now rewrite Hhg, Hhgs.
Qed.

Lemma recover_hits_groups (hits : hits_table) (t : table) nbs oz msd
      (g g' : rng) (t' : table) :
  recover_hits hits t false nbs oz msd g = Ok (t', g') ->
  exists groups, run_groups hits t = Ok groups.
Proof.
  intros H. apply recover_hits_run in H as (u & Hu & _).
  unfold recover_updates in Hu. simpl in Hu.
  apply genome_loop_run in Hu as (hgs & Hhgs).
  unfold run_groups. rewrite Hhgs. simpl. eauto.
Qed.

Lemma in_get_dereplicated_scaffolds (t : table) (m : string) (st : status) :
  loc_status t m = Ok st -> st <> redundant -> In m (get_dereplicated_scaffolds t).
Proof.
  intros H Hne. apply loc_status_In in H as (r & Hr & <- & <-).
  unfold get_dereplicated_scaffolds. apply in_map. apply filter_In.
  split; [exact Hr|]. fold (kept r). now apply kept_iff.
Qed.

(** X15. After a run with content recovery, every content group of every
    genome cluster keeps a hit that is no score outlier: a hit of the
    representative assembly, or the one drawn and flagged
    readded_by_cluster_content. *)
Theorem every_content_group_keeps_a_hit (hits : hits_table) (t : table)
        (not_by_score : bool) (outlier_z min_score_diff : float)
        (g g' : rng) (t' : table) (cg : hits_table) :
  NoDup (map scaffold t) -> base_table t ->
  recover_hits hits t false not_by_score outlier_z min_score_diff g
  = Ok (t', g') ->
  content_group_of hits t cg ->
  exists m,
    In m (candidates not_by_score outlier_z min_score_diff cg) /\
    In m (group_labels cg) /\
    In m (get_dereplicated_scaffolds t') /\
    (loc_status t' m = Ok dereplication_representative \/
     loc_status t' m = Ok readded_by_cluster_content).
Proof.
  intros Hnd Hbase Hrun Hcg.
  destruct (recover_hits_groups _ _ _ _ _ _ _ _ Hrun) as (groups & Hgroups).
  rewrite (recover_hits_in_order _ _ _ _ _ _ _ Hgroups) in Hrun.
  destruct (in_order_statuses _ _ _ _ _ _ _ _ _ _ Hnd Hbase Hgroups
                              (Permutation_refl _) Hrun)
    as (_ & _ & Hrep & _ & Hct).
  destruct (Hct cg Hcg) as [(Hin & _)|(_ & r & Hr & Hone)].
  - apply representative_in_spec in Hin as (_ & Hiff).
    destruct (proj1 Hiff eq_refl) as (m & Hm & Hst).
    exists m. split; [exact Hm|].
    split; [now apply (candidates_incl not_by_score outlier_z min_score_diff)|].
    apply Hrep in Hst. split; [|now left].
    eapply in_get_dereplicated_scaffolds; [exact Hst|discriminate].
  - assert (Hl : In r (group_labels cg)).
    { now apply (candidates_incl not_by_score outlier_z min_score_diff). }
    exists r. split; [exact Hr|]. split; [exact Hl|].
    assert (Hst : loc_status t' r = Ok readded_by_cluster_content)
      by now apply (Hone r Hl).
    split; [|now right].
    eapply in_get_dereplicated_scaffolds; [exact Hst|discriminate].
Qed.

(** ** main: from the clustering table to the retained scaffolds *)

(** X16. When steps 6 to 8 of main return, the list of retained scaffolds has
    no duplicate, holds only scaffolds of the scaffold-assembly dict, and
    holds every scaffold of an assembly that the clustering table gives as
    a dereplication representative. *)
Theorem main_steps_retained (records : list clustering_record)
        (pairs : list (string * string)) (hits : hits_table)
        (no_revisit_by_content no_revisit_by_score : bool)
        (outlier_z min_score_diff : float) (g g' : rng) (retained : list string) :
  NoDup (map fst pairs) ->
  main_steps records pairs hits no_revisit_by_content no_revisit_by_score
             outlier_z min_score_diff g = Ok (retained, g') ->
  NoDup retained /\
  (forall s, In s retained -> exists a, In (s, a) pairs) /\
  (forall r s a rep,
      In r records -> In (s, a) pairs ->
      record_of r a rep dereplication_representative ->
      In s retained).
Proof.
  intros Hpairs H. unfold main_steps in H.
  apply bind_Ok in H as (t & g1 & Ht & H). apply lift_Ok in Ht as (Ht & ->).
  apply bind_Ok in H as (t' & g2 & Hrun & H). apply ret_Ok in H as (-> & ->).
  destruct (parse_dereplication_clusters_table _ _ _ Ht) as (Hnd & _ & _).
  destruct (recover_hits_updates _ _ _ _ _ _ _ _ _ Hnd Hrun) as (Hk & Hnd' & Hup).
  pose proof (builder_rows _ _ _ Hpairs Ht) as Hrows.
  split; [|split].
  - unfold get_dereplicated_scaffolds. now apply NoDup_map_filter.
  - intros s Hs. unfold get_dereplicated_scaffolds in Hs.
    apply in_map_iff in Hs as (x' & <- & Hx'). apply filter_In in Hx' as (Hx' & _).
    assert (Hin : In (scaffold x') (map scaffold t)).
    { assert (Hs : forall v, map scaffold v = map fst (map row_key v)).
      { intros v. now rewrite map_map. }
      rewrite Hs. eapply Permutation_in;
        [apply Permutation_map, Permutation_sym, Hk|].
      rewrite <- Hs. now apply in_map. }
    apply in_map_iff in Hin as (x & Hx & Hxt).
    apply Hrows in Hxt as (r & a & _ & Hp & _). rewrite Hx in Hp. eauto.
  - intros r s a rep Hr Hp Hrec.
    assert (Hx : In {| scaffold := s; representative := rep;
                       dereplication_status := dereplication_representative |} t).
    { apply Hrows. exists r, a. auto. }
    apply (In_loc_status _ _ Hnd) in Hx. simpl in Hx.
    destruct (Hup _ _ Hx) as (st' & Hst' & [->|(Hne & _)]); [|congruence].
    eapply in_get_dereplicated_scaffolds; [exact Hst'|discriminate].
Qed.

(** ** The cluster sizes *)

Lemma length_concat_sum {A : Type} (ls : list (list A)) :
  List.length (List.concat ls) = list_sum (map (@List.length A) ls).
Proof.
  induction ls as [|l ls IH]; simpl; [reflexivity|].
  now rewrite length_app, IH.
Qed.

(** X17. The sizes written to genome_cluster_sizes.txt count the rows of the
    status table, that is the scaffolds with a hit, per representative: each
    representative of the table is listed once with the number of its rows,
    which is at least one and is the number of scaffolds recover_hits finds
    in the genome group, and the sizes add up to the number of rows. *)
Theorem clust_size_counts_rows (t : table) :
  list_sum (map snd (clust_size t)) = List.length t /\
  NoDup (map fst (clust_size t)) /\
  (forall rep, In rep (map fst (clust_size t)) <-> In rep (map representative t)) /\
  (forall rep n,
      In (rep, n) (clust_size t) ->
      (1 <= n)%nat /\
      exists group, In (rep, group) (genome_groups t) /\ List.length group = n).
Proof.
  assert (Hkeys : map fst (clust_size t) = representative_keys t).
  { unfold clust_size. rewrite map_map. simpl. apply map_id. }
  assert (Hnd : NoDup (representative_keys t)).
  { unfold representative_keys.
    eapply Permutation_NoDup; [apply stable_sort_perm|apply NoDup_nodup]. }
  assert (Hin : forall rep, In rep (representative_keys t) <->
                            In rep (map representative t)).
  { intros rep. unfold representative_keys. split; intros H.
    - eapply Permutation_in in H; [|apply Permutation_sym, stable_sort_perm].
      now apply nodup_In in H.
    - apply in_stable_sort. now apply nodup_In. }
  split; [|split; [|split]].
  - unfold clust_size. rewrite map_map. simpl.
    rewrite <- (map_map (fun rep => filter (fun r => String.eqb (representative r) rep) t)
                        (@List.length row)).
    rewrite <- length_concat_sum.
    apply Permutation_length.
    apply (keyed_partition representative String.eqb String.eqb_eq).
    + exact Hnd.
    + intros r Hr. apply Hin. now apply in_map.
  - now rewrite Hkeys.
  - intros rep. now rewrite Hkeys.
  - intros rep n H. unfold clust_size in H.
    apply in_map_iff in H as (rep' & Heq & Hrep). inversion Heq; subst rep' n.
    split.
    + apply Hin in Hrep. apply in_map_iff in Hrep as (r & Hr & Hrt).
      assert (Hf : In r (filter (fun r => String.eqb (representative r) rep) t)).
      { apply filter_In. split; [exact Hrt|]. rewrite Hr. apply String.eqb_refl. }
      destruct (filter (fun r => String.eqb (representative r) rep) t);
        [destruct Hf|simpl; lia].
    + exists (map scaffold (filter (fun r => String.eqb (representative r) rep) t)).
      split; [|apply length_map].
      unfold genome_groups. apply in_map_iff. exists rep. auto.
Qed.

(** ** write_output: the line and the cluster found for a scaffold *)

Lemma match_here_ones {R : Type} (ks : list char_class) (q : list atom)
      (next : string -> option R) (s : string) :
  match_here (map One ks ++ q)%list next s
  = match take_ones ks s with
    | Some r => match_here q next r
    | None => None
    end.
Proof.
  revert s. induction ks as [|k ks IH]; intros s; [reflexivity|].
  cbn [map app match_here take_ones]. destruct s as [|x s]; [reflexivity|].
  destruct (accepts k x); [apply IH|reflexivity].
Qed.

Lemma scaffold_pattern_ones (scaffold : string) :
  scaffold_pattern scaffold = map One (id_classes scaffold).
Proof. unfold scaffold_pattern, id_classes. now rewrite map_map. Qed.

Lemma first_after_line (s : string) : s = first_line s ++ after_line s.
Proof.
  induction s as [|x s IH]; simpl; [reflexivity|].
  destruct (Ascii.eqb x newline); simpl; [reflexivity|]. now rewrite <- IH.
Qed.

Lemma length_append (a b : string) :
  String.length (a ++ b) = (String.length a + String.length b)%nat.
Proof. induction a as [|x a IH]; simpl; [reflexivity|]. now rewrite IH. Qed.

Lemma substring_prefix (a b : string) : substring 0 (String.length a) (a ++ b) = a.
Proof.
  induction a as [|x a IH]; simpl.
  - destruct b; reflexivity.
  - now rewrite IH.
Qed.

Lemma matched_app (a b : string) : matched (a ++ b) b = a.
Proof.
  unfold matched. rewrite length_append.
  replace (String.length a + String.length b - String.length b)%nat
    with (String.length a) by lia.
  apply substring_prefix.
Qed.

Lemma star_any_end {R : Type} (f : string -> R) (s : string) :
  star_match AnyChar (fun r => Some (f r)) s = Some (f (after_line s)).
Proof.
  induction s as [|x s IH]; simpl; [reflexivity|].
  destruct (Ascii.eqb x newline); simpl; [reflexivity|]. now rewrite IH.
Qed.

(** Classes that refuse the newline keep a match within the first line. *)
Lemma take_ones_line (ks : list char_class) (s r : string) :
  Forall (fun k => accepts k newline = false) ks ->
  take_ones ks s = Some r ->
  after_line s = after_line r /\
  exists m, first_line s = m ++ first_line r /\ take_ones ks m = Some EmptyString.
Proof.
  intros Hks. revert s. induction Hks as [|k ks Hk _ IH]; intros s H.
  - inversion H; subst. split; [reflexivity|]. now exists EmptyString.
  - cbn [take_ones] in H. destruct s as [|x s]; [discriminate|].
    destruct (accepts k x) eqn:Ex; [|discriminate].
    destruct (IH _ H) as (Ha & m & Hf & Hm).
    assert (Hx : Ascii.eqb x newline = false).
    { apply not_true_iff_false. intros E. apply Ascii.eqb_eq in E. congruence. }
    simpl. rewrite Hx. split; [exact Ha|].
    exists (String x m). split; [simpl; now rewrite Hf|].
    cbn [take_ones]. now rewrite Ex.
Qed.

Lemma take_ones_app (ks : list char_class) (m post : string) :
  take_ones ks m = Some EmptyString -> take_ones ks (m ++ post) = Some post.
Proof.
  revert m. induction ks as [|k ks IH]; intros m H; cbn [take_ones] in *.
  - inversion H. reflexivity.
  - destruct m as [|x m]; [discriminate|]. simpl.
    destruct (accepts k x); [now apply IH|discriminate].
Qed.

Lemma take_ones_first_line (ks : list char_class) (s : string) :
  Forall (fun k => accepts k newline = false) ks ->
  (exists r, take_ones ks s = Some r) <->
  (exists r, take_ones ks (first_line s) = Some r).
Proof.
  intros Hks. split; intros (r & H).
  - destruct (take_ones_line _ _ _ Hks H) as (_ & m & Hf & Hm).
    rewrite Hf. exists (first_line r). now apply take_ones_app.
  - rewrite (first_after_line s).
    revert H. generalize (first_line s) (after_line s). clear s.
    intros a b. revert a. clear Hks.
    induction ks as [|k ks IH]; intros a H; cbn [take_ones] in *; [eauto|].
    destruct a as [|x a]; [discriminate|]. simpl.
    destruct (accepts k x); [now apply IH|discriminate].
Qed.

Lemma plain_id_classes (scaffold : string) :
  plain_id scaffold ->
  Forall (fun k => accepts k newline = false) (id_classes scaffold).
Proof.
  unfold plain_id, id_classes.
  induction scaffold as [|c s IH]; simpl; intros H; [constructor|].
  apply andb_true_iff in H as (Hc & Hs). constructor; [|now apply IH].
  unfold id_class. destruct (Ascii.eqb c ".") eqn:Ed; [reflexivity|].
  cbn [accepts]. apply negb_true_iff in Hc. unfold is_meta in Hc.
  cbn [existsb] in Hc. apply orb_false_iff in Hc as (Hn & _).
  rewrite Ascii.eqb_sym. exact Hn.
Qed.

Lemma id_at_first_line (scaffold s : string) :
  plain_id scaffold -> id_at scaffold s = id_at scaffold (first_line s).
Proof.
  intros Hp. pose proof (take_ones_first_line _ s (plain_id_classes _ Hp)) as H.
  unfold id_at.
  destruct (take_ones (id_classes scaffold) s) as [r|];
    destruct (take_ones (id_classes scaffold) (first_line s)) as [r'|];
    try reflexivity.
  - destruct (proj1 H (ex_intro _ r eq_refl)); discriminate.
  - destruct (proj2 H (ex_intro _ r' eq_refl)); discriminate.
Qed.

(** The first pattern at one position: it takes the whole first line when
    the line holds the ID from this position on. *)
Lemma hit_at (scaffold s0 : string) :
  plain_id scaffold ->
  match_here (Star AnyChar :: scaffold_pattern scaffold ++ [Star AnyChar])%list
             (fun rest => Some (matched s0 rest)) s0
  = if id_in scaffold (first_line s0) then Some (first_line s0) else None.
Proof.
  intros Hp. cbn [match_here]. rewrite scaffold_pattern_ones.
  assert (Hv : matched s0 (after_line s0) = first_line s0).
  { rewrite (first_after_line s0) at 1. apply matched_app. }
  assert (Hnext : forall t,
             after_line t = after_line s0 ->
             match_here (map One (id_classes scaffold) ++ [Star AnyChar])%list
                        (fun rest => Some (matched s0 rest)) t
             = if id_at scaffold t then Some (first_line s0) else None).
  { intros t Ht. rewrite match_here_ones. unfold id_at.
    destruct (take_ones (id_classes scaffold) t) as [r|] eqn:Er; [|reflexivity].
    cbn [match_here]. rewrite star_any_end.
    destruct (take_ones_line _ _ _ (plain_id_classes _ Hp) Er) as (Ha & _).
    now rewrite <- Ha, Ht, Hv. }
  assert (Hloop : forall t,
             after_line t = after_line s0 ->
             star_match AnyChar
               (match_here (map One (id_classes scaffold) ++ [Star AnyChar])%list
                           (fun rest => Some (matched s0 rest))) t
             = if id_in scaffold (first_line t) then Some (first_line s0) else None).
  { induction t as [|x t IH]; intros Ht.
    - cbn [star_match]. rewrite (Hnext _ Ht). simpl. now rewrite orb_false_r.
    - cbn [star_match accepts]. destruct (Ascii.eqb x newline) eqn:Ex.
      + cbn [negb]. rewrite (Hnext _ Ht), (id_at_first_line _ _ Hp).
        simpl. rewrite Ex. simpl. now rewrite orb_false_r.
      + cbn [negb]. simpl in Ht. rewrite Ex in Ht. rewrite (IH Ht).
        cbn [first_line]. rewrite Ex. cbn [id_in].
        destruct (id_in scaffold (first_line t)).
        * now rewrite orb_true_r.
        * rewrite orb_false_r, (Hnext (String x t)).
          -- rewrite (id_at_first_line _ (String x t) Hp). simpl. now rewrite Ex.
          -- simpl. now rewrite Ex. }
  apply (Hloop s0 eq_refl).
Qed.

Lemma str_split_first_line (text : string) :
  str_split newline text
  = first_line text
      :: match after_line text with
         | String _ text' => str_split newline text'
         | EmptyString => []
         end.
Proof.
  induction text as [|x t IH]; [reflexivity|].
  cbn [str_split first_line after_line].
  destruct (Ascii.eqb x newline); [reflexivity|]. now rewrite IH.
Qed.

Lemma after_line_shorter (text : string) (x : ascii) (text' : string) :
  after_line text = String x text' ->
  (String.length text' < String.length text)%nat.
Proof.
  induction text as [|y t IH]; simpl; [discriminate|].
  destruct (Ascii.eqb y newline).
  - intros H. inversion H; subst. lia.
  - intros H. specialize (IH H). lia.
Qed.

Lemma search_hit (scaffold text : string) :
  plain_id scaffold ->
  cleaned_hit scaffold text
  = if id_in scaffold (first_line text) then Some (first_line text)
    else match after_line text with
         | String _ text' => cleaned_hit scaffold text'
         | EmptyString => None
         end.
Proof.
  intros Hp. unfold cleaned_hit.
  induction text as [|x t IH]; cbn [search]; rewrite (hit_at _ _ Hp).
  - cbn [first_line after_line]. destruct (id_in scaffold EmptyString); reflexivity.
  - destruct (id_in scaffold (first_line (String x t))) eqn:E; [reflexivity|].
    cbn [first_line after_line] in *. destruct (Ascii.eqb x newline); [reflexivity|].
    cbn [id_in] in E. apply orb_false_iff in E as (_ & E).
    now rewrite IH, E.
Qed.

(** The line written for a scaffold is the first line of the text, in the
    order of the lines, that holds its ID. *)
Lemma cleaned_hit_find (scaffold text : string) :
  plain_id scaffold ->
  cleaned_hit scaffold text = find (id_in scaffold) (str_split newline text).
Proof.
  intros Hp.
  assert (H : forall n text, (String.length text <= n)%nat ->
                             cleaned_hit scaffold text
                             = find (id_in scaffold) (str_split newline text)).
  { clear text. induction n as [|n IH]; intros text Hlen.
    - destruct text; [|simpl in Hlen; lia].
      rewrite (search_hit _ _ Hp). reflexivity.
    - rewrite (search_hit _ _ Hp), str_split_first_line. cbn [find].
      destruct (id_in scaffold (first_line text)); [reflexivity|].
      destruct (after_line text) as [|x text'] eqn:Ea; [reflexivity|].
      apply IH. apply after_line_shorter in Ea. lia. }
  now apply (H (String.length text)).
Qed.

Lemma take_ones_split (ks : list char_class) (s r : string) :
  take_ones ks s = Some r ->
  exists m, s = m ++ r /\ take_ones ks m = Some EmptyString.
Proof.
  revert s. induction ks as [|k ks IH]; intros s H; cbn [take_ones] in *.
  - inversion H; subst. now exists EmptyString.
  - destruct s as [|x s]; [discriminate|].
    destruct (accepts k x) eqn:Ex; [|discriminate].
    destruct (IH _ H) as (m & -> & Hm). exists (String x m).
    split; [reflexivity|]. cbn [take_ones]. now rewrite Ex.
Qed.

Lemma id_in_holds (scaffold line : string) :
  id_in scaffold line = true <-> holds_id scaffold line.
Proof.
  unfold holds_id, id_matches. induction line as [|x l IH]; cbn [id_in].
  - rewrite orb_false_r. unfold id_at. split.
    + destruct (take_ones (id_classes scaffold) EmptyString) as [r|] eqn:E;
        [|discriminate].
      intros _. destruct (take_ones_split _ _ _ E) as (m & Hm & Ht).
      exists EmptyString, m, r. auto.
    + intros (pre & m & post & H & Hm).
      destruct pre; [|discriminate]. simpl in H. rewrite H.
      now rewrite (take_ones_app _ _ post Hm).
  - rewrite orb_true_iff, IH. unfold id_at. split.
    + intros [H|(pre & m & post & -> & Hm)].
      * destruct (take_ones (id_classes scaffold) (String x l)) as [r|] eqn:E;
          [|discriminate].
        destruct (take_ones_split _ _ _ E) as (m & Hm & Ht).
        exists EmptyString, m, r. auto.
      * exists (String x pre), m, post. auto.
    + intros (pre & m & post & H & Hm). destruct pre as [|y pre].
      * left. simpl in H. rewrite H. now rewrite (take_ones_app _ _ post Hm).
      * right. simpl in H. inversion H; subst. eauto.
Qed.

Lemma find_first {A : Type} (f : A -> bool) (l : list A) :
  (forall x, find f l = Some x <->
             exists l1 l2, l = (l1 ++ x :: l2)%list /\ f x = true /\
                           Forall (fun y => f y = false) l1) /\
  (find f l = None <-> Forall (fun y => f y = false) l).
Proof.
  induction l as [|y l (IH1 & IH2)]; cbn [find].
  - split; [|split; auto]. intros x. split; [discriminate|].
    intros ([|? ?] & l2 & H & _); discriminate.
  - destruct (f y) eqn:Ey.
    + split.
      * intros x. split.
        -- intros H. inversion H; subst. exists [], l. auto.
        -- intros (l1 & l2 & H & Hx & Hall). destruct l1 as [|z l1].
           ++ inversion H. reflexivity.
           ++ inversion H; subst. inversion Hall; congruence.
      * split; [discriminate|]. intros H. inversion H; congruence.
    + split.
      * intros x. rewrite IH1. split.
        -- intros (l1 & l2 & -> & Hx & Hall). exists (y :: l1), l2. auto.
        -- intros (l1 & l2 & H & Hx & Hall). destruct l1 as [|z l1].
           ++ inversion H; subst. congruence.
           ++ inversion H; subst. inversion Hall; subst. eauto.
      * rewrite IH2. split; intros H; [constructor; auto|now inversion H].
Qed.

(** X18. For a scaffold ID without other pattern characters than dots, the
    hit that write_output copies to cleaned_binary.txt is the first line of
    the binary table, its header included, that holds a text matching the
    ID with each dot read as any character: the whole line, whichever
    scaffold stands in it.  When no line holds one, the search finds nothing
    and the function ends in an AttributeError. *)
Theorem cleaned_hit_first_line (scaffold file_content : string) :
  plain_id scaffold ->
  (forall line,
      cleaned_hit scaffold file_content = Some line <->
      exists l1 l2,
        str_split newline file_content = (l1 ++ line :: l2)%list /\
        holds_id scaffold line /\
        Forall (fun l => ~ holds_id scaffold l) l1) /\
  (cleaned_hit scaffold file_content = None <->
   Forall (fun l => ~ holds_id scaffold l) (str_split newline file_content)).
Proof.
  intros Hp. rewrite (cleaned_hit_find _ _ Hp).
  destruct (find_first (id_in scaffold) (str_split newline file_content))
    as (H1 & H2).
  assert (Hneg : forall l,
             Forall (fun y => id_in scaffold y = false) l <->
             Forall (fun y => ~ holds_id scaffold y) l).
  { intros l. rewrite !Forall_forall. split; intros H x Hx.
    - rewrite <- id_in_holds, (H x Hx). discriminate.
    - apply not_true_iff_false. rewrite id_in_holds. now apply H. }
  split.
  - intros line. rewrite H1. split; intros (l1 & l2 & Hl & Hx & Hall);
      exists l1, l2; (split; [exact Hl|]); (split; [now apply id_in_holds|]);
      now apply Hneg.
  - now rewrite H2, Hneg.
Qed.

Lemma star_match_sound {R : Type} (k : char_class) (next : string -> option R)
      (s : string) (v : R) :
  star_match k next s = Some v ->
  exists run rest,
    s = run ++ rest /\ string_forallb (accepts k) run = true /\
    next rest = Some v.
Proof.
  induction s as [|x s IH]; cbn [star_match].
  - intros H. now exists EmptyString, EmptyString.
  - destruct (accepts k x) eqn:Ex.
    + destruct (star_match k next s) as [r|] eqn:Es.
      * intros H. inversion H; subst r.
        destruct (IH eq_refl) as (run & rest & -> & Hrun & Hnext).
        exists (String x run), rest. simpl. rewrite Ex, Hrun. auto.
      * intros H. now exists EmptyString, (String x s).
    + intros H. now exists EmptyString, (String x s).
Qed.

Lemma star_match_run {R : Type} (k : char_class) (next : string -> option R)
      (run rest : string) (v : R) :
  string_forallb (accepts k) run = true ->
  star_match k next rest = Some v ->
  star_match k next (run ++ rest) = Some v.
Proof.
  induction run as [|x run IH]; simpl; intros Hrun H; [exact H|].
  apply andb_true_iff in Hrun as (Hx & Hrun). rewrite Hx.
  now rewrite (IH Hrun H).
Qed.

Lemma star_match_stop {R : Type} (k : char_class) (next : string -> option R)
      (rest : string) :
  not_starting (accepts k) rest -> star_match k next rest = next rest.
Proof.
  intros H. destruct rest as [|x r]; [reflexivity|].
  cbn [star_match]. now rewrite (H x r eq_refl).
Qed.

(** A starred class at the end of a pattern takes the whole run. *)
Lemma star_match_end {R : Type} (k : char_class) (f : string -> R) (s : string) :
  exists run rest,
    s = run ++ rest /\ string_forallb (accepts k) run = true /\
    not_starting (accepts k) rest /\
    star_match k (fun r => Some (f r)) s = Some (f rest).
Proof.
  induction s as [|x s (run & rest & Hs & Hrun & Hstop & Hm)].
  - exists EmptyString, EmptyString. repeat split; auto. intros c r H. discriminate.
  - cbn [star_match]. destruct (accepts k x) eqn:Ex.
    + exists (String x run), rest. rewrite Hm. simpl. rewrite Ex, Hrun, <- Hs. auto.
    + exists EmptyString, (String x s). repeat split; auto.
      intros c r H. inversion H; subst. exact Ex.
Qed.

Lemma take_ones_literal (w s r : string) :
  take_ones (map Lit (list_ascii_of_string w)) s = Some r <-> s = w ++ r.
Proof.
  revert s. induction w as [|c w IH]; intros s; cbn [list_ascii_of_string map take_ones].
  - simpl. split; congruence.
  - destruct s as [|x s].
    + split; discriminate.
    + cbn [accepts]. destruct (Ascii.eqb x c) eqn:E.
      * apply Ascii.eqb_eq in E. subst x. rewrite IH. simpl.
        split; [congruence|]. intros H. now inversion H.
      * apply Ascii.eqb_neq in E. split; [discriminate|].
        simpl. intros H. inversion H. congruence.
Qed.

Lemma literal_ones (w : string) :
  literal w = map One (map Lit (list_ascii_of_string w)).
Proof. unfold literal. now rewrite map_map. Qed.

Lemma run_split_unique (p : ascii -> bool) (a b a' b' : string) :
  string_forallb p a = true -> not_starting p b ->
  string_forallb p a' = true -> not_starting p b' ->
  a ++ b = a' ++ b' -> a = a' /\ b = b'.
Proof.
  revert a'. induction a as [|x a IH]; intros a' Ha Hb Ha' Hb' H.
  - destruct a' as [|y a']; [auto|]. simpl in *.
    apply andb_true_iff in Ha' as (Hy & _).
    rewrite (Hb y (a' ++ b') H) in Hy. discriminate.
  - destruct a' as [|y a']; simpl in *.
    + apply andb_true_iff in Ha as (Hx & _).
      rewrite (Hb' x (a ++ b) (eq_sym H)) in Hx. discriminate.
    + inversion H; subst y. apply andb_true_iff in Ha as (_ & Ha).
      apply andb_true_iff in Ha' as (_ & Ha').
      destruct (IH a' Ha Hb Ha' Hb' H2) as (-> & ->). auto.
Qed.

(** The second pattern at one position. *)
Lemma cluster_at (scaffold s c : string) :
  match_here
    (scaffold_pattern scaffold
     ++ [One (Lit newline); Star (Lit "-"); One (Lit newline)])%list
    (fun group2 =>
       match_here (literal "Cluster " ++ [Star Digit])%list
                  (fun rest => Some (matched group2 rest)) group2) s
  = Some c <->
  cluster_entry scaffold s c.
Proof.
  rewrite scaffold_pattern_ones, match_here_ones. split.
  - destruct (take_ones (id_classes scaffold) s) as [r1|] eqn:E1; [|discriminate].
    destruct (take_ones_split _ _ _ E1) as (m & -> & Hm).
    cbn [match_here]. destruct r1 as [|x r2]; [discriminate|].
    cbn [accepts]. destruct (Ascii.eqb x newline) eqn:Ex; [|discriminate].
    apply Ascii.eqb_eq in Ex. subst x. intros H.
    apply star_match_sound in H as (dashes & r3 & -> & Hd & H).
    destruct r3 as [|y r4]; [discriminate|]. cbn [accepts] in H.
    destruct (Ascii.eqb y newline) eqn:Ey; [|discriminate].
    apply Ascii.eqb_eq in Ey. subst y.
    rewrite literal_ones, match_here_ones in H.
    destruct (take_ones (map Lit (list_ascii_of_string "Cluster ")) r4)
      as [r5|] eqn:E5; [|discriminate].
    apply take_ones_literal in E5. subst r4. cbn [match_here] in H.
    destruct (star_match_end Digit (matched ("Cluster " ++ r5)) r5)
      as (digits & post & -> & Hdig & Hpost & Hm5).
    rewrite Hm5 in H.
    assert (Hc : matched ("Cluster " ++ digits ++ post) post = "Cluster " ++ digits).
    { rewrite <- string_app_assoc. apply matched_app. }
    rewrite Hc in H.
    assert (Heq : c = "Cluster " ++ digits) by congruence. clear H.
    exists m, dashes, digits, post. rewrite Heq.
    split; [now rewrite (string_app_assoc "Cluster " digits post)|].
    repeat split; auto.
  - intros (m & dashes & digits & post & -> & Hm & Hd & -> & Hdig & Hpost).
    rewrite (take_ones_app _ _ _ Hm). cbn [match_here accepts].
    rewrite Ascii.eqb_refl.
    apply star_match_run; [exact Hd|].
    rewrite star_match_stop by (intros x r H; inversion H; subst; reflexivity).
    cbn [accepts]. rewrite Ascii.eqb_refl.
    rewrite literal_ones, match_here_ones.
    rewrite (proj2 (take_ones_literal "Cluster " _ (digits ++ post)))
      by (now rewrite string_app_assoc).
    cbn [match_here].
    destruct (star_match_end Digit
                (matched (("Cluster " ++ digits) ++ post)) (digits ++ post))
      as (digits' & post' & Heq & Hdig' & Hpost' & Hm5).
    rewrite Hm5.
    destruct (run_split_unique is_digit digits post digits' post'
                               Hdig Hpost Hdig' Hpost' Heq) as (<- & <-).
    now rewrite matched_app.
Qed.

(** [re.search] returns the match at the leftmost position that has one. *)
Lemma search_leftmost {R : Type} (m : string -> option R) (text : string) :
  (forall v,
      search m text = Some v <->
      exists pre s,
        text = pre ++ s /\ m s = Some v /\
        forall pre' s', text = pre' ++ s' ->
                        (String.length pre' < String.length pre)%nat ->
                        m s' = None) /\
  (search m text = None <-> forall pre s, text = pre ++ s -> m s = None).
Proof.
  induction text as [|x t (IH1 & IH2)]; cbn [search].
  - split.
    + intros v. split.
      * intros H. exists EmptyString, EmptyString. split; [reflexivity|].
        split; [destruct (m EmptyString); congruence|].
        intros pre' s' _ Hlen. simpl in Hlen. lia.
      * intros (pre & s & H & Hm & _). destruct pre; [|discriminate].
        simpl in H. subst s. now rewrite Hm.
    + split.
      * intros H pre s Hs. destruct pre; [|discriminate]. simpl in Hs. subst s.
        destruct (m EmptyString); congruence.
      * intros H. now rewrite (H EmptyString EmptyString eq_refl).
  - destruct (m (String x t)) as [r|] eqn:Em.
    + split.
      * intros v. split.
        -- intros H. inversion H; subst r. exists EmptyString, (String x t).
           split; [reflexivity|]. split; [exact Em|].
           intros pre' s' _ Hlen. simpl in Hlen. lia.
        -- intros (pre & s & H & Hm & Hmin). destruct pre as [|y pre].
           ++ simpl in H. subst s. congruence.
           ++ rewrite (Hmin EmptyString (String x t) eq_refl) in Em;
                [discriminate|simpl; lia].
      * split; [discriminate|]. intros H.
        rewrite (H EmptyString (String x t) eq_refl) in Em. discriminate.
    + split.
      * intros v. rewrite IH1. split.
        -- intros (pre & s & -> & Hm & Hmin). exists (String x pre), s.
           split; [reflexivity|]. split; [exact Hm|].
           intros pre' s' H Hlen. destruct pre' as [|y pre'].
           ++ simpl in H. now subst s'.
           ++ simpl in H. inversion H; subst y. apply (Hmin pre' s' H2).
              simpl in Hlen. lia.
        -- intros (pre & s & H & Hm & Hmin). destruct pre as [|y pre].
           ++ simpl in H. subst s. congruence.
           ++ simpl in H. inversion H; subst y t. exists pre, s.
              split; [reflexivity|]. split; [exact Hm|].
              intros pre' s' H' Hlen. apply (Hmin (String x pre') s').
              ** simpl. now rewrite H'.
              ** simpl. lia.
      * rewrite IH2. split.
        -- intros H pre s Hs. destruct pre as [|y pre].
           ++ simpl in Hs. now subst s.
           ++ simpl in Hs. inversion Hs; subst. now apply (H pre s).
        -- intros H pre s Hs. apply (H (String x pre) s). simpl. now rewrite Hs.
Qed.

Lemma cluster_of_entry (scaffold file_content c : string) :
  cluster_of scaffold file_content = Some c ->
  exists s, cluster_entry scaffold s c.
Proof.
  unfold cluster_of. intros H.
  apply (proj1 (search_leftmost _ file_content)) in H as (_ & s & _ & H & _).
  exists s. now apply cluster_at.
Qed.

(** X19. For a scaffold ID without other pattern characters than dots, the
    cluster that write_output copies to clusters.txt is read at the leftmost
    place of the summary where a text matching the ID is followed by a
    newline, a line of dashes (possibly empty) and a line that starts with
    the word Cluster and a space: it is that word, the space and all the
    digits that follow, possibly none.  When the summary has no such place
    the function ends in an AttributeError. *)
Theorem cluster_of_leftmost_entry (scaffold file_content : string) :
  plain_id scaffold ->
  (forall c,
      cluster_of scaffold file_content = Some c <->
      exists pre s,
        file_content = pre ++ s /\ cluster_entry scaffold s c /\
        forall pre' s' c',
          file_content = pre' ++ s' -> cluster_entry scaffold s' c' ->
          (String.length pre <= String.length pre')%nat) /\
  (cluster_of scaffold file_content = None <->
   forall pre s c, file_content = pre ++ s -> ~ cluster_entry scaffold s c).
Proof.
  intros _. unfold cluster_of.
  set (m := match_here _ _).
  assert (Hm : forall s c, m s = Some c <-> cluster_entry scaffold s c).
  { intros s c. apply cluster_at. }
  assert (Hnone : forall s, m s = None <-> forall c, ~ cluster_entry scaffold s c).
  { intros s. split.
    - intros H c Hc. apply Hm in Hc. congruence.
    - intros H. destruct (m s) as [c|] eqn:E; [|reflexivity].
      apply Hm in E. now destruct (H c). }
  destruct (search_leftmost m file_content) as (H1 & H2). split.
  - intros c. rewrite H1. split.
    + intros (pre & s & Ht & Hs & Hmin). exists pre, s.
      split; [exact Ht|]. split; [now apply Hm|].
      intros pre' s' c' Ht' Hc'.
      destruct (Nat.le_gt_cases (String.length pre) (String.length pre'))
        as [Hle|Hlt]; [exact Hle|].
      apply Hm in Hc'. rewrite (Hmin pre' s' Ht' Hlt) in Hc'. discriminate.
    + intros (pre & s & Ht & Hs & Hmin). exists pre, s.
      split; [exact Ht|]. split; [now apply Hm|].
      intros pre' s' Ht' Hlt. apply Hnone. intros c' Hc'.
      specialize (Hmin pre' s' c' Ht' Hc'). lia.
  - rewrite H2. split.
    + intros H pre s c Ht. now apply Hnone, (H pre s).
    + intros H pre s Ht. apply Hnone. intros c. now apply (H pre s c).
Qed.

Lemma omap_Some {A B : Type} (f : A -> option B) (l : list A) :
  (forall ys, omap f l = Some ys <-> Forall2 (fun x y => f x = Some y) l ys) /\
  (omap f l = None <-> exists x, In x l /\ f x = None).
Proof.
  induction l as [|x l (IH1 & IH2)]; cbn [omap].
  - split.
    + intros ys. split; [intros H; inversion H; constructor|].
      intros H. inversion H. reflexivity.
    + split; [discriminate|intros (x & [] & _)].
  - destruct (f x) as [y|] eqn:Ex.
    + destruct (omap f l) as [ys0|] eqn:El.
      * split.
        -- intros ys. split.
           ++ intros H. inversion H; subst. constructor; [exact Ex|now apply IH1].
           ++ intros H. inversion H as [|? y' ? ys' Hy Hys]; subst.
              apply IH1 in Hys. congruence.
        -- split; [discriminate|]. intros (z & [<-|Hz] & Hf); [congruence|].
           assert (Some ys0 = None); [|discriminate]. apply IH2. eauto.
      * split.
        -- intros ys. split; [discriminate|].
           intros H. inversion H as [|? y' ? ys' Hy Hys]; subst.
           apply IH1 in Hys. discriminate.
        -- split; [|reflexivity]. intros _.
           destruct (proj1 IH2 eq_refl) as (z & Hz & Hf). exists z.
           split; [now right|exact Hf].
    + split.
      * intros ys. split; [discriminate|].
        intros H. inversion H; congruence.
      * split; [|reflexivity]. intros _. exists x. split; [now left|exact Ex].
Qed.

Lemma str_split_pieces (sep : ascii) (s piece : string) :
  In piece (str_split sep s) -> occurs_in (String sep EmptyString) piece = false.
Proof.
  revert piece. induction s as [|x s IH]; intros piece; cbn [str_split].
  - intros [<-|[]]. reflexivity.
  - destruct (Ascii.eqb x sep) eqn:Ex.
    + intros [<-|H]; [reflexivity|now apply IH].
    + destruct (str_split_cons sep s) as (w & ws & Hs). rewrite Hs in *.
      intros [<-|H]; [|apply IH; now right].
      apply occurs_in_char. simpl. rewrite Ex. simpl.
      apply occurs_in_char. apply IH. now left.
Qed.

Lemma cluster_entry_line (scaffold s c : string) :
  cluster_entry scaffold s c ->
  occurs_in (String newline EmptyString) c = false.
Proof.
  intros (_ & _ & digits & _ & _ & _ & _ & -> & Hdig & _).
  apply occurs_in_char. rewrite string_forallb_app. apply andb_true_iff.
  split; [reflexivity|].
  induction digits as [|x d IH]; [reflexivity|]. simpl in *.
  apply andb_true_iff in Hdig as (Hx & Hd). rewrite (IH Hd), andb_true_r.
  apply negb_true_iff, Ascii.eqb_neq. intros ->. discriminate.
Qed.

(** X20. write_output writes cleaned_binary.txt only when every retained
    scaffold has a line in the binary table, and clusters.txt only when, in
    addition, every one has a cluster in the summary; otherwise it ends in
    an AttributeError before the file is opened.  cleaned_binary.txt is the
    header of the binary table followed by one line per retained scaffold,
    in the order of the list; clusters.txt holds one cluster per retained
    scaffold, in the same order. *)
Theorem write_output_files (dereplicated_scaffolds : list string)
        (summary binary : string) :
  Forall plain_id dereplicated_scaffolds ->
  (fst (write_output dereplicated_scaffolds summary binary) = None <->
   exists s, In s dereplicated_scaffolds /\ cleaned_hit s binary = None) /\
  (forall cleaned,
      fst (write_output dereplicated_scaffolds summary binary) = Some cleaned ->
      exists hits,
        Forall2 (fun s h => cleaned_hit s binary = Some h)
                dereplicated_scaffolds hits /\
        str_split newline cleaned
        = (first_line binary :: hits ++ [EmptyString])%list) /\
  (snd (write_output dereplicated_scaffolds summary binary) = None <->
   exists s, In s dereplicated_scaffolds /\
             (cleaned_hit s binary = None \/ cluster_of s summary = None)) /\
  (forall clusters,
      snd (write_output dereplicated_scaffolds summary binary) = Some clusters ->
      exists cs,
        Forall2 (fun s c => cluster_of s summary = Some c)
                dereplicated_scaffolds cs /\
        str_split newline clusters = (cs ++ [EmptyString])%list).
Proof.
  intros Hplain. unfold write_output, cleaned_binary, clusters_txt.
  destruct (omap_Some (fun s => cleaned_hit s binary) dereplicated_scaffolds)
    as (Hb1 & Hb2).
  destruct (omap_Some (fun s => cluster_of s summary) dereplicated_scaffolds)
    as (Hc1 & Hc2).
  assert (Hhits : forall hits,
             Forall2 (fun s h => cleaned_hit s binary = Some h)
                     dereplicated_scaffolds hits ->
             Forall (fun x => occurs_in (String newline EmptyString) x = false) hits).
  { intros hits H. clear - H Hplain.
    induction H as [|s h l hits Hs _ IH]; [constructor|].
    inversion Hplain as [|? ? Hp Hl]; subst. constructor; [|now apply IH].
    rewrite (cleaned_hit_find _ _ Hp) in Hs. apply find_some in Hs as (Hs & _).
    now apply (str_split_pieces newline binary). }
  assert (Hcs : forall cs,
             Forall2 (fun s c => cluster_of s summary = Some c)
                     dereplicated_scaffolds cs ->
             Forall (fun x => occurs_in (String newline EmptyString) x = false) cs).
  { intros cs H. clear - H Hplain.
    induction H as [|s c l cs Hs _ IH]; [constructor|].
    inversion Hplain as [|? ? Hp Hl]; subst. constructor; [|now apply IH].
    apply cluster_of_entry in Hs as (s' & He).
    eapply cluster_entry_line; eauto. }
  assert (Hhead : hd EmptyString (str_split newline binary) = first_line binary).
  { now rewrite str_split_first_line. }
  destruct (omap (fun s => cleaned_hit s binary) dereplicated_scaffolds)
    as [hits|] eqn:Eb; cbn [fst snd].
  - assert (Hf : Forall2 (fun s h => cleaned_hit s binary = Some h)
                         dereplicated_scaffolds hits) by now apply Hb1.
    split; [|split; [|split]].
    + split; [discriminate|]. intros H. apply Hb2 in H. discriminate.
    + intros cleaned H. inversion H; subst cleaned; clear H.
      exists hits. split; [exact Hf|]. rewrite Hhead.
      change ((first_line binary ++ String newline EmptyString) ++ write_lines hits)
        with (write_lines (first_line binary :: hits)).
      unfold write_lines. rewrite str_split_lines; [reflexivity|].
      constructor; [|now apply Hhits].
      apply (str_split_pieces newline binary). rewrite str_split_first_line.
      now left.
    + destruct (omap (fun s => cluster_of s summary) dereplicated_scaffolds)
        as [cs|] eqn:Ec.
      * split; [discriminate|]. intros (s & Hs & [H|H]).
        -- assert (Some hits = None); [|discriminate]. apply Hb2. eauto.
        -- assert (Some cs = None); [|discriminate]. apply Hc2. eauto.
      * split; [|reflexivity]. intros _.
        destruct (proj1 Hc2 eq_refl) as (s & Hs & H). exists s. auto.
    + intros clusters H.
      destruct (omap (fun s => cluster_of s summary) dereplicated_scaffolds)
        as [cs|] eqn:Ec; [|discriminate].
      inversion H; subst clusters; clear H.
      assert (Hfc : Forall2 (fun s c => cluster_of s summary = Some c)
                            dereplicated_scaffolds cs) by now apply Hc1.
      exists cs. split; [exact Hfc|].
      unfold write_lines. apply str_split_lines. now apply Hcs.
  - destruct (proj1 Hb2 eq_refl) as (s & Hs & H).
    split; [|split; [|split]].
    + split; [eauto|reflexivity].
    + discriminate.
    + split; [|reflexivity]. intros _. exists s. auto.
    + discriminate.
Qed.

(** ** main: what the clean-up leaves *)

(** X21. At the end of main the downloaded genomes are removed unless
    keep_intermediate or keep_downloads is set, the skDER output unless
    keep_intermediate or keep_dereplication is set, and the data directory
    itself only when none of the three is set; no directory is removed
    after a directory above it. *)
Theorem cleanup_keeps (keep_intermediate keep_downloads keep_dereplication : bool) :
  (removed_by (cleanup keep_intermediate keep_downloads keep_dereplication) GENOMES
   <-> keep_intermediate = false /\ keep_downloads = false) /\
  (removed_by (cleanup keep_intermediate keep_downloads keep_dereplication) SKDER_OUT
   <-> keep_intermediate = false /\ keep_dereplication = false) /\
  (removed_by (cleanup keep_intermediate keep_downloads keep_dereplication) "data"
   <-> keep_intermediate = false /\ keep_downloads = false /\
       keep_dereplication = false) /\
  (forall l1 d l2,
      cleanup keep_intermediate keep_downloads keep_dereplication
      = (l1 ++ d :: l2)%list ->
      ~ removed_by l1 d).
Proof.
  assert (Hsolve : forall calls path,
             removed_by calls path <->
             existsb (fun d => String.eqb path d || String.prefix (d ++ "/") path)
                     calls = true).
  { intros calls path. unfold removed_by. rewrite existsb_exists.
    split; intros (d & Hd & H); exists d; (split; [exact Hd|]).
    - apply orb_true_iff. destruct H as [->|H]; [left; apply String.eqb_refl|auto].
    - apply orb_true_iff in H as [H|H]; [left; now apply String.eqb_eq|auto]. }
  split; [|split; [|split]].
  - rewrite Hsolve.
    destruct keep_intermediate, keep_downloads, keep_dereplication;
      vm_compute; split; intros H; try discriminate; try tauto;
      destruct H; discriminate.
  - rewrite Hsolve.
    destruct keep_intermediate, keep_downloads, keep_dereplication;
      vm_compute; split; intros H; try discriminate; try tauto;
      destruct H; discriminate.
  - rewrite Hsolve.
    destruct keep_intermediate, keep_downloads, keep_dereplication;
      vm_compute; split; intros H; try discriminate; try tauto;
      destruct H as (? & ? & ?); discriminate.
  - intros l1 d l2 H. rewrite Hsolve.
    destruct keep_intermediate, keep_downloads, keep_dereplication;
      cbn in H;
      repeat (destruct l1 as [|? l1]; cbn in H; try discriminate);
      inversion H; subst; vm_compute; discriminate.
Qed.

(** ** Instances of the further theorems *)

Lemma split_off_prefix_first_underscore_witness :
  occurs_in "_" "NZ" = false /\
  split_off_prefix ("NZ" ++ "_" ++ "CP012345.1") = "CP012345.1".
Proof.
  split; [reflexivity|].
  exact (proj1 (split_off_prefix_first_underscore "NZ" "CP012345.1" eq_refl)).
Defined.

Lemma map_back_split_off_prefix_witness :
  In "NC_000913.3" example_scaffolds /\
  exists s' l1 l2,
    map_back (split_off_prefix "NC_000913.3") example_scaffolds = Ok s' /\
    example_scaffolds = (l1 ++ s' :: l2)%list /\
    substring_of (split_off_prefix "NC_000913.3") s' /\
    (s' = "NC_000913.3" \/ In "NC_000913.3" l2).
Proof.
  assert (Hin : In "NC_000913.3" example_scaffolds) by (simpl; auto).
  split; [exact Hin|].
  exact (map_back_split_off_prefix example_scaffolds "NC_000913.3" Hin).
Defined.

Lemma listed_order_elements (l : list string) (x : string) :
  In x (listed_order l) <-> In x l.
Proof. unfold listed_order. split; auto. Defined.

Lemma map_scaffolds_to_assemblies_returns_witness :
  (forall l x, In x (listed_order l) <-> In x l) /\
  exists mappings,
    map_scaffolds_to_assemblies example_listdir example_fasta_ids listed_order
                                example_scaffolds example_assemblies
    = Ok mappings.
Proof.
  split; [exact listed_order_elements|].
  exact (proj2 (map_scaffolds_to_assemblies_returns
                  example_listdir example_fasta_ids listed_order
                  example_scaffolds example_assemblies listed_order_elements)).
Defined.

Lemma map_scaffolds_to_assemblies_entries_witness :
  (forall l x, In x (listed_order l) <-> In x l) /\
  map_scaffolds_to_assemblies example_listdir example_fasta_ids listed_order
                              example_scaffolds example_assemblies
  = Ok [("NC_000913.3", "GCF_000005845.2")] /\
  NoDup (map fst [("NC_000913.3", "GCF_000005845.2")]).
Proof.
  assert (Hrun : map_scaffolds_to_assemblies example_listdir example_fasta_ids
                   listed_order example_scaffolds example_assemblies
                 = Ok [("NC_000913.3", "GCF_000005845.2")])
    by (vm_compute; reflexivity).
  split; [exact listed_order_elements|]. split; [exact Hrun|].
  exact (proj1 (map_scaffolds_to_assemblies_entries
                  example_listdir example_fasta_ids listed_order
                  example_scaffolds example_assemblies _
                  listed_order_elements Hrun)).
Defined.

Lemma batched_consecutive_witness :
  (1 <= 2)%Z /\
  exists bs,
    batched example_scaffolds 2 = Ok bs /\
    List.concat bs = example_scaffolds /\
    Forall (fun b => (1 <= Z.of_nat (List.length b) <= 2)%Z) bs /\
    forall l1 b l2, bs = (l1 ++ b :: l2)%list -> l2 <> [] ->
                    Z.of_nat (List.length b) = 2%Z.
Proof.
  assert (Hn : (1 <= 2)%Z) by (vm_compute; discriminate).
  split; [exact Hn|].
  exact (batched_consecutive example_scaffolds 2 Hn).
Defined.

Lemma versionless_before_first_dot_witness :
  occurs_in "." "GCF_000005845" = false /\
  versionless ("GCF_000005845" ++ "." ++ "2") = "GCF_000005845".
Proof.
  split; [reflexivity|].
  exact (proj1 (versionless_before_first_dot "GCF_000005845" "2" eq_refl)).
Defined.

Lemma example_assemblies_words : Forall one_word example_assemblies.
Proof.
  repeat (apply Forall_cons; [split; reflexivity|]). apply Forall_nil.
Defined.

Lemma download_genomes_read_back_witness :
  Forall one_word example_assemblies /\
  exists content download_batches,
    download_genomes example_assemblies 1 = Ok content /\
    batched (map versionless example_assemblies) 1 = Ok download_batches /\
    read_batches content = download_batches /\
    List.concat (read_batches content) = map versionless example_assemblies.
Proof.
  split; [exact example_assemblies_words|].
  exact (download_genomes_read_back example_assemblies 1
           example_assemblies_words (Z.le_refl 1)).
Defined.

Lemma parse_dereplication_clusters_failures_witness :
  rmap extract_assembly (map assembly_path example_records)
  = Ok ["GCF_000005845.2"; "GCF_000006945.2"] /\
  rmap extract_assembly (map representative_path example_records)
  = Ok ["GCF_000005845.2"; "GCF_000005845.2"] /\
  ((exists r, In r example_records /\ ~ known_label (type_label r)) ->
   parse_dereplication_clusters example_records example_pairs = Raise KeyError).
Proof.
  assert (Ha : rmap extract_assembly (map assembly_path example_records)
               = Ok ["GCF_000005845.2"; "GCF_000006945.2"])
    by (vm_compute; reflexivity).
  assert (Hr : rmap extract_assembly (map representative_path example_records)
               = Ok ["GCF_000005845.2"; "GCF_000005845.2"])
    by (vm_compute; reflexivity).
  split; [exact Ha|]. split; [exact Hr|].
  exact (proj1 (parse_dereplication_clusters_failures
                  example_records example_pairs _ _ Ha Hr)).
Defined.

Lemma example_pairs_unique : NoDup (map fst example_pairs).
Proof.
  repeat constructor; simpl; intuition discriminate.
Defined.

Lemma parse_dereplication_clusters_rows_witness :
  NoDup (map fst example_pairs) /\
  parse_dereplication_clusters example_records example_pairs = Ok example_table /\
  forall x,
    In x example_table <->
    exists r a,
      In r example_records /\ In (scaffold x, a) example_pairs /\
      record_of r a (representative x) (dereplication_status x).
Proof.
  assert (Hrun : parse_dereplication_clusters example_records example_pairs
                 = Ok example_table)
    by (vm_compute; reflexivity).
  split; [exact example_pairs_unique|]. split; [exact Hrun|].
  exact (proj1 (parse_dereplication_clusters_rows example_records example_pairs
                  example_table example_pairs_unique Hrun)).
Defined.

Lemma parse_dereplication_clusters_invariants_witness :
  parse_dereplication_clusters example_records example_pairs = Ok example_table /\
  NoDup (map scaffold example_table).
Proof.
  assert (Hrun : parse_dereplication_clusters example_records example_pairs
                 = Ok example_table)
    by (vm_compute; reflexivity).
  split; [exact Hrun|].
  exact (proj1 (parse_dereplication_clusters_invariants
                  example_records example_pairs example_table Hrun)).
Defined.

Lemma scenario_c_numeric : numeric scenario_c_hits.
Proof. apply numeric_Forall. repeat constructor. Defined.

Lemma recover_hits_returns_iff_covered_witness :
  NoDup (map scaffold scenario_c_table) /\
  numeric scenario_c_hits /\
  (false = true \/ (0 <? 0.1)%float = true) /\
  (covered scenario_c_hits scenario_c_table ->
   exists t' g',
     recover_hits scenario_c_hits scenario_c_table false false 2 0.1 zero_rng
     = Ok (t', g')).
Proof.
  assert (Hor : false = true \/ (0 <? 0.1)%float = true) by (right; reflexivity).
  split; [exact scenario_c_table_unique|]. split; [exact scenario_c_numeric|].
  split; [exact Hor|].
  exact (proj1 (recover_hits_returns_iff_covered
                  scenario_c_hits scenario_c_table false 2 0.1 zero_rng
                  scenario_c_table_unique scenario_c_numeric Hor)).
Defined.

Lemma not_by_score_flags_no_outlier_witness :
  NoDup (map scaffold scenario_c_table) /\
  recover_hits scenario_c_hits scenario_c_table false true 2 0.1 zero_rng
  = Ok (scenario_c_result, {| draws := draws zero_rng; pos := 1 |}) /\
  (base_table scenario_c_table ->
   forall m, loc_status scenario_c_result m <> Ok readded_by_outlier_score).
Proof.
  assert (Hrun : recover_hits scenario_c_hits scenario_c_table false true 2
                              0.1 zero_rng
                 = Ok (scenario_c_result, {| draws := draws zero_rng; pos := 1 |}))
    by (vm_compute; reflexivity).
  split; [exact scenario_c_table_unique|]. split; [exact Hrun|].
  exact (proj2 (not_by_score_flags_no_outlier
                  scenario_c_hits scenario_c_table false 2 0.1 zero_rng _
                  scenario_c_result scenario_c_table_unique Hrun)).
Defined.

Lemma outlier_rep_table_base : base_table outlier_rep_table.
Proof.
  unfold base_table, outlier_rep_table.
  repeat (apply Forall_cons; [simpl; auto|]). apply Forall_nil.
Defined.

Lemma every_content_group_keeps_a_hit_witness :
  NoDup (map scaffold outlier_rep_table) /\
  base_table outlier_rep_table /\
  recover_hits outlier_hit_hits outlier_rep_table false false 2 0.1 zero_rng
  = Ok (outlier_hit_result, zero_rng) /\
  content_group_of outlier_hit_hits outlier_rep_table outlier_hit_hits /\
  exists m,
    In m (candidates false 2 0.1 outlier_hit_hits) /\
    In m (group_labels outlier_hit_hits) /\
    In m (get_dereplicated_scaffolds outlier_hit_result) /\
    (loc_status outlier_hit_result m = Ok dereplication_representative \/
     loc_status outlier_hit_result m = Ok readded_by_cluster_content).
Proof.
  assert (Hrun : recover_hits outlier_hit_hits outlier_rep_table false false 2
                              0.1 zero_rng = Ok (outlier_hit_result, zero_rng))
    by (vm_compute; reflexivity).
  split; [exact outlier_rep_table_unique|]. split; [exact outlier_rep_table_base|].
  split; [exact Hrun|]. split; [exact outlier_hit_group|].
  exact (every_content_group_keeps_a_hit
           outlier_hit_hits outlier_rep_table false 2 0.1 zero_rng zero_rng
           outlier_hit_result outlier_hit_hits
           outlier_rep_table_unique outlier_rep_table_base Hrun outlier_hit_group).
Defined.

Lemma main_steps_retained_witness :
  NoDup (map fst example_pairs) /\
  main_steps example_records example_pairs example_hits false false 2 0.1
             zero_rng = Ok (["NC_000913.3"], zero_rng) /\
  NoDup ["NC_000913.3"].
Proof.
  assert (Hrun : main_steps example_records example_pairs example_hits false false
                            2 0.1 zero_rng = Ok (["NC_000913.3"], zero_rng))
    by (vm_compute; reflexivity).
  split; [exact example_pairs_unique|]. split; [exact Hrun|].
  exact (proj1 (main_steps_retained
                  example_records example_pairs example_hits false false 2 0.1
                  zero_rng zero_rng ["NC_000913.3"] example_pairs_unique Hrun)).
Defined.

Lemma example_id_plain : plain_id "NC_000913.3".
Proof. reflexivity. Defined.

Lemma cleaned_hit_first_line_witness :
  plain_id "NC_000913.3" /\
  (cleaned_hit "NC_000913.3" example_binary = None <->
   Forall (fun l => ~ holds_id "NC_000913.3" l) (str_split newline example_binary)).
Proof.
  split; [exact example_id_plain|].
  exact (proj2 (cleaned_hit_first_line "NC_000913.3" example_binary
                  example_id_plain)).
Defined.

Lemma cluster_of_leftmost_entry_witness :
  plain_id "NC_000913.3" /\
  (cluster_of "NC_000913.3" example_summary = None <->
   forall pre s c, example_summary = pre ++ s ->
                   ~ cluster_entry "NC_000913.3" s c).
Proof.
  split; [exact example_id_plain|].
  exact (proj2 (cluster_of_leftmost_entry "NC_000913.3" example_summary
                  example_id_plain)).
Defined.

Lemma example_ids_plain : Forall plain_id ["NC_000913.3"].
Proof.
  apply Forall_cons; [exact example_id_plain|apply Forall_nil].
Defined.

Lemma write_output_files_witness :
  Forall plain_id ["NC_000913.3"] /\
  (fst (write_output ["NC_000913.3"] example_summary example_binary) = None <->
   exists s, In s ["NC_000913.3"] /\ cleaned_hit s example_binary = None).
Proof.
  split; [exact example_ids_plain|].
  exact (proj1 (write_output_files ["NC_000913.3"] example_summary example_binary
                  example_ids_plain)).
Defined.

(** The example files: the line and the cluster written for the scaffold. *)
Example write_output_example :
  cleaned_hit "NC_000913.3" example_binary
  = Some "Escherichia coli  NC_000913.3  100  2000  10.0  1  1" /\
  cluster_of "NC_000913.3" example_summary = Some "Cluster 1".
Proof. split; vm_compute; reflexivity. Qed.
